(** * AssetBundle: the archive codec of paperdave/assetbundle

    A shallow embedding of [encodeAssetBundle], [decodeAssetBundleStream]
    and [decodeAssetBundle] (AssetBundle.ts), and the properties of the
    format that hold, or fail, on that code.

    JavaScript numbers that hold integers are [Z]; a [Uint8Array] or
    [ArrayBuffer] is a [list byte]; a JavaScript string is the list of its
    UTF-16 code units. *)

From Stdlib Require Import String Ascii.
From Stdlib.Strings Require Import Byte.
From Stdlib Require Import List ListDec ZArith Lia Bool.
Import ListNotations.
Local Open Scope Z_scope.

(** ** Web platform primitives used by the source

    [TextEncoder], [TextDecoder], typed arrays and [crypto.subtle.digest]
    are not code of the repository; they are written out here after their
    standards (WHATWG Encoding, ECMAScript typed arrays, FIPS 180-4). *)

Module Platform.

Definition byte := Byte.byte.

Definition byte_val (b : byte) : Z := Z.of_N (Byte.to_N b).

Definition byte_of (z : Z) : byte :=
  match Byte.of_N (Z.to_N (z mod 256)) with
  | Some b => b
  | None => Byte.x00
  end.

(** [x.byteLength] / [x.length] as a JavaScript number. *)
Definition byteLength {A : Type} (l : list A) : Z := Z.of_nat (List.length l).

(** A JavaScript string: its UTF-16 code units. *)
Definition jsstring := list Z.

(** An ASCII literal as a JavaScript string. *)
Definition js (s : string) : jsstring :=
  map (fun a => Z.of_N (N_of_ascii a)) (list_ascii_of_string s).

Definition jsstring_eqb (a b : jsstring) : bool :=
  if list_eq_dec Z.eq_dec a b then true else false.

(** *** Array.prototype.slice / TypedArray.prototype.slice *)

Definition relativeIndex (len k : Z) : Z :=
  if k <? 0 then Z.max (len + k) 0 else Z.min k len.

(** [l.slice(start, end)]; [end_ = None] is the one-argument call. *)
Definition slice {A : Type} (l : list A) (start : Z) (end_ : option Z) : list A :=
  let len := byteLength l in
  let k := relativeIndex len start in
  let final := match end_ with
               | None => len
               | Some e => relativeIndex len e
               end in
  firstn (Z.to_nat (final - k)) (skipn (Z.to_nat k) l).

(** *** Typed arrays (little-endian element storage) *)

(** The bytes of [new Uint16Array([v])]: [v] modulo 2^16, low byte first. *)
Definition Uint16Array_bytes (v : Z) : list byte :=
  let w := v mod 65536 in [byte_of w; byte_of (w / 256)].

(** The bytes of [new Uint32Array([v])]: [v] modulo 2^32, low byte first. *)
Definition Uint32Array_bytes (v : Z) : list byte :=
  let w := v mod 4294967296 in
  [byte_of w; byte_of (w / 256); byte_of (w / 65536); byte_of (w / 16777216)].

(** *** UTF-8 (WHATWG Encoding) *)

Definition is_lead_surrogate (u : Z) : bool := (0xD800 <=? u) && (u <=? 0xDBFF).
Definition is_trail_surrogate (u : Z) : bool := (0xDC00 <=? u) && (u <=? 0xDFFF).

(** DOMString to scalar values: a surrogate pair is one code point, a lone
    surrogate becomes U+FFFD. *)
Fixpoint scalar_values (s : jsstring) : list Z :=
  match s with
  | [] => []
  | u :: rest =>
      if is_lead_surrogate u then
        match rest with
        | l :: rest' =>
            if is_trail_surrogate l
            then (0x10000 + (u - 0xD800) * 0x400 + (l - 0xDC00)) :: scalar_values rest'
            else 0xFFFD :: scalar_values rest
        | [] => [0xFFFD]
        end
      else if is_trail_surrogate u then 0xFFFD :: scalar_values rest
      else u :: scalar_values rest
  end.

Definition utf8_encode_scalar (c : Z) : list byte :=
  if c <? 0x80 then [byte_of c]
  else if c <? 0x800 then
    [byte_of (0xC0 + c / 64); byte_of (0x80 + c mod 64)]
  else if c <? 0x10000 then
    [byte_of (0xE0 + c / 4096); byte_of (0x80 + (c / 64) mod 64);
     byte_of (0x80 + c mod 64)]
  else
    [byte_of (0xF0 + c / 262144); byte_of (0x80 + (c / 4096) mod 64);
     byte_of (0x80 + (c / 64) mod 64); byte_of (0x80 + c mod 64)].

(** [new TextEncoder().encode(s)]; also the bytes a string part contributes
    to a [Blob]. *)
Definition TextEncoder_encode (s : jsstring) : list byte :=
  flat_map utf8_encode_scalar (scalar_values s).

(** State of the UTF-8 decoder: code point so far, bytes still needed, and
    the bounds the next continuation byte must lie in. *)
Record utf8_state := mk_utf8_state
  { u_cp : Z; u_needed : Z; u_lower : Z; u_upper : Z }.

Definition utf8_init : utf8_state := mk_utf8_state 0 0 0x80 0xBF.

(** A byte read when no sequence is open. *)
Definition utf8_lead (v : Z) : list Z * utf8_state :=
  if v <=? 0x7F then ([v], utf8_init)
  else if (0xC2 <=? v) && (v <=? 0xDF) then
    ([], mk_utf8_state (Z.land v 0x1F) 1 0x80 0xBF)
  else if (0xE0 <=? v) && (v <=? 0xEF) then
    ([], mk_utf8_state (Z.land v 0xF) 2
           (if v =? 0xE0 then 0xA0 else 0x80)
           (if v =? 0xED then 0x9F else 0xBF))
  else if (0xF0 <=? v) && (v <=? 0xF4) then
    ([], mk_utf8_state (Z.land v 0x7) 3
           (if v =? 0xF0 then 0x90 else 0x80)
           (if v =? 0xF4 then 0x8F else 0xBF))
  else ([0xFFFD], utf8_init).

Definition utf8_step (st : utf8_state) (v : Z) : list Z * utf8_state :=
  if u_needed st =? 0 then utf8_lead v
  else if (v <? u_lower st) || (u_upper st <? v) then
    (* the byte is put back and read again with the decoder reset *)
    let '(out, st') := utf8_lead v in (0xFFFD :: out, st')
  else
    let cp := u_cp st * 64 + Z.land v 0x3F in
    if u_needed st =? 1 then ([cp], utf8_init)
    else ([], mk_utf8_state cp (u_needed st - 1) 0x80 0xBF).

Fixpoint utf8_decode_from (st : utf8_state) (bs : list byte) : list Z :=
  match bs with
  | [] => if u_needed st =? 0 then [] else [0xFFFD]
  | b :: rest =>
      let '(out, st') := utf8_step st (byte_val b) in
      out ++ utf8_decode_from st' rest
  end.

Definition utf16_units (c : Z) : list Z :=
  if c <? 0x10000 then [c]
  else [0xD800 + (c - 0x10000) / 0x400; 0xDC00 + (c - 0x10000) mod 0x400].

(** A leading byte order mark is dropped (the decoder is built with the
    default [ignoreBOM = false]). *)
Definition strip_bom (bs : list byte) : list byte :=
  match bs with
  | Byte.xef :: Byte.xbb :: Byte.xbf :: rest => rest
  | _ => bs
  end.

(** [td.decode(buffer)] for [td = new TextDecoder()]. *)
Definition TextDecoder_decode (bs : list byte) : jsstring :=
  flat_map utf16_units (utf8_decode_from utf8_init (strip_bom bs)).

(** *** SHA-1 (FIPS 180-4), words as [Z] modulo 2^32 *)

Definition w32 (x : Z) : Z := x mod 4294967296.

Definition rotl32 (n x : Z) : Z :=
  Z.lor (w32 (Z.shiftl x n)) (Z.shiftr x (32 - n)).

Definition be32_bytes (w : Z) : list byte :=
  [byte_of (w / 16777216); byte_of (w / 65536); byte_of (w / 256); byte_of w].

Definition be32_value (b0 b1 b2 b3 : byte) : Z :=
  byte_val b0 * 16777216 + byte_val b1 * 65536 + byte_val b2 * 256 + byte_val b3.

Definition sha1_pad (msg : list byte) : list byte :=
  let l := byteLength msg in
  let zeros := (55 - l) mod 64 in
  let bits := 8 * l in
  msg ++ [Byte.x80] ++ repeat Byte.x00 (Z.to_nat zeros)
      ++ be32_bytes (w32 (bits / 4294967296)) ++ be32_bytes (w32 bits).

Fixpoint be32_words (bs : list byte) : list Z :=
  match bs with
  | b0 :: b1 :: b2 :: b3 :: rest => be32_value b0 b1 b2 b3 :: be32_words rest
  | _ => []
  end.

(** Words 16..79 of the message schedule, from the window of the last 16. *)
Fixpoint sha1_extend (k : nat) (w : list Z) : list Z :=
  match k with
  | O => []
  | S k' =>
      let x := rotl32 1 (Z.lxor (Z.lxor (nth 13 w 0) (nth 8 w 0))
                                (Z.lxor (nth 2 w 0) (nth 0 w 0))) in
      x :: sha1_extend k' (tl w ++ [x])
  end.

Definition sha1_regs := (Z * Z * Z * Z * Z)%type.

Definition sha1_round (acc : Z * sha1_regs) (w : Z) : Z * sha1_regs :=
  let '(t, (a, b, c, d, e)) := acc in
  let f :=
    if t <? 20 then Z.lor (Z.land b c) (Z.land (Z.lxor b 0xFFFFFFFF) d)
    else if t <? 40 then Z.lxor (Z.lxor b c) d
    else if t <? 60 then Z.lor (Z.lor (Z.land b c) (Z.land b d)) (Z.land c d)
    else Z.lxor (Z.lxor b c) d in
  let k :=
    if t <? 20 then 0x5A827999
    else if t <? 40 then 0x6ED9EBA1
    else if t <? 60 then 0x8F1BBCDC
    else 0xCA62C1D6 in
  let temp := w32 (rotl32 5 a + f + e + k + w) in
  (t + 1, (temp, a, rotl32 30 b, c, d)).

Definition sha1_block (h : sha1_regs) (block : list byte) : sha1_regs :=
  let w16 := be32_words block in
  let '(_, (a, b, c, d, e)) :=
    fold_left sha1_round (w16 ++ sha1_extend 64 w16) (0, h) in
  let '(h0, h1, h2, h3, h4) := h in
  (w32 (h0 + a), w32 (h1 + b), w32 (h2 + c), w32 (h3 + d), w32 (h4 + e)).

Fixpoint sha1_blocks (fuel : nat) (h : sha1_regs) (bs : list byte) : sha1_regs :=
  match fuel, bs with
  | S fuel', _ :: _ => sha1_blocks fuel' (sha1_block h (firstn 64 bs)) (skipn 64 bs)
  | _, _ => h
  end.

(** [crypto.subtle.digest("sha-1", buffer)]. *)
Definition sha1 (msg : list byte) : list byte :=
  let padded := sha1_pad msg in
  let '(h0, h1, h2, h3, h4) :=
    sha1_blocks (List.length padded)
      (0x67452301, 0xEFCDAB89, 0x98BADCFE, 0x10325476, 0xC3D2E1F0) padded in
  be32_bytes h0 ++ be32_bytes h1 ++ be32_bytes h2 ++ be32_bytes h3 ++ be32_bytes h4.

End Platform.

Import Platform.

(** ** The codec (AssetBundle.ts) *)

Module AssetBundle.

(** [HEAD]: the bytes of "BUNDLE1". *)
Definition HEAD : list byte :=
  [Byte.x42; Byte.x55; Byte.x4e; Byte.x44; Byte.x4c; Byte.x45; Byte.x31].

(** *** Values *)

(** What [file.data] can be ([Blob | Uint8Array | ArrayBufferLike | string]).
    A [Uint8Array] is a view of [byteLength] bytes at [byteOffset] into its
    [buffer], which is an [ArrayBuffer] ([DataUint8Array]) or a
    [SharedArrayBuffer] ([DataSharedUint8Array]). *)
Inductive InputData :=
| DataString (s : jsstring)
| DataUint8Array (buffer : list byte) (byteOffset byteLength : Z)
| DataSharedUint8Array (buffer : list byte) (byteOffset byteLength : Z)
| DataArrayBuffer (bytes : list byte)
| DataSharedArrayBuffer (bytes : list byte)
| DataBlob (bytes : list byte).

(** The bytes a payload source denotes. *)
Definition source_bytes (d : InputData) : list byte :=
  match d with
  | DataString s => TextEncoder_encode s
  | DataUint8Array buffer off len
  | DataSharedUint8Array buffer off len =>
      firstn (Z.to_nat len) (skipn (Z.to_nat off) buffer)
  | DataArrayBuffer b => b
  | DataSharedArrayBuffer b => b
  | DataBlob b => b
  end.

Record AssetBundleInput := mkInput
  { name : jsstring; type : option jsstring; data : InputData }.

(** The values the untyped locals [type] and [buffer] of the encoder take. *)
Inductive JSValue :=
| VUndefined
| VString (s : jsstring)
| VArrayBuffer (bytes : list byte)
| VSharedArrayBuffer (bytes : list byte).

Definition type_value (t : option jsstring) : JSValue :=
  match t with
  | None => VUndefined
  | Some s => VString s
  end.

(** A [Blob]: its bytes and its [type] attribute. *)
Record Blob := mkBlob { blob_bytes : list byte; blob_type : jsstring }.

(** A letter A..Z as the letter a..z, any other code unit as it is. *)
Definition ascii_lowercase (c : Z) : Z :=
  if (65 <=? c) && (c <=? 90) then c + 32 else c.

(** The [type] attribute a [Blob] gets from the [type] option of its
    constructor (File API, 3.1): the empty string if the option holds a
    character outside U+0020..U+007E, the option in ASCII lowercase
    otherwise. *)
Definition Blob_type (t : jsstring) : jsstring :=
  if forallb (fun c => (0x20 <=? c) && (c <=? 0x7E)) t
  then map ascii_lowercase t
  else [].

Inductive BlobPart :=
| PartUint8Array (bytes : list byte)
| PartUint16Array (v : Z)      (* new Uint16Array([v]) *)
| PartUint32Array (v : Z)      (* new Uint32Array([v]) *)
| PartString (s : jsstring)
| PartArrayBuffer (bytes : list byte).

Definition part_bytes (p : BlobPart) : list byte :=
  match p with
  | PartUint8Array b => b
  | PartUint16Array v => Uint16Array_bytes v
  | PartUint32Array v => Uint32Array_bytes v
  | PartString s => TextEncoder_encode s
  | PartArrayBuffer b => b
  end.

(** [new Blob(parts, { type })]. *)
Definition new_Blob (parts : list BlobPart) (t : jsstring) : Blob :=
  mkBlob (flat_map part_bytes parts) (Blob_type t).

Inductive result (E A : Type) :=
| Ok (a : A)
| Err (e : E).
Arguments Ok {E A} a.
Arguments Err {E A} e.

(** *** WRITING *)

Inductive EncodeError :=
| DuplicateFilename (name : jsstring)   (* `Duplicate filename: ${name}` *)
| CouldNotConvert (name : jsstring)     (* `Could not convert "${name}"'s data to an ArrayBuffer.` *)
| HashNot20Bytes.                       (* "Hash is not 20 bytes long" *)

(** The expression
    [typeof data === "string" ? new TextEncoder().encode(data).buffer
       : data.buffer ?? (data.arrayBuffer ? (type ??= await data.arrayBuffer()) : data)]
    with the value [type] holds afterwards: ([buffer], [type]). *)
Definition resolve (data : InputData) (type : JSValue) : JSValue * JSValue :=
  match data with
  | DataString s => (VArrayBuffer (TextEncoder_encode s), type)
  | DataUint8Array buffer _ _ => (VArrayBuffer buffer, type)
  | DataSharedUint8Array buffer _ _ => (VSharedArrayBuffer buffer, type)
  | DataArrayBuffer b => (VArrayBuffer b, type)
  | DataSharedArrayBuffer b => (VSharedArrayBuffer b, type)
  | DataBlob b =>
      match type with
      | VUndefined => (VArrayBuffer b, VArrayBuffer b)
      | _ => (type, type)
      end
  end.

(** [new TextEncoder().encode(type)]: [undefined] takes the parameter's
    default, the empty string; an object is converted by ToString. *)
Definition encode_type (type : JSValue) : list byte :=
  match type with
  | VUndefined => []
  | VString s => TextEncoder_encode s
  | VArrayBuffer _ => TextEncoder_encode (js "[object ArrayBuffer]")
  | VSharedArrayBuffer _ => TextEncoder_encode (js "[object SharedArrayBuffer]")
  end.

(** The body of [for (const file of files)], with the locals [chunks],
    [offset] and [seenFilenames] passed along. *)
Fixpoint encodeFiles (files : list AssetBundleInput) (chunks : list BlobPart)
    (offset : Z) (seenFilenames : list jsstring)
  : result EncodeError (list BlobPart) :=
  match files with
  | [] => Ok chunks
  | file :: rest =>
      let name := name file in
      if existsb (jsstring_eqb name) seenFilenames then Err (DuplicateFilename name)
      else
        let seenFilenames := name :: seenFilenames in
        let '(buffer, type) := resolve (data file) (type_value (type file)) in
        match buffer with
        | VArrayBuffer buffer =>
            let nameBuffer := TextEncoder_encode name in
            let chunks := chunks ++ [PartUint16Array (byteLength nameBuffer)] in
            let chunks := chunks ++ [PartString name] in
            let typeBuffer := encode_type type in
            let chunks := chunks ++ [PartUint16Array (byteLength typeBuffer)] in
            let chunks := chunks ++ [PartUint8Array typeBuffer] in
            let offset := offset + byteLength buffer in
            let chunks := chunks ++ [PartUint32Array (byteLength buffer)] in
            let chunks := chunks ++ [PartArrayBuffer buffer] in
            let hash := sha1 buffer in
            if negb (byteLength hash =? 20) then Err HashNot20Bytes
            else encodeFiles rest (chunks ++ [PartArrayBuffer hash]) offset seenFilenames
        | _ => Err (CouldNotConvert name)
        end
  end.

Definition encodeAssetBundle (files : list AssetBundleInput) : result EncodeError Blob :=
  match encodeFiles files [] 0 [] with
  | Ok chunks => Ok (new_Blob (PartUint8Array HEAD :: chunks) (js "application/asset-bundle"))
  | Err e => Err e
  end.

(** *** READING *)

Inductive DecodeError :=
| UnexpectedEndOfFile        (* "Unexpected end of file while reading AssetBundle" *)
| InvalidHeader              (* "Invalid AssetBundle header" *)
| HashMismatch (name : jsstring)   (* `Hash mismatch for ${name}` *)
| TypeError                  (* a property read on [undefined], or a call of a non-function *)
| RangeError.                (* a typed array built over a buffer of the wrong length *)

(** What [readBytes] returns: a [Blob] when [blobType] is truthy, the
    [ArrayBuffer] otherwise. *)
Inductive Data :=
| IsBlob (b : Blob)
| IsArrayBuffer (bytes : list byte).

Definition data_bytes (d : Data) : list byte :=
  match d with
  | IsBlob b => blob_bytes b
  | IsArrayBuffer b => b
  end.

Record AssetBundleOutput := mkOutput { out_name : jsstring; out_data : Data }.

(** The byte source: the chunks [reader.read()] will deliver, in order. *)
Definition ByteSource := list (list byte).

(** The variables the closures of [decodeAssetBundleStream] share. *)
Record DecoderState := mkState
  { chunks : list (list byte);
    chunk : Z;
    cursor : Z;
    reader : ByteSource;
    running : bool }.

(** A step of the decoder returns a value and the new state, or throws;
    [OutOfFuel] is for a loop of the embedding whose turns ran out (no
    step ends so: [readBytes_terminates], [consumes_readEntry]). *)
Inductive outcome (A : Type) :=
| Return (a : A) (st : DecoderState)
| Throw (e : DecodeError)
| OutOfFuel.
Arguments Return {A} a st.
Arguments Throw {A} e.
Arguments OutOfFuel {A}.

Definition M (A : Type) := DecoderState -> outcome A.

Definition ret {A : Type} (a : A) : M A := fun st => Return a st.

Definition throw {A : Type} (e : DecodeError) : M A := fun _ => Throw e.

Definition bind {A B : Type} (m : M A) (k : A -> M B) : M B :=
  fun st =>
    match m st with
    | Return a st' => k a st'
    | Throw e => Throw e
    | OutOfFuel => OutOfFuel
    end.

Notation "x <- m ;; k" := (bind m (fun x => k))
  (at level 61, m at next level, right associativity).
Notation "m ;;; k" := (bind m (fun _ => k))
  (at level 61, right associativity).

(** [a[i]]: [None] is [undefined]. *)
Definition index {A : Type} (a : list A) (i : Z) : option A :=
  if i <? 0 then None else nth_error a (Z.to_nat i).

(** [xs.every((v, i) => ys[i] === v)]. *)
Fixpoint every_matches (xs ys : list byte) : bool :=
  match xs with
  | [] => true
  | v :: xs' =>
      match ys with
      | w :: ys' => Byte.eqb w v && every_matches xs' ys'
      | [] => false
      end
  end.

(** [blobType ? new Blob([arrayBuffer], { type: blobType }) : arrayBuffer];
    [None] is [false], and the empty string is falsy as well. *)
Definition deliver (blobType : option jsstring) (arrayBuffer : list byte) : Data :=
  match blobType with
  | Some (c :: t) => IsBlob (mkBlob arrayBuffer (Blob_type (c :: t)))
  | _ => IsArrayBuffer arrayBuffer
  end.

(** [while (bytes < n) { ... }] of [readBytes]. *)
Fixpoint readLoop (fuel : nat) (n bytes : Z) (st : DecoderState) : outcome unit :=
  if bytes <? n then
    match fuel with
    | O => OutOfFuel
    | S fuel' =>
        let fetched :=
          if byteLength (chunks st) <=? chunk st then
            match reader st with
            | [] => None
            | value :: rest =>
                Some (mkState (chunks st ++ [value]) (chunk st) (cursor st) rest (running st))
            end
          else Some st in
        match fetched with
        | None => Throw UnexpectedEndOfFile
        | Some st =>
            match index (chunks st) (chunk st) with
            | None => Throw TypeError
            | Some c =>
                let chunkBytes := byteLength c - cursor st in
                if n <? chunkBytes + bytes then
                  readLoop fuel' n n
                    (mkState (chunks st) (chunk st) (cursor st + (n - bytes))
                       (reader st) (running st))
                else
                  readLoop fuel' n (bytes + chunkBytes)
                    (mkState (chunks st) (chunk st + 1) 0 (reader st) (running st))
            end
        end
    end
  else Return tt st.

(** Each turn of the loop but the last moves to the next chunk, so this
    many turns are enough. *)
Definition readLoop_fuel (st : DecoderState) : nat :=
  S (S (length (chunks st) + length (reader st))).

Definition readBytes (n : Z) (blobType : option jsstring) : M Data :=
  fun st =>
    let startChunk := chunk st in
    let startCursor := cursor st in
    match readLoop (readLoop_fuel st) n 0 st with
    | Return _ st =>
        if startChunk =? chunk st then
          match index (chunks st) startChunk with
          | Some c => Return (deliver blobType (slice c startCursor (Some (cursor st)))) st
          | None => Throw TypeError
          end
        else if (startChunk =? chunk st - 1) && (cursor st =? 0) then
          match index (chunks st) startChunk with
          | Some c => Return (deliver blobType (slice c startCursor None)) st
          | None => Throw TypeError
          end
        else
          match index (chunks st) startChunk, index (chunks st) (chunk st) with
          | Some c0, Some c1 =>
              Return (deliver blobType
                        (slice c0 startCursor None
                         ++ concat (slice (chunks st) (startChunk + 1) (Some (chunk st)))
                         ++ slice c1 0 (Some (cursor st)))) st
          | _, _ => Throw TypeError
          end
    | Throw e => Throw e
    | OutOfFuel => OutOfFuel
    end.

(** [await readBytes(n, false)]. *)
Definition readBuffer (n : Z) : M (list byte) :=
  d <- readBytes n None ;; ret (data_bytes d).

Definition maybeReadMore : M unit :=
  fun st =>
    if (cursor st =? 0) && (byteLength (chunks st) <=? chunk st) then
      match reader st with
      | [] => Return tt (mkState (chunks st) (chunk st) (cursor st) [] false)
      | value :: rest =>
          Return tt (mkState (chunks st ++ [value]) (chunk st + 1) 0 rest (running st))
      end
    else Return tt st.

(** [new Uint16Array(buffer)[0]], little-endian. A buffer of odd length
    is a RangeError. (The element of an empty array would be [undefined];
    that case is put with the RangeError.) *)
Definition Uint16Array_first (buffer : list byte) : M Z :=
  match buffer with
  | b0 :: b1 :: rest =>
      if Nat.even (length rest) then ret (byte_val b0 + 256 * byte_val b1)
      else throw RangeError
  | _ => throw RangeError
  end.

(** [new Uint32Array(buffer)[0]], in the same way. *)
Definition Uint32Array_first (buffer : list byte) : M Z :=
  match buffer with
  | b0 :: b1 :: b2 :: b3 :: rest =>
      if (Z.of_nat (length rest) mod 4 =? 0)
      then ret (byte_val b0 + 256 * byte_val b1 + 65536 * byte_val b2
                + 16777216 * byte_val b3)
      else throw RangeError
  | _ => throw RangeError
  end.

(** One turn of [while (running)] up to the [yield]. *)
Definition readEntry (verify : bool) : M AssetBundleOutput :=
  b <- readBuffer 2 ;;
  nameLength <- Uint16Array_first b ;;
  b <- readBuffer nameLength ;;
  let name := TextDecoder_decode b in
  b <- readBuffer 2 ;;
  typeLength <- Uint16Array_first b ;;
  type <- (if typeLength =? 0 then ret (js "application/octet-stream")
           else b <- readBuffer typeLength ;; ret (TextDecoder_decode b)) ;;
  b <- readBuffer 4 ;;
  size <- Uint32Array_first b ;;
  data <- readBytes size (Some type) ;;
  hash <- readBuffer 20 ;;
  (if verify then
     match data with
     | IsBlob blob =>
         if every_matches hash (sha1 (blob_bytes blob)) then ret tt
         else throw (HashMismatch name)
     | IsArrayBuffer _ => throw TypeError   (* data.arrayBuffer is not a function *)
     end
   else ret tt) ;;;
  ret (mkOutput name data).

(** How the generator ends: it returns, or it throws; [Diverged] is for an
    entry loop whose turns ran out (it never does:
    [decodeAssetBundleStream_terminates]). *)
Inductive Completion :=
| Done
| Thrown (e : DecodeError)
| Diverged.

(** [while (running) { ...; yield { name, data }; await maybeReadMore(); }]:
    the entries yielded, and how the generator ends. *)
Fixpoint entryLoop (fuel : nat) (verify : bool) (st : DecoderState)
  : list AssetBundleOutput * Completion :=
  if running st then
    match fuel with
    | O => ([], Diverged)
    | S fuel' =>
        match readEntry verify st with
        | Return file st =>
            match maybeReadMore st with
            | Return _ st =>
                let '(files, c) := entryLoop fuel' verify st in (file :: files, c)
            | Throw e => ([file], Thrown e)
            | OutOfFuel => ([file], Diverged)
            end
        | Throw e => ([], Thrown e)
        | OutOfFuel => ([], Diverged)
        end
    end
  else ([], Done).

Record DecodeOptions := mkOptions { verify : option bool }.

(** The default [options = {}]. *)
Definition no_options : DecodeOptions := mkOptions None.

(** [new Uint8Array(head, 0, 7)] and the comparison with [HEAD]. *)
Definition checkHead (head : list byte) : M unit :=
  if byteLength head <? 7 then throw RangeError
  else
    let headDV := firstn 7 head in
    if negb (every_matches HEAD headDV) then throw InvalidHeader else ret tt.

(** [decodeAssetBundleStream(input, options)] on the chunks the stream of
    [input] delivers. Every entry takes bytes from the source, so the
    entry loop runs at most once per byte. *)
Definition decodeAssetBundleStream (input : ByteSource) (options : DecodeOptions)
  : list AssetBundleOutput * Completion :=
  let verify := match verify options with
                | Some v => v
                | None => true
                end in
  match input with
  | [] => ([], Thrown UnexpectedEndOfFile)
  | value :: rest =>
      let st := mkState [value] 0 0 rest true in
      match (head <- readBuffer 7 ;; checkHead head) st with
      | Return _ st => entryLoop (S (length (concat input))) verify st
      | Throw e => ([], Thrown e)
      | OutOfFuel => ([], Diverged)
      end
  end.

(** [Map.prototype.set]: a present key keeps its place. *)
Fixpoint Map_set (m : list (jsstring * Data)) (k : jsstring) (v : Data)
  : list (jsstring * Data) :=
  match m with
  | [] => [(k, v)]
  | (k', v') :: m' =>
      if jsstring_eqb k k' then (k, v) :: m' else (k', v') :: Map_set m' k v
  end.

Inductive MapResult :=
| Resolved (map : list (jsstring * Data))
| Rejected (e : DecodeError)
| Unfinished.

Definition decodeAssetBundle (buffer : ByteSource) : MapResult :=
  let '(files, c) := decodeAssetBundleStream buffer no_options in
  match c with
  | Done => Resolved (fold_left (fun map file => Map_set map (out_name file) (out_data file)) files [])
  | Thrown e => Rejected e
  | Diverged => Unfinished
  end.

End AssetBundle.

Import AssetBundle.

(** ** The command line tool (abundle.ts) *)

Module Abundle.

(** *** Numbers as text *)








(** *** The process and what surrounds it *)

(** What the script does to the outside, in order. *)
Inductive Event :=
| console_log (line : jsstring)
| console_error (line : jsstring)
| writeFileSync (file : option jsstring) (data : list byte).
  (* [None] is the descriptor 1, the standard output *)

(** How the script ends. *)
Inductive Ending :=
| exit (code : Z)      (* process.exit(code) *)
| completed            (* the script runs to its end *)
| uncaught             (* an exception leaves the script *)
| unsettled.           (* a promise the script awaits never settles *)

(** The platform functions the script calls. The file system is read
    only where a path names a regular file or nothing. *)
Record Runtime := mkRuntime
  { path_resolve : jsstring -> jsstring;     (* path.resolve(x) *)
    path_dirname : jsstring -> jsstring;     (* path.dirname(x) *)
    path_sep : Z;                            (* path.sep, one code unit *)
    file_content : jsstring -> option (list byte);
      (* the bytes of the regular file at a path; [None]: fs.existsSync is false *)
    Blob_stream : list byte -> ByteSource;
      (* the chunks of new Blob([buffer]).stream() *)
    BunFile_stream : list byte -> ByteSource }.
      (* the chunks of Bun.file(path).stream(), for the content of the file *)

Definition quoted (s : jsstring) : jsstring := [34] ++ s ++ [34].

(** [`File "${file}" does not exist.`] *)
Definition does_not_exist (file : jsstring) : jsstring :=
  js "File " ++ quoted file ++ js " does not exist.".

(** [`File "${file}" is not a valid asset bundle.`] *)
Definition not_valid (file : jsstring) : jsstring :=
  js "File " ++ quoted file ++ js " is not a valid asset bundle.".

(** [process.argv.slice(2).filter((arg) => !arg.startsWith("-"))] *)
Definition args (argv : list jsstring) : list jsstring :=
  filter (fun arg => match arg with
                     | c :: _ => negb (c =? 45)
                     | [] => true
                     end)
         (skipn 2 argv).

(** The branch [operation === "verify"]. *)
Definition operation_verify (rt : Runtime) (args : list jsstring)
  : list Event * Ending :=
  match nth_error args 1 with
  | None => ([], uncaught)    (* path.resolve(undefined) throws *)
  | Some arg =>
      let file := path_resolve rt arg in
      match file_content rt file with
      | None => ([console_error (does_not_exist file)], exit 1)
      | Some buffer =>
          match decodeAssetBundle (Blob_stream rt buffer) with
          | Resolved _ => ([console_log (js "Valid asset bundle")], completed)
          | Rejected _ =>
              ([console_error (not_valid file); console_log (js "Valid asset bundle")],
               completed)
          | Unfinished => ([], unsettled)
          end
      end
  end.



(** The branch [operation === "ls"]. *)
Definition operation_ls (rt : Runtime) (args : list jsstring)
  : list Event * Ending :=
  match nth_error args 1 with
  | None => ([], uncaught)
  | Some arg =>
      let file := path_resolve rt arg in
      match file_content rt file with
      | None => ([console_error (does_not_exist file)], exit 1)
      | Some content =>
          let '(entries, c) :=
            decodeAssetBundleStream (BunFile_stream rt content) no_options in
          (map (fun entry => console_log (out_name entry)) entries
           ++ match c with
              | Thrown _ => [console_error (not_valid file)]
              | _ => []
              end,
           match c with
           | Diverged => unsettled
           | _ => completed
           end)
      end
  end.

(** *** The common root of the inputs of [pack] *)

(** [s.split(sep)] for a separator of one code unit. *)
Fixpoint String_split (sep : Z) (s : jsstring) : list jsstring :=
  match s with
  | [] => [[]]
  | c :: s' =>
      if c =? sep then [] :: String_split sep s'
      else match String_split sep s' with
           | part :: parts => (c :: part) :: parts
           | [] => [[c]]
           end
  end.

(** [parts.join(sep)]. *)
Fixpoint Array_join (sep : Z) (parts : list jsstring) : jsstring :=
  match parts with
  | [] => []
  | [part] => part
  | part :: parts' => part ++ sep :: Array_join sep parts'
  end.

(** [accParts.slice(0, i)] for the [i] that
    [while (i < min && accParts[i] === dirParts[i]) i++] ends with. *)
Fixpoint common (accParts dirParts : list jsstring) : list jsstring :=
  match accParts, dirParts with
  | a :: accParts', d :: dirParts' =>
      if jsstring_eqb a d then a :: common accParts' dirParts' else []
  | _, _ => []
  end.

(** [resolvedInputs.reduce((acc, file) => ..., null)]; [None] is
    [null]. *)
Definition root (rt : Runtime) (resolvedInputs : list jsstring) : option jsstring :=
  fold_left
    (fun acc file =>
       let dir := path_dirname rt file in
       match acc with
       | None => Some dir
       | Some acc =>
           Some (Array_join (path_sep rt)
                   (common (String_split (path_sep rt) acc)
                           (String_split (path_sep rt) dir)))
       end)
    resolvedInputs None.

End Abundle.
Import Abundle.

(** ** The archive layout (README, "File Format") *)

(** One stored entry: the four fields as they lie in the archive. *)
Record Entry := mkEntry
  { e_name : list byte;
    e_type : list byte;
    e_payload : list byte;
    e_digest : list byte }.

Definition entry_bytes (e : Entry) : list byte :=
  Uint16Array_bytes (byteLength (e_name e)) ++ e_name e
  ++ Uint16Array_bytes (byteLength (e_type e)) ++ e_type e
  ++ Uint32Array_bytes (byteLength (e_payload e)) ++ e_payload e
  ++ e_digest e.

Definition archive_bytes (es : list Entry) : list byte :=
  HEAD ++ flat_map entry_bytes es.

(** The lengths fit their prefixes and the digest has 20 bytes. *)
Definition well_formed (e : Entry) : Prop :=
  byteLength (e_name e) < 65536
  /\ byteLength (e_type e) < 65536
  /\ byteLength (e_payload e) < 4294967296
  /\ byteLength (e_digest e) = 20.

(** The decoder in the state it has after [pos] bytes of a first chunk
    [archive], with [src] still to come from the source. *)
Definition at_offset (archive : list byte) (src : ByteSource) (pos : Z) : DecoderState :=
  if pos <? byteLength archive then mkState [archive] 0 pos src true
  else mkState [archive] 1 0 src true.

(** The media type the decoder settles on for a stored type field. *)
Definition resolved_type (e : Entry) : jsstring :=
  if byteLength (e_type e) =? 0 then js "application/octet-stream"
  else TextDecoder_decode (e_type e).

(** What the decoder yields for a stored entry. *)
Definition entry_output (e : Entry) : AssetBundleOutput :=
  mkOutput (TextDecoder_decode (e_name e))
           (deliver (Some (resolved_type e)) (e_payload e)).

(** The error the digest check of a stored entry raises, if any. *)
Definition entry_check (verify : bool) (e : Entry) : option DecodeError :=
  if verify then
    match deliver (Some (resolved_type e)) (e_payload e) with
    | IsBlob _ =>
        if every_matches (e_digest e) (sha1 (e_payload e)) then None
        else Some (HashMismatch (TextDecoder_decode (e_name e)))
    | IsArrayBuffer _ => Some TypeError
    end
  else None.

(** The entries of a list of stored entries up to the first one whose
    check fails. *)
Fixpoint decoded (verify : bool) (es : list Entry)
  : list AssetBundleOutput * Completion :=
  match es with
  | [] => ([], Done)
  | e :: es' =>
      match entry_check verify e with
      | Some err => ([], Thrown err)
      | None => let '(files, c) := decoded verify es' in (entry_output e :: files, c)
      end
  end.

Definition verify_of (options : DecodeOptions) : bool :=
  match verify options with
  | Some v => v
  | None => true
  end.

(** The stored entry an input file is written as, when its payload
    resolves to an [ArrayBuffer]. *)
Definition stored (file : AssetBundleInput) : option Entry :=
  let '(buffer, type) := resolve (data file) (type_value (type file)) in
  match buffer with
  | VArrayBuffer b =>
      Some (mkEntry (TextEncoder_encode (name file)) (encode_type type) b (sha1 b))
  | _ => None
  end.

(** The entries written for a list of files, or the error that stops the
    loop; [seen] are the names met before. *)
Fixpoint written (files : list AssetBundleInput) (seen : list jsstring)
  : result EncodeError (list Entry) :=
  match files with
  | [] => Ok []
  | file :: rest =>
      if existsb (jsstring_eqb (name file)) seen then Err (DuplicateFilename (name file))
      else
        match stored file with
        | None => Err (CouldNotConvert (name file))
        | Some e =>
            match written rest (name file :: seen) with
            | Ok es => Ok (e :: es)
            | Err err => Err err
            end
        end
  end.



(** The media type of an input entry, an empty or omitted one read as the
    default. *)
Definition media_type (t : option jsstring) : jsstring :=
  match t with
  | None | Some [] => js "application/octet-stream"
  | Some t => t
  end.

(** The entry a file should come back as. *)
Definition round_trip_output (file : AssetBundleInput) : AssetBundleOutput :=
  mkOutput (name file) (IsBlob (mkBlob (source_bytes (data file)) (media_type (type file)))).








(** A byte source that delivers [bs] in chunks of [k] bytes, the last one
    shorter. *)
Fixpoint chunked (fuel : nat) (k : nat) (bs : list byte) : ByteSource :=
  match fuel, bs with
  | S fuel', _ :: _ => firstn k bs :: chunked fuel' k (skipn k bs)
  | _, _ => []
  end.

Definition in_chunks_of (k : nat) (bs : list byte) : ByteSource :=
  chunked (length bs) k bs.

(** The payload of a file does not resolve to an [ArrayBuffer]. *)
Definition unresolved (file : AssetBundleInput) : bool :=
  match stored file with
  | Some _ => false
  | None => true
  end.

(** A name or media type whose UTF-8 encoding is longer than 65535 bytes. *)
Definition oversized (file : AssetBundleInput) : Prop :=
  65535 < byteLength (TextEncoder_encode (name file))
  \/ 65535 < byteLength (encode_type (type_value (type file))).

(** The stored digest is not the SHA-1 of the stored payload. *)
Definition digest_mismatch (e : Entry) : Prop :=
  e_digest e <> sha1 (e_payload e).

(** [for await (const file of ...) map.set(file.name, file.data)]. *)
Definition collect (r : list AssetBundleOutput * Completion) : MapResult :=
  match r with
  | (files, Done) =>
      Resolved (fold_left (fun map file => Map_set map (out_name file) (out_data file))
                          files [])
  | (_, Thrown e) => Rejected e
  | (_, Diverged) => Unfinished
  end.

(** The cursor lies in the chunks read so far. *)
Definition cursor_ok (st : DecoderState) : Prop :=
  0 <= chunk st <= byteLength (chunks st)
  /\ 0 <= cursor st
  /\ (forall c, index (chunks st) (chunk st) = Some c -> cursor st <= byteLength c)
  /\ (chunk st = byteLength (chunks st) -> cursor st = 0).

(** The bytes not read yet: the rest of the chunks from the cursor on and
    what the source still holds. *)
Definition unread (st : DecoderState) : Z :=
  byteLength (concat (skipn (Z.to_nat (chunk st)) (chunks st))) - cursor st
  + byteLength (concat (reader st)).

(** A step of the decoder that comes to an end and, when it returns,
    has taken at least [k] bytes and left the cursor in the chunks. *)
Definition consumes {A : Type} (k : Z) (m : M A) : Prop :=
  forall st : DecoderState,
    cursor_ok st ->
    m st <> OutOfFuel
    /\ forall (a : A) (st' : DecoderState),
         m st = Return a st' ->
         cursor_ok st' /\ unread st' <= unread st - k /\ running st' = running st.

(** All the bytes of the source: those of the chunks read so far and
    those still to come. *)
Definition stream (st : DecoderState) : list byte :=
  concat (chunks st) ++ concat (reader st).

(** The offset of the cursor in [stream]. *)
Definition position (st : DecoderState) : Z :=
  byteLength (concat (firstn (Z.to_nat (chunk st)) (chunks st))) + cursor st.

(** ** What a caller sees of an archive *)

(** [map.get(k)]; [None] is [undefined]. *)
Fixpoint Map_get (m : list (jsstring * Data)) (k : jsstring) : option Data :=
  match m with
  | [] => None
  | (k', v) :: m' => if jsstring_eqb k k' then Some v else Map_get m' k
  end.

(** The data of the last of the yielded entries that has the name [k]. *)
Definition last_named (k : jsstring) (files : list AssetBundleOutput) : option Data :=
  option_map out_data (find (fun file => jsstring_eqb k (out_name file)) (rev files)).

(** The media type of a stored entry does not decode to the empty string,
    and its digest is the SHA-1 of its payload. *)
Definition verifies (e : Entry) : Prop :=
  resolved_type e <> [] /\ e_digest e = sha1 (e_payload e).

(** The entry yielded for a stored entry whose media type is not empty:
    the payload as a [Blob] made with that type, which the [Blob] has in
    lower case, or not at all if it holds a character outside
    U+0020..U+007E. *)
Definition entry_blob (e : Entry) : AssetBundleOutput :=
  mkOutput (TextDecoder_decode (e_name e))
           (IsBlob (mkBlob (e_payload e) (Blob_type (resolved_type e)))).

(** The bytes an entry with a digest of 20 bytes takes in the archive:
    two length prefixes of 2 bytes, one of 4, the digest, and the fields. *)
Definition entry_size (e : Entry) : Z :=
  28 + byteLength (e_name e) + byteLength (e_type e) + byteLength (e_payload e).

Definition total (l : list Z) : Z := fold_right Z.add 0 l.

(** A payload the encoder turns into an [ArrayBuffer]: a string, a
    [Uint8Array] over an [ArrayBuffer], an [ArrayBuffer], or a [Blob] given
    without a media type. *)
Definition convertible (file : AssetBundleInput) : Prop :=
  match data file with
  | DataString _ | DataUint8Array _ _ _ | DataArrayBuffer _ => True
  | DataSharedUint8Array _ _ _ | DataSharedArrayBuffer _ => False
  | DataBlob _ => type file = None
  end.

(** A payload it does not: a [SharedArrayBuffer], a [Uint8Array] over one,
    or a [Blob] given with a media type. *)
Definition unconvertible (file : AssetBundleInput) : Prop :=
  match data file with
  | DataString _ | DataUint8Array _ _ _ | DataArrayBuffer _ => False
  | DataSharedUint8Array _ _ _ | DataSharedArrayBuffer _ => True
  | DataBlob _ => type file <> None
  end.

(** The ways [decodeAssetBundleStream] ends: by [return], with one of the
    three errors it throws by name ("Hash mismatch" only when it
    verifies), or with a TypeError. *)
Definition expected_end (verify : bool) (c : Completion) : Prop :=
  match c with
  | Done => True
  | Thrown UnexpectedEndOfFile => True
  | Thrown InvalidHeader => True
  | Thrown (HashMismatch _) => verify = true
  | Thrown TypeError => True
  | Thrown RangeError => False
  | Diverged => False
  end.

(** The throws of one turn of the entry loop. *)
Definition entry_error (verify : bool) (e : DecodeError) : Prop :=
  match e with
  | UnexpectedEndOfFile | TypeError => True
  | HashMismatch _ => verify = true
  | InvalidHeader | RangeError => False
  end.

(** ** Sources in chunks *)

(** The offsets in the source at which its chunks end. *)
Definition boundaries (cs : ByteSource) : list Z :=
  map (fun j => byteLength (concat (firstn j cs))) (seq 1 (length cs)).

(** The offsets at which the reads of the entries end, for entries that
    start at offset [p]: behind each length prefix and behind each
    field. *)
Fixpoint field_ends (p : Z) (es : list Entry) : list Z :=
  match es with
  | [] => []
  | e :: es' =>
      let n := byteLength (e_name e) in
      let t := byteLength (e_type e) in
      let s := byteLength (e_payload e) in
      [p + 2; p + 2 + n; p + 4 + n; p + 4 + n + t; p + 8 + n + t;
       p + 8 + n + t + s; p + 8 + n + t + s + byteLength (e_digest e)]
      ++ field_ends (p + byteLength (entry_bytes e)) es'
  end.

(** A source that delivers the archive of [es] in chunks, none of them
    empty, that end inside a field: no chunk but the last ends where a
    read ends (behind the header, a length prefix or a field), and none
    ends inside the last digest. *)
Definition cut_inside_fields (es : list Entry) (cs : ByteSource) : Prop :=
  concat cs = archive_bytes es
  /\ Forall (fun c => c <> []) cs
  /\ forall b, In b (boundaries cs) -> b <> byteLength (archive_bytes es) ->
       b <> 7 /\ ~ In b (field_ends 7 es) /\ b < byteLength (archive_bytes es) - 20.

(** The decoder has fetched the chunks of [cs] up to the one the cursor
    is in. *)
Definition reading (cs : ByteSource) (st : DecoderState) : Prop :=
  chunks st ++ reader st = cs
  /\ byteLength (chunks st) = chunk st + 1
  /\ (exists c, index (chunks st) (chunk st) = Some c /\ 0 <= cursor st < byteLength c)
  /\ running st = true.

(** The chunks fetched are the first of [cs], at most the one under the
    cursor and never one ahead, and the cursor is before the end of its
    chunk. *)
Definition fetched (cs : ByteSource) (st : DecoderState) : Prop :=
  chunks st ++ reader st = cs
  /\ byteLength (chunks st) <= chunk st + 1
  /\ (forall c, index (chunks st) (chunk st) = Some c -> cursor st < byteLength c).

(** The state behind the last byte of [cs]. *)
Definition finished (cs : ByteSource) : DecoderState :=
  mkState cs (byteLength cs) 0 [] true.

(** ** The command line tool: what its texts and paths stand for *)




(** [a] is the beginning of [b]. *)
Definition begins {A : Type} (a b : list A) : Prop := exists c, b = a ++ c.

(** ** What a yielded entry has of the source *)

(** The data of a yielded entry stands in the source, with 20 bytes
    behind it; when the decoder verifies, the data is a [Blob] and the 20
    bytes are its SHA-1. *)
Definition carried (source : list byte) (verify : bool) (file : AssetBundleOutput) : Prop :=
  exists before digest after,
    source = before ++ data_bytes (out_data file) ++ digest ++ after
    /\ byteLength digest = 20
    /\ (verify = true ->
        (exists blob, out_data file = IsBlob blob)
        /\ digest = sha1 (data_bytes (out_data file))).

(** ** Texts that an archive holds *)





(** ** Concrete inputs *)

(** The two files of AssetBundle.test.ts. *)
Definition test_files : list AssetBundleInput :=
  [ mkInput (js "test.txt") None (DataString (js "hello world"));
    mkInput (js "good-morning.txt") None (DataString (js "good morning")) ].

(** The bytes of the archive [encodeAssetBundle] makes of a list of files
    (none if it throws). *)
Definition encoded (files : list AssetBundleInput) : list byte :=
  match encodeAssetBundle files with
  | Ok archive => blob_bytes archive
  | Err _ => []
  end.

Definition test_archive : list byte := encoded test_files.



(** A name of 65536 letters "a". *)
Definition long_name : jsstring := repeat 97 (Z.to_nat 65536).

Definition long_name_files : list AssetBundleInput :=
  [ mkInput long_name None (DataString (js "x")) ].

(** A header with a wrong first letter, delivered as 3 bytes and then 4. *)
Definition split_bad_header : ByteSource :=
  [ [Byte.x58; Byte.x55; Byte.x4e]; [Byte.x44; Byte.x4c; Byte.x45; Byte.x31] ].

(** The bytes 2 and 3 of a four-byte buffer, as [new Uint8Array(buffer, 1, 2)]. *)
Definition view_file : AssetBundleInput :=
  mkInput (js "a") None
    (DataUint8Array [Byte.x01; Byte.x02; Byte.x03; Byte.x04] 1 2).

(** A file given as a [Blob], no media type supplied. *)
Definition blob_file : AssetBundleInput :=
  mkInput (js "a") None (DataBlob [Byte.x78]).

(** A file with an empty payload. *)
Definition empty_file : AssetBundleInput :=
  mkInput (js "a") None (DataString []).

(** A payload that does not resolve, followed by a repeated name. *)
Definition unresolved_then_duplicate : list AssetBundleInput :=
  [ mkInput (js "a") None (DataSharedArrayBuffer [Byte.x78]);
    mkInput (js "b") None (DataString (js "x"));
    mkInput (js "b") None (DataString (js "y")) ].

(** The spec's own example of a repeated name. *)
Definition duplicate_files : list AssetBundleInput :=
  [ mkInput (js "a") None (DataString (js "x"));
    mkInput (js "a") None (DataString (js "y")) ].

(** A stored entry whose digest is not that of its payload. *)
Definition bad_digest_entry : Entry :=
  mkEntry (TextEncoder_encode (js "a")) [] [Byte.x78] (repeat Byte.x00 20).

(** The two files of AssetBundle.test.ts as they are stored. *)
Definition hello_entry : Entry :=
  mkEntry (TextEncoder_encode (js "test.txt")) []
          (TextEncoder_encode (js "hello world"))
          (sha1 (TextEncoder_encode (js "hello world"))).

Definition morning_entry : Entry :=
  mkEntry (TextEncoder_encode (js "good-morning.txt")) []
          (TextEncoder_encode (js "good morning"))
          (sha1 (TextEncoder_encode (js "good morning"))).


(** A second entry under the name of the first. *)
Definition twice_entry : Entry :=
  mkEntry (TextEncoder_encode (js "test.txt")) []
          (TextEncoder_encode (js "good morning"))
          (sha1 (TextEncoder_encode (js "good morning"))).

(** A stored entry whose media type is a lone byte order mark. *)
Definition bom_entry : Entry :=
  mkEntry (TextEncoder_encode (js "a")) [Byte.xef; Byte.xbb; Byte.xbf]
          [Byte.x78] (sha1 [Byte.x78]).

(** A [Blob] without a media type, and a view with one. *)
Definition mixed_files : list AssetBundleInput :=
  [ mkInput (js "blob") None (DataBlob [Byte.x78]);
    mkInput (js "view") (Some (js "text/plain"))
      (DataUint8Array [Byte.x01; Byte.x02; Byte.x03; Byte.x04] 1 2) ].

(** A [Blob] given with a media type, between two files of one name. *)
Definition blob_with_type : AssetBundleInput :=
  mkInput (js "b") (Some (js "text/plain")) (DataBlob [Byte.x78]).

(** A source that delivers [bs] in pieces of the given sizes, and then
    what is left. *)
Fixpoint pieces (sizes : list nat) (bs : list byte) : ByteSource :=
  match sizes with
  | [] => [bs]
  | k :: sizes' => firstn k bs :: pieces sizes' (skipn k bs)
  end.

(** A runtime in which paths stand for themselves, the file "bundle"
    holds [content], a [Blob] streams as one chunk, and a file streams in
    pieces of the given sizes. *)
Definition runtime_with (content : list byte) (sizes : list nat) : Runtime :=
  mkRuntime (fun x => x) (fun x => x) 47
            (fun path => if jsstring_eqb path (js "bundle") then Some content else None)
            (fun buffer => [buffer]) (pieces sizes).


(** ** Bytes and typed arrays *)

Lemma byte_val_range (b : byte) : 0 <= byte_val b < 256.
Proof.
  unfold byte_val. pose proof (Byte.to_N_bounded b). lia.
Qed.

Lemma byte_val_of (z : Z) : byte_val (byte_of z) = z mod 256.
Proof.
  unfold byte_val, byte_of.
  assert (Hr : 0 <= z mod 256 < 256) by (apply Z.mod_pos_bound; lia).
  destruct (Byte.of_N (Z.to_N (z mod 256))) as [b|] eqn:E.
  - apply Byte.to_of_N in E. rewrite E. lia.
  - apply Byte.of_N_None_iff in E. lia.
Qed.

Lemma byte_of_val (b : byte) : byte_of (byte_val b) = b.
Proof.
  unfold byte_of, byte_val. pose proof (Byte.to_N_bounded b).
  rewrite Z.mod_small by lia. rewrite N2Z.id, Byte.of_to_N. reflexivity.
Qed.

Lemma byteLength_nonneg {A : Type} (l : list A) : 0 <= byteLength l.
Proof. unfold byteLength. lia. Qed.

Lemma byteLength_app {A : Type} (l1 l2 : list A) :
  byteLength (l1 ++ l2) = byteLength l1 + byteLength l2.
Proof. unfold byteLength. rewrite length_app. lia. Qed.

Lemma byteLength_nil_iff {A : Type} (l : list A) : byteLength l = 0 <-> l = [].
Proof.
  unfold byteLength. destruct l; simpl; split; intros H; try reflexivity;
    try discriminate; lia.
Qed.

Lemma byteLength_pos {A : Type} (l : list A) : l <> [] -> 0 < byteLength l.
Proof.
  intros H. pose proof (byteLength_nonneg l).
  destruct (Z.eq_dec (byteLength l) 0) as [E|E]; [|lia].
  apply byteLength_nil_iff in E. contradiction.
Qed.

Lemma Uint16Array_first_bytes (v : Z) (st : DecoderState) :
  Uint16Array_first (Uint16Array_bytes v) st = Return (v mod 65536) st.
Proof.
  unfold Uint16Array_first, Uint16Array_bytes. cbv zeta.
  cbn [List.length Nat.even]. unfold ret.
  rewrite !byte_val_of. f_equal.
  pose proof (Z.mod_pos_bound v 65536 ltac:(lia)) as Hr.
  set (w := v mod 65536) in *.
  rewrite (Z.mod_small (w / 256)) by (split; [apply Z.div_pos; lia | apply Z.div_lt_upper_bound; lia]).
  pose proof (Z.div_mod w 256 ltac:(lia)). lia.
Qed.

Lemma Uint32Array_first_bytes (v : Z) (st : DecoderState) :
  Uint32Array_first (Uint32Array_bytes v) st = Return (v mod 4294967296) st.
Proof.
  unfold Uint32Array_first, Uint32Array_bytes. cbv zeta.
  change (Z.of_nat (length (@nil byte)) mod 4 =? 0) with true. cbv iota. unfold ret.
  rewrite !byte_val_of. f_equal.
  pose proof (Z.mod_pos_bound v 4294967296 ltac:(lia)) as Hr.
  set (w := v mod 4294967296) in *.
  pose proof (Z.div_mod w 256 ltac:(lia)) as H0.
  pose proof (Z.div_mod (w / 256) 256 ltac:(lia)) as H1.
  pose proof (Z.div_mod (w / 65536) 256 ltac:(lia)) as H2.
  pose proof (Z.mod_pos_bound w 256 ltac:(lia)).
  pose proof (Z.mod_pos_bound (w / 256) 256 ltac:(lia)).
  pose proof (Z.mod_pos_bound (w / 65536) 256 ltac:(lia)).
  assert (E1 : w / 65536 = w / 256 / 256) by (rewrite Z.div_div by lia; reflexivity).
  assert (E2 : w / 16777216 = w / 65536 / 256) by (rewrite Z.div_div by lia; reflexivity).
  assert (0 <= w / 16777216 < 256)
    by (split; [apply Z.div_pos; lia | apply Z.div_lt_upper_bound; lia]).
  rewrite (Z.mod_small (w / 16777216)) by lia.
  lia.
Qed.

Lemma Uint16Array_bytes_length (v : Z) : byteLength (Uint16Array_bytes v) = 2.
Proof. reflexivity. Qed.

Lemma Uint32Array_bytes_length (v : Z) : byteLength (Uint32Array_bytes v) = 4.
Proof. reflexivity. Qed.

Lemma sha1_length (msg : list byte) : byteLength (sha1 msg) = 20.
Proof.
  unfold sha1.
  destruct (sha1_blocks _ _ _) as [[[[h0 h1] h2] h3] h4]. reflexivity.
Qed.

Lemma every_matches_refl (xs : list byte) : every_matches xs xs = true.
Proof.
  induction xs as [|x xs IH]; simpl; [reflexivity|].
  rewrite (Byte.byte_dec_lb (eq_refl x)), IH. reflexivity.
Qed.

Lemma every_matches_eq (xs ys : list byte) :
  length xs = length ys -> every_matches xs ys = true -> xs = ys.
Proof.
  revert ys. induction xs as [|x xs IH]; intros [|y ys] Hl H; simpl in *;
    try reflexivity; try discriminate.
  apply andb_prop in H. destruct H as [H1 H2].
  apply Byte.byte_dec_bl in H1. subst y. f_equal. apply IH; [lia | assumption].
Qed.

(** ** Reading from an archive that arrived as one chunk *)

Lemma skipn_suffix_length (archive s : list byte) (pos : Z) :
  0 <= pos -> skipn (Z.to_nat pos) archive = s -> s <> [] ->
  byteLength archive = pos + byteLength s.
Proof.
  intros Hp Hs Hne. unfold byteLength.
  assert (Hl : length s = (length archive - Z.to_nat pos)%nat)
    by (rewrite <- Hs; apply length_skipn).
  destruct s as [|b s]; [contradiction|]. simpl in Hl. simpl length. lia.
Qed.

Lemma skipn_advance (archive mid rest : list byte) (pos : Z) :
  0 <= pos -> skipn (Z.to_nat pos) archive = mid ++ rest ->
  skipn (Z.to_nat (pos + byteLength mid)) archive = rest.
Proof.
  intros Hp Hs. unfold byteLength.
  replace (Z.to_nat (pos + Z.of_nat (length mid)))
    with (length mid + Z.to_nat pos)%nat by lia.
  rewrite <- skipn_skipn, Hs, skipn_app, skipn_all, Nat.sub_diag. reflexivity.
Qed.

Lemma slice_within (archive mid rest : list byte) (pos : Z) :
  0 <= pos -> skipn (Z.to_nat pos) archive = mid ++ rest ->
  slice archive pos (Some (pos + byteLength mid)) = mid.
Proof.
  intros Hp Hs. unfold slice, relativeIndex.
  pose proof (byteLength_nonneg mid) as Hm.
  destruct (list_eq_dec Byte.byte_eq_dec (mid ++ rest) []) as [E|E].
  - apply app_eq_nil in E. destruct E as [-> ->].
    assert (H : length (skipn (Z.to_nat pos) archive) = 0%nat) by (rewrite Hs; reflexivity).
    rewrite length_skipn in H.
    unfold byteLength. simpl length. change (Z.of_nat 0) with 0. rewrite Z.add_0_r.
    destruct (pos <? 0) eqn:E1; [apply Z.ltb_lt in E1; lia|].
    rewrite !Z.min_r by lia. rewrite Z.sub_diag. reflexivity.
  - pose proof (skipn_suffix_length archive _ pos Hp Hs E) as Hlen.
    rewrite byteLength_app in Hlen. pose proof (byteLength_nonneg rest) as Hr.
    destruct (pos <? 0) eqn:E1; [apply Z.ltb_lt in E1; lia|].
    destruct (pos + byteLength mid <? 0) eqn:E2; [apply Z.ltb_lt in E2; lia|].
    rewrite (Z.min_l pos) by lia. rewrite (Z.min_l (pos + byteLength mid)) by lia.
    rewrite Hs. replace (Z.to_nat (pos + byteLength mid - pos)) with (length mid)
      by (unfold byteLength; lia).
    rewrite firstn_app, firstn_all, Nat.sub_diag. simpl. apply app_nil_r.
Qed.

Lemma slice_to_end (archive mid : list byte) (pos : Z) :
  0 <= pos -> skipn (Z.to_nat pos) archive = mid -> mid <> [] ->
  slice archive pos None = mid.
Proof.
  intros Hp Hs Hne. unfold slice, relativeIndex.
  pose proof (skipn_suffix_length archive _ pos Hp Hs Hne) as Hlen.
  pose proof (byteLength_nonneg mid) as Hm.
  destruct (pos <? 0) eqn:E1; [apply Z.ltb_lt in E1; lia|].
  rewrite Z.min_l by lia. rewrite Hs. apply firstn_all2. unfold byteLength in *. lia.
Qed.

Lemma readLoop_done (fuel : nat) (n bytes : Z) (st : DecoderState) :
  n <= bytes -> readLoop fuel n bytes st = Return tt st.
Proof.
  intros H. destruct fuel; simpl; destruct (bytes <? n) eqn:E;
    try reflexivity; apply Z.ltb_lt in E; lia.
Qed.

Lemma readLoop_turn (fuel : nat) (n bytes : Z) (st : DecoderState) (c : list byte) :
  bytes < n -> chunk st < byteLength (chunks st) ->
  index (chunks st) (chunk st) = Some c ->
  readLoop (S fuel) n bytes st =
    if n <? byteLength c - cursor st + bytes then
      readLoop fuel n n
        (mkState (chunks st) (chunk st) (cursor st + (n - bytes)) (reader st) (running st))
    else
      readLoop fuel n (bytes + (byteLength c - cursor st))
        (mkState (chunks st) (chunk st + 1) 0 (reader st) (running st)).
Proof.
  intros Hb Hc Hi. simpl.
  apply Z.ltb_lt in Hb. rewrite Hb.
  destruct (byteLength (chunks st) <=? chunk st) eqn:E; [apply Z.leb_le in E; lia|].
  rewrite Hi. reflexivity.
Qed.

Lemma readLoop_end_of_input (fuel : nat) (n bytes : Z) (st : DecoderState) :
  bytes < n -> byteLength (chunks st) <= chunk st -> reader st = [] ->
  readLoop (S fuel) n bytes st = Throw UnexpectedEndOfFile.
Proof.
  intros Hb Hc Hr. simpl.
  apply Z.ltb_lt in Hb. rewrite Hb.
  apply Z.leb_le in Hc. rewrite Hc, Hr. reflexivity.
Qed.

Lemma at_offset_inside (archive : list byte) (src : ByteSource) (pos : Z) :
  pos < byteLength archive -> at_offset archive src pos = mkState [archive] 0 pos src true.
Proof.
  intros H. unfold at_offset. apply Z.ltb_lt in H. rewrite H. reflexivity.
Qed.

Lemma at_offset_end (archive : list byte) (src : ByteSource) (pos : Z) :
  byteLength archive <= pos -> at_offset archive src pos = mkState [archive] 1 0 src true.
Proof.
  intros H. unfold at_offset.
  destruct (pos <? byteLength archive) eqn:E; [apply Z.ltb_lt in E; lia | reflexivity].
Qed.

(** A field that lies in the archive is read whole, and the cursor moves
    past it; a field of length zero needs a byte after it. *)
Lemma readBytes_within (archive mid rest : list byte) (src : ByteSource) (pos : Z)
    (blobType : option jsstring) :
  0 <= pos -> skipn (Z.to_nat pos) archive = mid ++ rest ->
  mid <> [] \/ rest <> [] ->
  readBytes (byteLength mid) blobType (at_offset archive src pos)
  = Return (deliver blobType mid) (at_offset archive src (pos + byteLength mid)).
Proof.
  intros Hp Hs Hne.
  assert (Hne' : mid ++ rest <> [])
    by (intros E; apply app_eq_nil in E; destruct E; destruct Hne; contradiction).
  pose proof (skipn_suffix_length archive _ pos Hp Hs Hne') as Hlen.
  pose proof (byteLength_pos _ Hne') as Hpos.
  rewrite byteLength_app in Hlen, Hpos.
  pose proof (byteLength_nonneg mid) as Hm. pose proof (byteLength_nonneg rest) as Hr.
  rewrite (at_offset_inside archive src pos) by lia.
  unfold readBytes, readLoop_fuel. cbn [chunks chunk cursor reader running].
  destruct (Z.eq_dec (byteLength mid) 0) as [Hz|Hz].
  - (* nothing to read *)
    rewrite readLoop_done by lia. cbn [chunks chunk cursor reader running].
    rewrite Z.eqb_refl. cbn [index Z.ltb Z.compare Z.to_nat nth_error].
    replace (Some pos) with (Some (pos + byteLength mid))
      by (rewrite Hz, Z.add_0_r; reflexivity).
    rewrite (slice_within archive mid rest pos Hp Hs).
    rewrite Hz, Z.add_0_r. rewrite at_offset_inside by lia. reflexivity.
  - rewrite (readLoop_turn _ _ _ _ archive); cbn [chunks chunk cursor reader running];
      [| lia | reflexivity | reflexivity].
    destruct (byteLength mid <? byteLength archive - pos + 0) eqn:E.
    + (* the field ends inside the chunk *)
      apply Z.ltb_lt in E. rewrite readLoop_done by lia.
      cbn [chunks chunk cursor reader running].
      rewrite Z.eqb_refl. cbn [index Z.ltb Z.compare Z.to_nat nth_error].
      rewrite Z.sub_0_r.
      rewrite (slice_within archive mid rest pos Hp Hs).
      rewrite at_offset_inside by lia. reflexivity.
    + (* the field ends with the chunk *)
      apply Z.ltb_ge in E. rewrite readLoop_done by lia.
      cbn [chunks chunk cursor reader running].
      change (0 =? 0 + 1) with false. change ((0 =? 0 + 1 - 1) && (0 =? 0)) with true.
      cbv iota. cbn [index Z.ltb Z.compare Z.to_nat nth_error].
      assert (rest = []) by (apply byteLength_nil_iff; lia). subst rest.
      rewrite app_nil_r in Hs.
      rewrite (slice_to_end archive mid pos Hp Hs)
        by (intros ->; apply Hz; reflexivity).
      rewrite at_offset_end by lia. reflexivity.
Qed.

(** Asking for more bytes than the archive still holds ends the read with
    "Unexpected end of file". *)
Lemma readBytes_past_end (archive : list byte) (pos n : Z)
    (blobType : option jsstring) :
  0 <= pos -> byteLength archive - pos < n -> 0 < n ->
  readBytes n blobType (at_offset archive [] pos) = Throw UnexpectedEndOfFile.
Proof.
  intros Hp Hn Hn0. unfold readBytes, readLoop_fuel.
  destruct (Z.lt_ge_cases pos (byteLength archive)) as [Hin|Hout].
  - rewrite at_offset_inside by assumption. cbn [chunks chunk cursor reader running].
    rewrite (readLoop_turn _ _ _ _ archive); cbn [chunks chunk cursor reader running];
      [| lia | reflexivity | reflexivity].
    destruct (n <? byteLength archive - pos + 0) eqn:E; [apply Z.ltb_lt in E; lia|].
    rewrite readLoop_end_of_input; cbn [chunks chunk cursor reader running];
      [reflexivity | lia | unfold byteLength; simpl; lia | reflexivity].
  - rewrite at_offset_end by assumption. cbn [chunks chunk cursor reader running].
    rewrite readLoop_end_of_input; cbn [chunks chunk cursor reader running];
      [reflexivity | lia | unfold byteLength; simpl; lia | reflexivity].
Qed.

(** A read of length zero once the chunk is used up looks at a chunk that
    is not there. *)
Lemma readBytes_zero_at_end (archive : list byte) (src : ByteSource) (pos : Z)
    (blobType : option jsstring) :
  byteLength archive <= pos ->
  readBytes 0 blobType (at_offset archive src pos) = Throw TypeError.
Proof.
  intros H. rewrite at_offset_end by assumption. reflexivity.
Qed.

Lemma readBuffer_within (archive mid rest : list byte) (src : ByteSource) (pos : Z) :
  0 <= pos -> skipn (Z.to_nat pos) archive = mid ++ rest ->
  mid <> [] \/ rest <> [] ->
  readBuffer (byteLength mid) (at_offset archive src pos)
  = Return mid (at_offset archive src (pos + byteLength mid)).
Proof.
  intros Hp Hs Hne. unfold readBuffer, bind.
  rewrite (readBytes_within archive mid rest src pos None Hp Hs Hne). reflexivity.
Qed.

Lemma bind_Return {A B : Type} (m : M A) (k : A -> M B) (st st' : DecoderState) (a : A) :
  m st = Return a st' -> bind m k st = k a st'.
Proof. intros H. unfold bind. rewrite H. reflexivity. Qed.

Lemma bind_Throw {A B : Type} (m : M A) (k : A -> M B) (st : DecoderState) (e : DecodeError) :
  m st = Throw e -> bind m k st = Throw e.
Proof. intros H. unfold bind. rewrite H. reflexivity. Qed.

Lemma entry_bytes_length (e : Entry) :
  byteLength (entry_bytes e)
  = 2 + byteLength (e_name e) + 2 + byteLength (e_type e)
    + 4 + byteLength (e_payload e) + byteLength (e_digest e).
Proof.
  unfold entry_bytes. rewrite !byteLength_app.
  rewrite !Uint16Array_bytes_length, Uint32Array_bytes_length. lia.
Qed.

(** One stored entry is parsed field by field; the cursor ends right
    after its digest. *)
Ltac read_field Hs side :=
  match type of Hs with
  | skipn (Z.to_nat ?p) ?a = ?mid ++ ?rest =>
      erewrite bind_Return;
      [| apply (readBuffer_within a mid rest _ p); [lia | exact Hs | side]];
      apply skipn_advance in Hs; [|lia]
  end.

Lemma readEntry_entry (archive rest : list byte) (src : ByteSource) (pos : Z)
    (e : Entry) (v : bool) :
  0 <= pos -> skipn (Z.to_nat pos) archive = entry_bytes e ++ rest ->
  well_formed e ->
  readEntry v (at_offset archive src pos)
  = match entry_check v e with
    | Some err => Throw err
    | None => Return (entry_output e)
                (at_offset archive src (pos + byteLength (entry_bytes e)))
    end.
Proof.
  intros Hp Hs (Hn & Ht & Hpl & Hd).
  rewrite entry_bytes_length.
  pose proof (byteLength_nonneg (e_name e)) as Hn0.
  pose proof (byteLength_nonneg (e_type e)) as Ht0.
  pose proof (byteLength_nonneg (e_payload e)) as Hp0.
  unfold entry_bytes in Hs. rewrite <- !app_assoc in Hs.
  unfold readEntry.
  (* name length *)
  read_field Hs ltac:(left; discriminate).
  rewrite Uint16Array_bytes_length in *.
  erewrite bind_Return; [| apply Uint16Array_first_bytes].
  rewrite Z.mod_small by lia.
  (* name *)
  read_field Hs ltac:(right; discriminate).
  (* type length *)
  read_field Hs ltac:(left; discriminate).
  rewrite Uint16Array_bytes_length in *.
  erewrite bind_Return; [| apply Uint16Array_first_bytes].
  rewrite Z.mod_small by lia.
  (* type *)
  set (p4 := pos + 2 + byteLength (e_name e) + 2) in *.
  assert (Htype :
    (if byteLength (e_type e) =? 0 then ret (js "application/octet-stream")
     else bind (readBuffer (byteLength (e_type e))) (fun b => ret (TextDecoder_decode b)))
      (at_offset archive src p4)
    = Return (resolved_type e) (at_offset archive src (p4 + byteLength (e_type e)))).
  { unfold resolved_type. destruct (byteLength (e_type e) =? 0) eqn:E.
    - apply Z.eqb_eq in E. rewrite E, Z.add_0_r. reflexivity.
    - erewrite bind_Return;
        [| match type of Hs with
           | _ = _ ++ ?r => apply (readBuffer_within archive (e_type e) r src p4)
           end; [unfold p4; lia | exact Hs | right; discriminate]].
      reflexivity. }
  erewrite bind_Return; [| exact Htype]. clear Htype.
  apply skipn_advance in Hs; [|unfold p4; lia].
  (* size *)
  read_field Hs ltac:(left; discriminate).
  rewrite Uint32Array_bytes_length in *.
  erewrite bind_Return; [| apply Uint32Array_first_bytes].
  rewrite Z.mod_small by lia.
  (* payload and digest *)
  assert (Hdne : e_digest e <> [])
    by (intros E; rewrite E in Hd; discriminate).
  erewrite bind_Return;
    [| apply (readBytes_within archive (e_payload e) (e_digest e ++ rest) src);
       [unfold p4; lia | exact Hs
       | right; intros E; apply app_eq_nil in E; destruct E; contradiction]].
  apply skipn_advance in Hs; [|unfold p4; lia].
  assert (Hhash :
    readBuffer 20 (at_offset archive src (p4 + byteLength (e_type e) + 4 + byteLength (e_payload e)))
    = Return (e_digest e)
        (at_offset archive src
           (p4 + byteLength (e_type e) + 4 + byteLength (e_payload e) + byteLength (e_digest e)))).
  { rewrite <- Hd at 1.
    apply (readBuffer_within archive (e_digest e) rest src);
      [unfold p4; lia | exact Hs | left; assumption]. }
  erewrite bind_Return; [| exact Hhash]. clear Hhash.
  unfold entry_check, entry_output.
  replace (pos + (2 + byteLength (e_name e) + 2 + byteLength (e_type e) + 4
                  + byteLength (e_payload e) + byteLength (e_digest e)))
    with (p4 + byteLength (e_type e) + 4 + byteLength (e_payload e) + byteLength (e_digest e))
    by (unfold p4; lia).
  destruct v; [|reflexivity].
  destruct (deliver (Some (resolved_type e)) (e_payload e)) as [blob|buf] eqn:Edel.
  - assert (Hb : blob_bytes blob = e_payload e).
    { unfold deliver in Edel. destruct (resolved_type e); inversion Edel; reflexivity. }
    rewrite Hb. destruct (every_matches (e_digest e) (sha1 (e_payload e))); reflexivity.
  - reflexivity.
Qed.

Lemma entry_bytes_not_nil (e : Entry) : entry_bytes e <> [].
Proof. unfold entry_bytes. discriminate. Qed.

Lemma entries_bytes_not_nil (es : list Entry) :
  es <> [] -> flat_map entry_bytes es <> [].
Proof.
  destruct es as [|e es]; [contradiction|]. intros _ E. cbn [flat_map] in E.
  apply app_eq_nil in E. destruct E as [E _]. exact (entry_bytes_not_nil e E).
Qed.

Lemma entries_bytes_length (es : list Entry) :
  (length es <= length (flat_map entry_bytes es))%nat.
Proof.
  induction es as [|e es IH]; cbn [flat_map length]; [lia|].
  rewrite length_app. pose proof (entry_bytes_not_nil e).
  destruct (entry_bytes e); [contradiction | cbn [length]; lia].
Qed.

Lemma entryLoop_stopped (fuel : nat) (v : bool) (st : DecoderState) :
  running st = false -> entryLoop fuel v st = ([], Done).
Proof. intros H. destruct fuel; simpl; rewrite H; reflexivity. Qed.

Lemma running_at_offset (archive : list byte) (src : ByteSource) (pos : Z) :
  running (at_offset archive src pos) = true.
Proof. unfold at_offset. destruct (pos <? byteLength archive); reflexivity. Qed.

(** After an entry: at the end of the archive the loop is stopped, before
    it nothing changes. *)
Lemma maybeReadMore_at_end (archive : list byte) (pos : Z) :
  byteLength archive <= pos ->
  maybeReadMore (at_offset archive [] pos) = Return tt (mkState [archive] 1 0 [] false).
Proof. intros H. rewrite at_offset_end by assumption. reflexivity. Qed.

Lemma maybeReadMore_inside (archive : list byte) (src : ByteSource) (pos : Z) :
  pos < byteLength archive ->
  maybeReadMore (at_offset archive src pos) = Return tt (at_offset archive src pos).
Proof.
  intros H. rewrite at_offset_inside by assumption.
  unfold maybeReadMore. cbn [chunks chunk cursor reader running].
  change (byteLength [archive] <=? 0) with false. rewrite andb_false_r. reflexivity.
Qed.

(** The entry loop over the stored entries that remain in the chunk. *)
Lemma entryLoop_entries (v : bool) (archive : list byte) (es : list Entry) :
  forall (fuel : nat) (pos : Z),
    0 <= pos -> skipn (Z.to_nat pos) archive = flat_map entry_bytes es ->
    Forall well_formed es -> es <> [] -> (length es <= fuel)%nat ->
    entryLoop fuel v (at_offset archive [] pos) = decoded v es.
Proof.
  induction es as [|e es IH]; intros fuel pos Hp Hs Hwf Hne Hfuel; [contradiction|].
  destruct fuel as [|fuel]; [simpl in Hfuel; lia|].
  inversion Hwf as [|? ? Hwe Hwes]; subst.
  cbn [entryLoop decoded flat_map] in *. rewrite running_at_offset.
  rewrite (readEntry_entry archive (flat_map entry_bytes es) [] pos e v Hp Hs Hwe).
  destruct (entry_check v e) as [err|]; [reflexivity|].
  pose proof (byteLength_nonneg (entry_bytes e)) as Hl.
  assert (Hlen : byteLength archive
                 = pos + byteLength (entry_bytes e) + byteLength (flat_map entry_bytes es)).
  { rewrite (skipn_suffix_length archive _ pos Hp Hs), byteLength_app; [lia|].
    intros E. apply app_eq_nil in E. destruct E as [E _].
    exact (entry_bytes_not_nil e E). }
  apply skipn_advance in Hs; [|assumption].
  destruct es as [|e' es].
  - rewrite maybeReadMore_at_end by (simpl in Hlen; unfold byteLength at 3 in Hlen; simpl in Hlen; lia).
    rewrite entryLoop_stopped by reflexivity. reflexivity.
  - assert (Hne' : e' :: es <> []) by discriminate.
    pose proof (byteLength_pos _ (entries_bytes_not_nil _ Hne')) as Hpos.
    rewrite maybeReadMore_inside by lia.
    assert (Hf : (length (e' :: es) <= fuel)%nat) by (cbn [length] in *; lia).
    assert (Hp' : 0 <= pos + byteLength (entry_bytes e)) by lia.
    rewrite (IH fuel _ Hp' Hs Hwes Hne' Hf). reflexivity.
Qed.

Lemma every_matches_HEAD : every_matches HEAD (firstn 7 HEAD) = true.
Proof. reflexivity. Qed.

(** A well-formed archive of at least one entry, delivered as one chunk,
    decodes to its entries, up to the first whose digest check fails. *)
Theorem decode_archive (es : list Entry) (options : DecodeOptions) :
  es <> [] -> Forall well_formed es ->
  decodeAssetBundleStream [archive_bytes es] options = decoded (verify_of options) es.
Proof.
  intros Hne Hwf. unfold decodeAssetBundleStream.
  set (archive := archive_bytes es).
  assert (Hs : skipn (Z.to_nat 0) archive = HEAD ++ flat_map entry_bytes es) by reflexivity.
  assert (H0 : mkState [archive] 0 0 [] true = at_offset archive [] 0).
  { symmetry. apply at_offset_inside. unfold archive, archive_bytes.
    rewrite byteLength_app. pose proof (byteLength_nonneg (flat_map entry_bytes es)).
    change (byteLength HEAD) with 7. lia. }
  rewrite H0.
  erewrite bind_Return;
    [| apply (readBuffer_within archive HEAD (flat_map entry_bytes es) [] 0);
       [lia | exact Hs | left; discriminate]].
  apply skipn_advance in Hs; [|lia].
  change (0 + byteLength HEAD) with 7 in *.
  unfold checkHead. change (byteLength HEAD <? 7) with false. cbv iota.
  rewrite every_matches_HEAD. cbn [negb]. unfold ret.
  fold (verify_of options).
  apply entryLoop_entries; try assumption; [lia|].
  cbn [concat]. rewrite app_nil_r. unfold archive, archive_bytes.
  rewrite length_app. pose proof (entries_bytes_length es). lia.
Qed.

(** ** The encoder *)

Lemma encodeFiles_written (files : list AssetBundleInput) :
  forall (chunks : list BlobPart) (offset : Z) (seen : list jsstring),
    match written files seen with
    | Ok es =>
        exists parts,
          encodeFiles files chunks offset seen = Ok parts
          /\ flat_map part_bytes parts
             = flat_map part_bytes chunks ++ flat_map entry_bytes es
    | Err err => encodeFiles files chunks offset seen = Err err
    end.
Proof.
  induction files as [|file files IH]; intros chunks offset seen.
  - simpl. exists chunks. rewrite app_nil_r. split; reflexivity.
  - cbn [written encodeFiles].
    destruct (existsb (jsstring_eqb (name file)) seen); [reflexivity|].
    unfold stored.
    destruct (resolve (data file) (type_value (type file))) as [buffer type].
    destruct buffer as [|s|b|b]; try reflexivity.
    rewrite sha1_length. cbn [Z.eqb Pos.eqb negb].
    match goal with
    | |- context [encodeFiles files ?c ?o ?s] => specialize (IH c o s)
    end.
    destruct (written files (name file :: seen)) as [es|err].
    + destruct IH as (parts & He & Hb). exists parts. split; [exact He|].
      rewrite Hb. rewrite !flat_map_app. cbn [flat_map part_bytes]. unfold entry_bytes.
      cbn [e_name e_type e_payload e_digest]. rewrite !app_nil_r, <- !app_assoc.
      reflexivity.
    + exact IH.
Qed.

(** [encodeAssetBundle] writes the header and then the stored entries, or
    stops at the first error. *)
Theorem encodeAssetBundle_written (files : list AssetBundleInput) :
  encodeAssetBundle files
  = match written files [] with
    | Ok es => Ok (mkBlob (archive_bytes es) (js "application/asset-bundle"))
    | Err err => Err err
    end.
Proof.
  unfold encodeAssetBundle.
  pose proof (encodeFiles_written files [] 0 []) as H.
  destruct (written files []) as [es|err].
  - destruct H as (parts & He & Hb). rewrite He. unfold new_Blob, archive_bytes.
    cbn [flat_map part_bytes]. rewrite Hb. reflexivity.
  - rewrite H. reflexivity.
Qed.

Lemma jsstring_eqb_eq (a b : jsstring) : jsstring_eqb a b = true <-> a = b.
Proof.
  unfold jsstring_eqb. destruct (list_eq_dec Z.eq_dec a b); split; intros H;
    try assumption; try reflexivity; try discriminate; contradiction.
Qed.

Lemma seen_has (name : jsstring) (seen : list jsstring) :
  existsb (jsstring_eqb name) seen = true <-> In name seen.
Proof.
  rewrite existsb_exists. split.
  - intros (x & Hin & Heq). apply jsstring_eqb_eq in Heq. subst. assumption.
  - intros Hin. exists name. split; [assumption | apply jsstring_eqb_eq; reflexivity].
Qed.

Lemma seen_has_not (name : jsstring) (seen : list jsstring) :
  ~ In name seen -> existsb (jsstring_eqb name) seen = false.
Proof.
  intros H. destruct (existsb (jsstring_eqb name) seen) eqn:E; [|reflexivity].
  apply seen_has in E. contradiction.
Qed.

(** With names that differ and payloads that resolve, every file is
    written. *)
Lemma written_all (files : list AssetBundleInput) :
  forall seen : list jsstring,
    NoDup (map name files) ->
    (forall n, In n (map name files) -> ~ In n seen) ->
    Forall (fun f => stored f <> None) files ->
    exists es, written files seen = Ok es
               /\ Forall2 (fun f e => stored f = Some e) files es.
Proof.
  induction files as [|file files IH]; intros seen Hnd Hseen Hst.
  - exists []. split; [reflexivity | constructor].
  - cbn [map] in *. inversion Hnd as [|? ? Hnotin Hnd']; subst.
    inversion Hst as [|? ? Hs Hst']; subst.
    cbn [written]. rewrite seen_has_not by (apply Hseen; left; reflexivity).
    destruct (stored file) as [e|] eqn:E; [|contradiction].
    destruct (IH (name file :: seen) Hnd') as (es & Hw & Hf2).
    + intros n Hin [Heq|Hin'].
      * subst n. contradiction.
      * apply (Hseen n); [right; assumption | assumption].
    + assumption.
    + rewrite Hw. exists (e :: es). split; [reflexivity|].
      constructor; assumption.
Qed.

Lemma default_type_truthy (payload : list byte) :
  deliver (Some (js "application/octet-stream")) payload
  = IsBlob (mkBlob payload (js "application/octet-stream")).
Proof. reflexivity. Qed.





Lemma encoded_Ok (files : list AssetBundleInput) (archive : Blob) :
  encodeAssetBundle files = Ok archive -> encoded files = blob_bytes archive.
Proof. intros H. unfold encoded. rewrite H. reflexivity. Qed.

(** ** Chunk boundaries (C2) *)

(** C2 fails on the archive of the test suite: whole, or in chunks of 4096
    bytes, it decodes to its two entries; in chunks of 1 or of 3 bytes a
    read that ends at a chunk boundary looks at a chunk that is not there
    yet; and split at the boundary between its entries, the chunk that
    [maybeReadMore] fetches is skipped. *)
Theorem chunk_boundaries_change_the_result :
  decodeAssetBundleStream [test_archive] no_options
    = (map round_trip_output test_files, Done)
  /\ decodeAssetBundleStream (in_chunks_of 4096 test_archive) no_options
    = (map round_trip_output test_files, Done)
  /\ decodeAssetBundleStream (in_chunks_of 1 test_archive) no_options
    = ([], Thrown TypeError)
  /\ decodeAssetBundleStream (in_chunks_of 3 test_archive) no_options
    = ([], Thrown TypeError)
  /\ decodeAssetBundleStream [firstn 54 test_archive; skipn 54 test_archive] no_options
    = (firstn 1 (map round_trip_output test_files), Thrown UnexpectedEndOfFile).
Proof. vm_compute. repeat split; reflexivity. Qed.

(** ** Truncation (C4) *)

Lemma archive_bytes_app (es1 es2 : list Entry) :
  archive_bytes (es1 ++ es2) = archive_bytes es1 ++ flat_map entry_bytes es2.
Proof. unfold archive_bytes. rewrite flat_map_app, app_assoc. reflexivity. Qed.

(** X5. An archive cut right after one of its entries, the first or a
    later one, and handed over as one chunk, decodes as the archive of the
    entries before the cut does, and ends without an error of the cut. *)
Lemma truncated_after_an_entry (es1 es2 : list Entry) (options : DecodeOptions) :
  es1 <> [] -> Forall well_formed es1 ->
  decodeAssetBundleStream
    [firstn (length (archive_bytes es1)) (archive_bytes (es1 ++ es2))] options
  = decoded (verify_of options) es1.
Proof.
  intros Hne Hwf. rewrite archive_bytes_app, firstn_app, firstn_all, Nat.sub_diag.
  cbn [firstn]. rewrite app_nil_r. apply decode_archive; assumption.
Qed.

(** C4 fails at the cut it names: the archive of no entries, which is what
    [encodeAssetBundle] makes of the empty list and what is left of any
    archive cut at offset 7, is rejected with "Unexpected end of file",
    where the claim promises a clean end with no entries. And a cut right
    after the size field of an entry with an empty payload ends in a
    TypeError, not in "Unexpected end of file": the read of zero bytes
    looks at a chunk that is not there. *)
Theorem archive_of_no_entries_is_rejected :
  encodeAssetBundle [] = Ok (mkBlob HEAD (js "application/asset-bundle"))
  /\ firstn 7 test_archive = HEAD
  /\ decodeAssetBundleStream [HEAD] no_options = ([], Thrown UnexpectedEndOfFile)
  /\ decodeAssetBundleStream [firstn 16 (encoded [empty_file])] no_options
     = ([], Thrown TypeError).
Proof. vm_compute. repeat split; reflexivity. Qed.

(** ** Header (C5) *)

(** A first chunk that holds the seven header bytes, and not the magic,
    is rejected with "Invalid AssetBundle header" whatever follows. *)
Lemma invalid_header_in_first_chunk (first : list byte) (rest : ByteSource)
    (options : DecodeOptions) :
  7 <= byteLength first -> firstn 7 first <> HEAD ->
  decodeAssetBundleStream (first :: rest) options = ([], Thrown InvalidHeader).
Proof.
  intros Hlen Hbad. unfold decodeAssetBundleStream.
  assert (Hs : skipn (Z.to_nat 0) first = firstn 7 first ++ skipn 7 first)
    by (symmetry; apply firstn_skipn).
  assert (Hl : byteLength (firstn 7 first) = 7).
  { unfold byteLength in *. rewrite length_firstn. lia. }
  assert (H0 : mkState [first] 0 0 rest true = at_offset first rest 0)
    by (symmetry; apply at_offset_inside; lia).
  rewrite H0.
  erewrite bind_Return;
    [| rewrite <- Hl at 1;
       apply (readBuffer_within first (firstn 7 first) (skipn 7 first) rest 0);
       [lia | exact Hs | left; intros E; rewrite E in Hl; discriminate]].
  unfold checkHead. rewrite Hl. change (7 <? 7) with false. cbv iota.
  rewrite firstn_firstn. change (Nat.min 7 7) with 7%nat.
  destruct (every_matches HEAD (firstn 7 first)) eqn:E; [|reflexivity].
  apply every_matches_eq in E; [symmetry in E; contradiction|].
  unfold byteLength in Hl. change (length HEAD) with 7%nat. lia.
Qed.

(** C5 fails when the seven bytes arrive as 3 and then 4: the read ends at
    a chunk boundary and looks at a chunk that is not there, so the
    decoder throws a TypeError before it compares the header. *)
Theorem split_header_is_not_compared :
  firstn 7 (concat split_bad_header) <> HEAD
  /\ decodeAssetBundleStream split_bad_header no_options = ([], Thrown TypeError)
  /\ decodeAssetBundleStream [concat split_bad_header] no_options
     = ([], Thrown InvalidHeader).
Proof. vm_compute. repeat split; try reflexivity. discriminate. Qed.

(** ** Payload (C7) *)

Lemma stored_Some (file : AssetBundleInput) (e : Entry) :
  stored file = Some e ->
  exists b ty,
    resolve (data file) (type_value (type file)) = (VArrayBuffer b, ty)
    /\ e = mkEntry (TextEncoder_encode (name file)) (encode_type ty) b (sha1 b).
Proof.
  unfold stored.
  destruct (resolve (data file) (type_value (type file))) as [buffer ty].
  destruct buffer as [|s|b|b]; try discriminate.
  intros H. exists b, ty. split; [reflexivity|]. congruence.
Qed.

(** What is stored as the payload of a file: the source bytes, but for a
    view the whole buffer under it. *)
Lemma stored_payload (file : AssetBundleInput) (e : Entry) :
  stored file = Some e ->
  e_payload e = match data file with
                | DataUint8Array buffer _ _ => buffer
                | d => source_bytes d
                end
  /\ e_digest e = sha1 (e_payload e).
Proof.
  intros H. destruct (stored_Some file e H) as (b & ty & Hr & ->).
  cbn [e_payload e_digest]. split; [|reflexivity].
  destruct file as [nm t dt]. cbn [name type data] in *.
  destruct dt as [s|buffer off len|buffer off len|b'|b'|b']; destruct t as [t|];
    cbv beta iota delta [resolve type_value] in Hr; cbn [source_bytes];
    congruence.
Qed.

(** C7 fails for a view: of a [Uint8Array] over bytes 2 and 3 of a
    four-byte buffer the archive stores all four bytes, behind a length
    prefix of 4. *)
Theorem view_is_stored_with_its_whole_buffer :
  source_bytes (data view_file) = [Byte.x02; Byte.x03]
  /\ encodeAssetBundle [view_file]
     = Ok (mkBlob
             (archive_bytes
                [mkEntry (TextEncoder_encode (js "a")) []
                   [Byte.x01; Byte.x02; Byte.x03; Byte.x04]
                   (sha1 [Byte.x01; Byte.x02; Byte.x03; Byte.x04])])
             (js "application/asset-bundle"))
  /\ firstn 4 (skipn 12 (encoded [view_file])) = Uint32Array_bytes 4.
Proof. vm_compute. repeat split; reflexivity. Qed.

(** ** Media type (C9) *)

(** For a payload that is not a [Blob], the type field holds the supplied
    media type as it is, and nothing when none is supplied. *)
Lemma stored_type (file : AssetBundleInput) (e : Entry) :
  stored file = Some e ->
  (forall b, data file <> DataBlob b) ->
  e_type e = match type file with
             | None => []
             | Some t => TextEncoder_encode t
             end.
Proof.
  intros H Hnb. destruct (stored_Some file e H) as (b & ty & Hr & ->).
  cbn [e_type].
  destruct file as [nm t dt]. cbn [name type data] in *.
  destruct dt as [s|buffer off len|buffer off len|b'|b'|b'];
    try (exfalso; apply (Hnb b'); reflexivity);
    destruct t as [t|]; cbv beta iota delta [resolve type_value] in Hr;
    (assert (E : ty = VString t) by congruence)
    || (assert (E : ty = VUndefined) by congruence) || congruence;
    rewrite E; reflexivity.
Qed.

(** The decoder puts the default in exactly when the length field of the
    type is 0. *)
Lemma resolved_type_default (e : Entry) :
  (byteLength (e_type e) = 0 -> resolved_type e = js "application/octet-stream")
  /\ (byteLength (e_type e) <> 0 -> resolved_type e = TextDecoder_decode (e_type e)).
Proof.
  unfold resolved_type. split; intros H.
  - rewrite H. reflexivity.
  - apply Z.eqb_neq in H. rewrite H. reflexivity.
Qed.

(** C9 fails for a [Blob] with no media type: [type ??= await
    data.arrayBuffer()] leaves the buffer in [type], and the type field
    holds the 20 bytes of "[object ArrayBuffer]", not nothing; the entry
    decodes to a [Blob] made with that media type, whose [type] reads in
    lower case. *)
Theorem blob_without_type_gets_a_type :
  type blob_file = None
  /\ encodeAssetBundle [blob_file]
     = Ok (mkBlob
             (archive_bytes
                [mkEntry (TextEncoder_encode (js "a"))
                   (TextEncoder_encode (js "[object ArrayBuffer]"))
                   [Byte.x78] (sha1 [Byte.x78])])
             (js "application/asset-bundle"))
  /\ firstn 2 (skipn 10 (encoded [blob_file])) = Uint16Array_bytes 20
  /\ decodeAssetBundleStream [encoded [blob_file]] no_options
     = ([mkOutput (js "a") (IsBlob (mkBlob [Byte.x78] (js "[object arraybuffer]")))], Done).
Proof. vm_compute. repeat split; reflexivity. Qed.

(** ** Duplicate names (C6) *)

Lemma written_first_repeat (file : AssetBundleInput) (after : list AssetBundleInput)
    (before : list AssetBundleInput) :
  forall seen : list jsstring,
    NoDup (map name before) ->
    (forall n, In n (map name before) -> ~ In n seen) ->
    In (name file) (map name before) \/ In (name file) seen ->
    written (before ++ file :: after) seen
    = match find unresolved before with
      | Some g => Err (CouldNotConvert (name g))
      | None => Err (DuplicateFilename (name file))
      end.
Proof.
  induction before as [|b before IH]; intros seen Hnd Hseen Hin.
  - destruct Hin as [[]|Hin]. cbn [app written find].
    apply seen_has in Hin. rewrite Hin. reflexivity.
  - cbn [map] in *. inversion Hnd as [|? ? Hnotin Hnd']; subst.
    cbn [app written find]. rewrite seen_has_not by (apply Hseen; left; reflexivity).
    unfold unresolved at 1. destruct (stored b) as [e|]; [|reflexivity].
    rewrite (IH (name b :: seen) Hnd').
    + destruct (find unresolved before); reflexivity.
    + intros n Hn [Heq|Hn']; [subst n; contradiction|].
      apply (Hseen n); [right; assumption | assumption].
    + destruct Hin as [[Heq|Hin]|Hin].
      * right. left. assumption.
      * left. assumption.
      * right. right. assumption.
Qed.

(** A list with a repeated name splits at the first entry whose name was
    met before. *)
Lemma first_repeat (files : list AssetBundleInput) :
  ~ NoDup (map name files) ->
  exists before file after,
    files = before ++ file :: after
    /\ NoDup (map name before)
    /\ In (name file) (map name before).
Proof.
  induction files as [|x files IH] using rev_ind; intros Hdup.
  - exfalso. apply Hdup. constructor.
  - destruct (NoDup_dec (list_eq_dec Z.eq_dec) (map name files)) as [Hnd|Hnd].
    + exists files, x, []. repeat split; [assumption|].
      destruct (in_dec (list_eq_dec Z.eq_dec) (name x) (map name files)) as [Hin|Hin];
        [assumption|].
      exfalso. apply Hdup. rewrite map_app. cbn [map].
      apply NoDup_app; [assumption | repeat constructor; intros [] |].
      intros n Hn [Heq|[]]. subst n. contradiction.
    + destruct (IH Hnd) as (before & file & after & -> & Hb & Hin).
      exists before, file, (after ++ [x]). repeat split; try assumption.
      rewrite <- app_assoc. reflexivity.
Qed.

(** C6, amended. Every list in which a name repeats is rejected, with no
    output: up to the first entry whose name was met before, names are
    checked and payloads resolved entry by entry, so the error is
    "Could not convert" for the first of the earlier entries whose
    payload does not resolve, if there is one, and otherwise
    "Duplicate filename" with the repeated name. *)
Theorem duplicate_names_rejected (files : list AssetBundleInput) :
  ~ NoDup (map name files) ->
  exists before file after,
    files = before ++ file :: after
    /\ NoDup (map name before)
    /\ In (name file) (map name before)
    /\ encodeAssetBundle files
       = match find unresolved before with
         | Some g => Err (CouldNotConvert (name g))
         | None => Err (DuplicateFilename (name file))
         end.
Proof.
  intros Hdup. destruct (first_repeat files Hdup) as (before & file & after & -> & Hnd & Hin).
  exists before, file, after. repeat split; try assumption.
  rewrite encodeAssetBundle_written.
  rewrite (written_first_repeat file after before [] Hnd); [| intros n _ [] | left; assumption].
  destruct (find unresolved before); reflexivity.
Qed.

(** The spec's example, two entries named "a". *)
Lemma duplicate_names_rejected_witness :
  exists before file after,
    duplicate_files = before ++ file :: after
    /\ NoDup (map name before)
    /\ In (name file) (map name before)
    /\ encodeAssetBundle duplicate_files
       = match find unresolved before with
         | Some g => Err (CouldNotConvert (name g))
         | None => Err (DuplicateFilename (name file))
         end.
Proof.
  apply duplicate_names_rejected.
  intros H. inversion H as [|? ? Hn _]. apply Hn. left. reflexivity.
Defined.

(** C6 as stated fails: names are not checked before payloads are
    resolved. With a repeated name "b" behind an entry "a" whose payload
    is a SharedArrayBuffer, the error is the one of "a". *)
Lemma duplicate_hidden_by_unresolved_payload :
  ~ (forall files : list AssetBundleInput,
        ~ NoDup (map name files) ->
        exists n, encodeAssetBundle files = Err (DuplicateFilename n)).
Proof.
  intros H. destruct (H unresolved_then_duplicate) as [n Hn].
  - intros Hnd. inversion Hnd as [|? ? _ Hnd']. inversion Hnd' as [|? ? Hb _].
    apply Hb. left. reflexivity.
  - assert (Hx : encodeAssetBundle unresolved_then_duplicate
                 = Err (CouldNotConvert (js "a"))) by (vm_compute; reflexivity).
    rewrite Hx in Hn. discriminate Hn.
Qed.

(** ** Field sizes (C8) *)

Lemma encode_unique_resolved (files : list AssetBundleInput) :
  NoDup (map name files) ->
  Forall (fun f => stored f <> None) files ->
  exists es,
    encodeAssetBundle files = Ok (mkBlob (archive_bytes es) (js "application/asset-bundle"))
    /\ Forall2 (fun f e => stored f = Some e) files es.
Proof.
  intros Hnd Hst.
  destruct (written_all files [] Hnd) as (es & Hw & Hf2);
    [intros n _ [] | assumption |].
  exists es. rewrite encodeAssetBundle_written, Hw. split; [reflexivity | assumption].
Qed.

(** C8 fails: a name whose UTF-8 encoding takes 65536 bytes is not
    rejected. The archive is made, with the name in full (the archive has
    7 + 2 + 65536 + 2 + 4 + 1 + 20 bytes) behind a length prefix of 0,
    which is not the byteLength of the field; the decoder reads an empty
    name and takes what follows for the next fields, and ends in
    "Unexpected end of file" without an entry. *)
Theorem long_name_is_not_rejected :
  Exists oversized long_name_files
  /\ (exists archive, encodeAssetBundle long_name_files = Ok archive
                      /\ blob_bytes archive = encoded long_name_files)
  /\ firstn 2 (skipn 7 (encoded long_name_files)) = Uint16Array_bytes 0
  /\ byteLength (encoded long_name_files) = 7 + 2 + 65536 + 2 + 4 + 1 + 20
  /\ decodeAssetBundleStream [encoded long_name_files] no_options
     = ([], Thrown UnexpectedEndOfFile).
Proof.
  split; [constructor; left; vm_compute; reflexivity|].
  split.
  - destruct (encode_unique_resolved long_name_files) as (es & Hok & _).
    + constructor; [intros [] | constructor].
    + constructor; [discriminate | constructor].
    + eexists. split; [exact Hok|]. symmetry. apply encoded_Ok. exact Hok.
  - split; [vm_compute; reflexivity|].
    split; vm_compute; reflexivity.
Qed.

(** ** Digests (C3, C10) *)

Lemma decoded_unverified (es : list Entry) :
  decoded false es = (map entry_output es, Done).
Proof.
  induction es as [|e es IH]; [reflexivity|].
  cbn [decoded entry_check map]. rewrite IH. reflexivity.
Qed.

Lemma decoded_checked_prefix (v : bool) (es1 es2 : list Entry) :
  Forall (fun e => entry_check v e = None) es1 ->
  decoded v (es1 ++ es2)
  = (map entry_output es1 ++ fst (decoded v es2), snd (decoded v es2)).
Proof.
  induction es1 as [|e es1 IH]; intros H.
  - cbn [app map]. destruct (decoded v es2). reflexivity.
  - inversion H as [|? ? He H']; subst. cbn [app decoded map]. rewrite He, (IH H').
    reflexivity.
Qed.

(** With a media type that is not the empty string, the check of an entry
    passes exactly when the stored digest is the SHA-1 of the payload. *)
Lemma entry_check_verify (e : Entry) :
  well_formed e -> resolved_type e <> [] ->
  entry_check true e
  = if list_eq_dec Byte.byte_eq_dec (e_digest e) (sha1 (e_payload e)) then None
    else Some (HashMismatch (TextDecoder_decode (e_name e))).
Proof.
  intros (_ & _ & _ & Hd) Hty. unfold entry_check, deliver.
  destruct (resolved_type e) as [|c t]; [contradiction|].
  destruct (list_eq_dec Byte.byte_eq_dec (e_digest e) (sha1 (e_payload e))) as [E|E].
  - rewrite E, every_matches_refl. reflexivity.
  - destruct (every_matches (e_digest e) (sha1 (e_payload e))) eqn:Em; [|reflexivity].
    exfalso. apply E. apply every_matches_eq; [|assumption].
    pose proof (sha1_length (e_payload e)) as Hs. unfold byteLength in *. lia.
Qed.

(** A payload changed in place, in an archive handed over as one chunk:
    without verification every entry is yielded, the changed one with its
    changed payload; with verification the entries before it are yielded
    and the decoder throws "Hash mismatch" for it, provided the SHA-1 of
    the changed payload is not the stored digest. *)
Lemma changed_payload (es1 es2 : list Entry) (e : Entry) (payload' : list byte) :
  let e' := mkEntry (e_name e) (e_type e) payload' (e_digest e) in
  Forall well_formed (es1 ++ e' :: es2) ->
  decodeAssetBundleStream [archive_bytes (es1 ++ e' :: es2)] (mkOptions (Some false))
    = (map entry_output (es1 ++ e' :: es2), Done)
  /\ (Forall (fun x => entry_check true x = None) es1 ->
      resolved_type e <> [] ->
      sha1 payload' <> e_digest e ->
      decodeAssetBundleStream [archive_bytes (es1 ++ e' :: es2)] (mkOptions (Some true))
      = (map entry_output es1, Thrown (HashMismatch (TextDecoder_decode (e_name e))))).
Proof.
  intros e' Hwf.
  assert (Hne : es1 ++ e' :: es2 <> []) by (destruct es1; discriminate).
  split.
  - rewrite decode_archive by assumption. apply decoded_unverified.
  - intros Hok Hty Hsha. rewrite decode_archive by assumption.
    cbn [verify_of verify]. rewrite decoded_checked_prefix by assumption.
    cbn [decoded]. rewrite entry_check_verify.
    + cbn [e_digest e_payload e_name e']. destruct (list_eq_dec _ _ _) as [E|E].
      * exfalso. apply Hsha. symmetry. exact E.
      * cbn [fst snd]. rewrite app_nil_r. reflexivity.
    + apply Forall_app in Hwf. destruct Hwf as [_ Hwf]. inversion Hwf. assumption.
    + exact Hty.
Qed.

Lemma decoded_mismatch (es : list Entry) :
  Forall well_formed es ->
  Forall (fun e => resolved_type e <> []) es ->
  Exists digest_mismatch es ->
  exists e files,
    In e es /\ digest_mismatch e
    /\ decoded true es = (files, Thrown (HashMismatch (TextDecoder_decode (e_name e)))).
Proof.
  induction es as [|e es IH]; intros Hwf Hty Hex; [inversion Hex|].
  inversion Hwf as [|? ? Hwe Hwes]; subst. inversion Hty as [|? ? Hte Htes]; subst.
  cbn [decoded]. rewrite (entry_check_verify e Hwe Hte).
  destruct (list_eq_dec Byte.byte_eq_dec (e_digest e) (sha1 (e_payload e))) as [E|E].
  - destruct IH as (e0 & files & Hin & Hm & Hdec); try assumption.
    + inversion Hex as [? ? Hm|]; subst; [contradiction | assumption].
    + exists e0, (entry_output e :: files). rewrite Hdec.
      repeat split; [right; assumption | assumption].
  - exists e, []. repeat split; [left; reflexivity | exact E].
Qed.

(** [decodeAssetBundle] passes no options: it is the streaming decoder
    run with [verify = true] and drained into a map. *)
Lemma decodeAssetBundle_collect (src : ByteSource) :
  decodeAssetBundle src
  = collect (decodeAssetBundleStream src (mkOptions (Some true))).
Proof.
  unfold decodeAssetBundle, collect.
  change (decodeAssetBundleStream src no_options)
    with (decodeAssetBundleStream src (mkOptions (Some true))).
  destruct (decodeAssetBundleStream src (mkOptions (Some true))) as [files c].
  destruct c; reflexivity.
Qed.

(** An archive of well-formed entries, handed over as one chunk, in which
    the stored digest of some entry is not the SHA-1 of its payload and
    no media type decodes to the empty string, is rejected with "Hash
    mismatch" for such an entry. *)
Lemma wrong_digest_in_one_chunk (es : list Entry) :
  Forall well_formed es ->
  Forall (fun e => resolved_type e <> []) es ->
  Exists digest_mismatch es ->
  exists e,
    In e es /\ digest_mismatch e
    /\ decodeAssetBundle [archive_bytes es]
       = Rejected (HashMismatch (TextDecoder_decode (e_name e))).
Proof.
  intros Hwf Hty Hex.
  destruct (decoded_mismatch es Hwf Hty Hex) as (e & files & Hin & Hm & Hdec).
  exists e. repeat split; try assumption.
  rewrite decodeAssetBundle_collect, decode_archive;
    [| intros ->; inversion Hex | assumption].
  cbn [verify_of verify]. rewrite Hdec. reflexivity.
Qed.

(** C10 fails on a source in chunks. The three chunks make up an archive
    of three entries, the second with a digest of twenty zero bytes; the
    chunk of that entry follows a chunk that ends with an entry and is
    skipped, so [decodeAssetBundle] resolves with a map of the other two
    and no "Hash mismatch". And an archive in one chunk in which an entry
    whose media type field decodes to the empty string stands before the
    entry with the wrong digest is rejected with a TypeError, not with
    "Hash mismatch". *)
Theorem wrong_digest_is_not_reported :
  concat [archive_bytes [hello_entry]; entry_bytes bad_digest_entry;
          entry_bytes morning_entry]
  = archive_bytes [hello_entry; bad_digest_entry; morning_entry]
  /\ digest_mismatch bad_digest_entry
  /\ decodeAssetBundle [archive_bytes [hello_entry]; entry_bytes bad_digest_entry;
                        entry_bytes morning_entry]
     = Resolved
         [ (js "test.txt",
            IsBlob (mkBlob (TextEncoder_encode (js "hello world"))
                           (js "application/octet-stream")));
           (js "good-morning.txt",
            IsBlob (mkBlob (TextEncoder_encode (js "good morning"))
                           (js "application/octet-stream"))) ]
  /\ decodeAssetBundle [archive_bytes [bom_entry; bad_digest_entry]]
     = Rejected TypeError.
Proof.
  split; [vm_compute; reflexivity|].
  split; [unfold digest_mismatch; vm_compute; discriminate|].
  split; vm_compute; reflexivity.
Qed.

(** ** The decoder always comes to an end *)

(** [readBytes] leaves its loop: each turn but the last moves on by one
    chunk, and the chunks run out. *)
Lemma readLoop_terminates (fuel : nat) :
  forall (n bytes : Z) (st : DecoderState),
    (length (chunks st) + length (reader st) - Z.to_nat (chunk st) < fuel)%nat ->
    readLoop fuel n bytes st <> OutOfFuel.
Proof.
  induction fuel as [|fuel IH]; intros n bytes st Hfuel; [lia|].
  cbn [readLoop]. destruct (bytes <? n) eqn:Eb; [|discriminate].
  destruct (byteLength (chunks st) <=? chunk st) eqn:Ec.
  - destruct (reader st) as [|value rest] eqn:Er; [discriminate|].
    cbn [chunks chunk cursor reader running].
    destruct (index (chunks st ++ [value]) (chunk st)) as [c|] eqn:Ei; [|discriminate].
    unfold index in Ei. destruct (chunk st <? 0) eqn:En; [discriminate|].
    apply Z.ltb_ge in En.
    assert (Hlt : (Z.to_nat (chunk st) < length (chunks st ++ [value]))%nat)
      by (apply nth_error_Some; rewrite Ei; discriminate).
    rewrite length_app in Hlt. cbn [length] in Hlt, Hfuel.
    destruct (n <? byteLength c - cursor st + bytes).
    + rewrite readLoop_done by lia. discriminate.
    + apply IH. cbn [chunks chunk cursor reader running]. rewrite length_app.
      cbn [length]. lia.
  - destruct (index (chunks st) (chunk st)) as [c|] eqn:Ei; [|discriminate].
    unfold index in Ei. destruct (chunk st <? 0) eqn:En; [discriminate|].
    apply Z.ltb_ge in En.
    assert (Hlt : (Z.to_nat (chunk st) < length (chunks st))%nat)
      by (apply nth_error_Some; rewrite Ei; discriminate).
    destruct (n <? byteLength c - cursor st + bytes).
    + rewrite readLoop_done by lia. discriminate.
    + apply IH. cbn [chunks chunk cursor reader running]. lia.
Qed.

Lemma readBytes_terminates (n : Z) (blobType : option jsstring) (st : DecoderState) :
  readBytes n blobType st <> OutOfFuel.
Proof.
  unfold readBytes.
  pose proof (readLoop_terminates (readLoop_fuel st) n 0 st) as H.
  destruct (readLoop (readLoop_fuel st) n 0 st) as [[] st'| e |].
  - destruct (chunk st =? chunk st').
    + destruct (index (chunks st') (chunk st)); discriminate.
    + destruct ((chunk st =? chunk st' - 1) && (cursor st' =? 0)).
      * destruct (index (chunks st') (chunk st)); discriminate.
      * destruct (index (chunks st') (chunk st)); [|discriminate].
        destruct (index (chunks st') (chunk st')); discriminate.
  - discriminate.
  - exfalso. apply H; [unfold readLoop_fuel; lia | reflexivity].
Qed.

Lemma skipn_nth_error {A : Type} (l : list A) (k : nat) (x : A) :
  nth_error l k = Some x -> skipn k l = x :: skipn (S k) l.
Proof.
  revert k. induction l as [|a l IH]; intros [|k] H; try discriminate.
  - injection H as ->. reflexivity.
  - cbn [nth_error] in H. cbn [skipn]. rewrite (IH k H). reflexivity.
Qed.

Lemma index_Some {A : Type} (l : list A) (i : Z) (x : A) :
  index l i = Some x ->
  0 <= i < byteLength l /\ nth_error l (Z.to_nat i) = Some x.
Proof.
  unfold index. destruct (i <? 0) eqn:E; [discriminate|]. intros H.
  apply Z.ltb_ge in E. split; [|assumption].
  assert (Z.to_nat i < length l)%nat by (apply nth_error_Some; rewrite H; discriminate).
  unfold byteLength. lia.
Qed.

Lemma unread_nonneg (st : DecoderState) : cursor_ok st -> 0 <= unread st.
Proof.
  intros (Hc & Hcur & Hin & Hend). unfold unread.
  pose proof (byteLength_nonneg (concat (reader st))) as Hr.
  destruct (index (chunks st) (chunk st)) as [c|] eqn:Ei.
  - destruct (index_Some _ _ _ Ei) as [_ Hn].
    rewrite (skipn_nth_error _ _ _ Hn). cbn [concat]. rewrite byteLength_app.
    pose proof (byteLength_nonneg (concat (skipn (S (Z.to_nat (chunk st))) (chunks st)))).
    specialize (Hin c eq_refl). lia.
  - assert (chunk st = byteLength (chunks st)).
    { unfold index in Ei. destruct (chunk st <? 0) eqn:E; [apply Z.ltb_lt in E; lia|].
      apply nth_error_None in Ei. unfold byteLength in *. lia. }
    rewrite (Hend H). pose proof (byteLength_nonneg
      (concat (skipn (Z.to_nat (chunk st)) (chunks st)))). lia.
Qed.

(** The loop of [readBytes] keeps the cursor in the chunks and takes
    exactly the bytes asked for. *)
Lemma readLoop_progress (fuel : nat) :
  forall (n bytes : Z) (st st' : DecoderState),
    cursor_ok st ->
    readLoop fuel n bytes st = Return tt st' ->
    cursor_ok st' /\ unread st' = unread st - Z.max 0 (n - bytes)
    /\ running st' = running st.
Proof.
  induction fuel as [|fuel IH]; intros n bytes st st' Hok Hrun.
  - cbn [readLoop] in Hrun. destruct (bytes <? n) eqn:Eb; [discriminate|].
    apply Z.ltb_ge in Eb. injection Hrun as <-. repeat split; try apply Hok. lia.
  - cbn [readLoop] in Hrun. destruct (bytes <? n) eqn:Eb.
    2:{ apply Z.ltb_ge in Eb. injection Hrun as <-. repeat split; try apply Hok. lia. }
    apply Z.ltb_lt in Eb.
    (* the state once the chunk under the cursor is there *)
    assert (Hfetch : exists st1,
               (if byteLength (chunks st) <=? chunk st
                then match reader st with
                     | [] => None
                     | value :: rest =>
                         Some (mkState (chunks st ++ [value]) (chunk st) (cursor st) rest
                                       (running st))
                     end
                else Some st) = Some st1
               /\ cursor_ok st1 /\ unread st1 = unread st /\ running st1 = running st).
    { destruct (byteLength (chunks st) <=? chunk st) eqn:Ec.
      - destruct (reader st) as [|value rest] eqn:Er; [discriminate|].
        eexists. split; [reflexivity|].
        apply Z.leb_le in Ec. destruct Hok as (Hc & Hcur & Hin & Hend).
        assert (Hce : chunk st = byteLength (chunks st)) by lia.
        specialize (Hend Hce).
        assert (Hn : Z.to_nat (chunk st) = length (chunks st))
          by (unfold byteLength in Hce; lia).
        repeat split; cbn [chunks chunk cursor reader running].
        + lia.
        + rewrite byteLength_app. unfold byteLength at 2. cbn [length]. lia.
        + assumption.
        + intros c Hi. rewrite Hend. apply byteLength_nonneg.
        + rewrite byteLength_app. unfold byteLength at 2. cbn [length]. lia.
        + unfold unread. cbn [chunks chunk cursor reader running].
          rewrite Er, Hn, skipn_app, skipn_all, Nat.sub_diag. cbn [skipn app concat].
          rewrite app_nil_r, byteLength_app. unfold byteLength at 3. cbn [length]. lia.
      - exists st. repeat split; try apply Hok; reflexivity. }
    destruct Hfetch as (st1 & Hf & Hok1 & Hun1 & Hr1). rewrite Hf in Hrun. clear Hf.
    destruct (index (chunks st1) (chunk st1)) as [c|] eqn:Ei; [|discriminate].
    destruct (index_Some _ _ _ Ei) as [Hrange Hnth].
    destruct Hok1 as (Hc & Hcur & Hin & Hend). specialize (Hin c Ei).
    destruct (n <? byteLength c - cursor st1 + bytes) eqn:En.
    + apply Z.ltb_lt in En. rewrite readLoop_done in Hrun by lia.
      injection Hrun as <-. cbn [chunks chunk cursor reader running].
      repeat split; cbn [chunks chunk cursor reader running]; try lia.
      * intros c' Hi. rewrite Ei in Hi. injection Hi as <-. lia.
      * unfold unread in *. cbn [chunks chunk cursor reader running]. lia.
      * assumption.
    + apply Z.ltb_ge in En.
      apply IH in Hrun.
      * destruct Hrun as (Hok' & Hun' & Hr'). cbn [running] in Hr'.
        split; [assumption|]. split; [|congruence].
        rewrite Hun', <- Hun1. unfold unread. cbn [chunks chunk cursor reader running].
        rewrite (skipn_nth_error _ _ _ Hnth). cbn [concat]. rewrite byteLength_app.
        replace (Z.to_nat (chunk st1 + 1)) with (S (Z.to_nat (chunk st1))) by lia.
        lia.
      * repeat split; cbn [chunks chunk cursor reader running]; try lia.
        intros c' _. apply byteLength_nonneg.
Qed.

Lemma readBytes_progress (n : Z) (blobType : option jsstring)
    (st st' : DecoderState) (d : Data) :
  cursor_ok st ->
  readBytes n blobType st = Return d st' ->
  cursor_ok st' /\ unread st' = unread st - Z.max 0 n /\ running st' = running st.
Proof.
  intros Hok H. unfold readBytes in H.
  destruct (readLoop (readLoop_fuel st) n 0 st) as [[] st1| e |] eqn:El;
    try discriminate.
  apply readLoop_progress in El; [|assumption].
  rewrite Z.sub_0_r in El.
  assert (st' = st1); [|subst; assumption].
  destruct (chunk st =? chunk st1).
  - destruct (index (chunks st1) (chunk st)); [injection H as _ <-; reflexivity | discriminate].
  - destruct ((chunk st =? chunk st1 - 1) && (cursor st1 =? 0)).
    + destruct (index (chunks st1) (chunk st));
        [injection H as _ <-; reflexivity | discriminate].
    + destruct (index (chunks st1) (chunk st)); [|discriminate].
      destruct (index (chunks st1) (chunk st1));
        [injection H as _ <-; reflexivity | discriminate].
Qed.

Lemma consumes_ret {A : Type} (a : A) : consumes 0 (ret a).
Proof.
  intros st Hok. split; [discriminate|].
  intros a' st' H. injection H as _ <-. repeat split; try apply Hok. lia.
Qed.

Lemma consumes_throw {A : Type} (k : Z) (e : DecodeError) : consumes k (@throw A e).
Proof. intros st Hok. split; [discriminate|]. intros a st' H. discriminate H. Qed.

Lemma consumes_weaken {A : Type} (j k : Z) (m : M A) :
  consumes j m -> k <= j -> consumes k m.
Proof.
  intros Hm Hle st Hok. destruct (Hm st Hok) as [Ht Hr]. split; [assumption|].
  intros a st' H. destruct (Hr a st' H) as (Hok' & Hun & Hrun).
  repeat split; try apply Hok'; try assumption. lia.
Qed.

Lemma consumes_bind {A B : Type} (j k : Z) (m : M A) (f : A -> M B) :
  consumes j m -> (forall a, consumes k (f a)) -> consumes (j + k) (bind m f).
Proof.
  intros Hm Hf st Hok. destruct (Hm st Hok) as [Ht Hr]. unfold bind.
  destruct (m st) as [a st1| e |] eqn:E.
  - destruct (Hr a st1 eq_refl) as (Hok1 & Hun1 & Hrun1).
    destruct (Hf a st1 Hok1) as [Ht' Hr']. split; [assumption|].
    intros b st' H. destruct (Hr' b st' H) as (Hok' & Hun' & Hrun').
    repeat split; try apply Hok'; [lia | congruence].
  - split; [discriminate|]. intros b st' H. discriminate H.
  - contradiction.
Qed.

Lemma consumes_readBytes (n : Z) (blobType : option jsstring) :
  consumes (Z.max 0 n) (readBytes n blobType).
Proof.
  intros st Hok. split; [apply readBytes_terminates|].
  intros d st' H. destruct (readBytes_progress n blobType st st' d Hok H) as (H1 & H2 & H3).
  repeat split; try apply H1; [lia | assumption].
Qed.

Lemma consumes_readBuffer (n : Z) : consumes (Z.max 0 n) (readBuffer n).
Proof.
  unfold readBuffer. replace (Z.max 0 n) with (Z.max 0 n + 0) by lia.
  apply consumes_bind; [apply consumes_readBytes | intros d; apply consumes_ret].
Qed.

Lemma consumes_Uint16Array_first (buffer : list byte) :
  consumes 0 (Uint16Array_first buffer).
Proof.
  unfold Uint16Array_first. destruct buffer as [|b0 [|b1 rest]];
    try apply consumes_throw.
  destruct (Nat.even (length rest)); [apply consumes_ret | apply consumes_throw].
Qed.

Lemma consumes_Uint32Array_first (buffer : list byte) :
  consumes 0 (Uint32Array_first buffer).
Proof.
  unfold Uint32Array_first. destruct buffer as [|b0 [|b1 [|b2 [|b3 rest]]]];
    try apply consumes_throw.
  destruct (Z.of_nat (length rest) mod 4 =? 0); [apply consumes_ret | apply consumes_throw].
Qed.

(** Every entry read takes at least its 28 bytes of prefixes and digest. *)
Lemma consumes_readEntry (v : bool) : consumes 28 (readEntry v).
Proof.
  unfold readEntry.
  apply (consumes_bind 2 26); [apply (consumes_readBuffer 2)|]. intros b1.
  apply (consumes_bind 0 26); [apply consumes_Uint16Array_first|]. intros nameLength.
  apply (consumes_bind 0 26);
    [apply (consumes_weaken (Z.max 0 nameLength)); [apply consumes_readBuffer | lia]|].
  intros b2.
  apply (consumes_bind 2 24); [apply (consumes_readBuffer 2)|]. intros b3.
  apply (consumes_bind 0 24); [apply consumes_Uint16Array_first|]. intros typeLength.
  apply (consumes_bind 0 24).
  { destruct (typeLength =? 0); [apply consumes_ret|].
    apply (consumes_bind 0 0); [|intros b; apply consumes_ret].
    apply (consumes_weaken (Z.max 0 typeLength)); [apply consumes_readBuffer | lia]. }
  intros type.
  apply (consumes_bind 4 20); [apply (consumes_readBuffer 4)|]. intros b4.
  apply (consumes_bind 0 20); [apply consumes_Uint32Array_first|]. intros size.
  apply (consumes_bind 0 20);
    [apply (consumes_weaken (Z.max 0 size)); [apply consumes_readBytes | lia]|].
  intros data.
  apply (consumes_bind 20 0); [apply (consumes_readBuffer 20)|]. intros hash.
  apply (consumes_bind 0 0); [|intros _; apply consumes_ret].
  destruct v; [|apply consumes_ret].
  destruct data as [blob|buf]; [|apply consumes_throw].
  destruct (every_matches hash (sha1 (blob_bytes blob)));
    [apply consumes_ret | apply consumes_throw].
Qed.

Lemma maybeReadMore_progress (st : DecoderState) :
  cursor_ok st ->
  exists st', maybeReadMore st = Return tt st'
              /\ cursor_ok st' /\ unread st' <= unread st.
Proof.
  intros Hok. unfold maybeReadMore.
  destruct ((cursor st =? 0) && (byteLength (chunks st) <=? chunk st)) eqn:E.
  - apply andb_prop in E. destruct E as [E0 Ec].
    apply Z.eqb_eq in E0. apply Z.leb_le in Ec.
    destruct Hok as (Hc & Hcur & Hin & Hend).
    assert (Hn : Z.to_nat (chunk st) = length (chunks st))
      by (unfold byteLength in *; lia).
    destruct (reader st) as [|value rest] eqn:Er.
    + eexists. split; [reflexivity|].
      unfold cursor_ok, unread. cbn [chunks chunk cursor reader running].
      rewrite Er. repeat split; try assumption; lia.
    + eexists. split; [reflexivity|].
      unfold cursor_ok, unread, index. cbn [chunks chunk cursor reader running].
      rewrite Er, byteLength_app. unfold byteLength at 2 4. cbn [length].
      replace (Z.to_nat (chunk st + 1)) with (S (length (chunks st))) by lia.
      rewrite Hn. repeat split; try lia.
      * intros c Hi. destruct (chunk st + 1 <? 0); [discriminate|].
        assert (nth_error (chunks st ++ [value]) (S (length (chunks st))) = None)
          by (apply nth_error_None; rewrite length_app; cbn [length]; lia).
        congruence.
      * rewrite !skipn_all2 by (try rewrite length_app; cbn [length]; lia).
        cbn [concat]. rewrite byteLength_app.
        pose proof (byteLength_nonneg value). unfold byteLength at 1 3. cbn [length]. lia.
  - exists st. repeat split; try apply Hok. lia.
Qed.

(** The entry loop ends, by [return], or by a [throw], before its turns
    run out. *)
Lemma entryLoop_terminates (fuel : nat) :
  forall (v : bool) (st : DecoderState),
    cursor_ok st -> (Z.to_nat (unread st) < fuel)%nat ->
    snd (entryLoop fuel v st) <> Diverged.
Proof.
  induction fuel as [|fuel IH]; intros v st Hok Hfuel; [lia|].
  cbn [entryLoop]. destruct (running st); [|discriminate].
  destruct (consumes_readEntry v st Hok) as [Ht Hr].
  destruct (readEntry v st) as [file st1| e |]; [| discriminate | contradiction].
  destruct (Hr file st1 eq_refl) as (Hok1 & Hun1 & _).
  destruct (maybeReadMore_progress st1 Hok1) as (st2 & Hm & Hok2 & Hun2).
  rewrite Hm.
  pose proof (unread_nonneg st2 Hok2) as Hnn.
  specialize (IH v st2 Hok2 ltac:(lia)).
  destruct (entryLoop fuel v st2) as [files c]. exact IH.
Qed.

(** On every source and with every option the streaming decoder ends
    with [Done] or with an error. *)
Theorem decodeAssetBundleStream_terminates (input : ByteSource) (options : DecodeOptions) :
  snd (decodeAssetBundleStream input options) <> Diverged.
Proof.
  unfold decodeAssetBundleStream. destruct input as [|value rest]; [discriminate|].
  set (st0 := mkState [value] 0 0 rest true).
  assert (Hok0 : cursor_ok st0).
  { unfold cursor_ok, st0, index. cbn [chunks chunk cursor reader running].
    unfold byteLength at 1 3. cbn [length Z.ltb Z.compare Z.to_nat nth_error].
    repeat split; try lia.
    intros c _. apply byteLength_nonneg. }
  assert (Hun0 : unread st0 = byteLength (concat (value :: rest))).
  { unfold unread, st0. cbn [chunks chunk cursor reader running Z.to_nat skipn concat].
    rewrite app_nil_r, byteLength_app. lia. }
  assert (Hhead : consumes 7 (bind (readBuffer 7) (fun head => checkHead head))).
  { apply (consumes_bind 7 0); [apply (consumes_readBuffer 7)|]. intros head.
    unfold checkHead. destruct (byteLength head <? 7); [apply consumes_throw|].
    destruct (negb _); [apply consumes_throw | apply consumes_ret]. }
  destruct (Hhead st0 Hok0) as [Ht Hr].
  destruct (bind (readBuffer 7) (fun head => checkHead head) st0) as [[] st1| e |];
    [| discriminate | contradiction].
  destruct (Hr tt st1 eq_refl) as (Hok1 & Hun1 & _).
  apply entryLoop_terminates; [assumption|].
  pose proof (unread_nonneg st1 Hok1). unfold byteLength in Hun0. lia.
Qed.

(** ** An archive cut inside an entry (C4) *)

Lemma prefix_split {A : Type} (cut rest a b : list A) :
  cut ++ rest = a ++ b ->
  (exists r, r <> [] /\ a = cut ++ r)
  \/ (exists cut', cut = a ++ cut' /\ cut' ++ rest = b).
Proof.
  revert a. induction cut as [|x cut IH]; intros a H.
  - destruct a as [|y a].
    + right. exists []. split; [reflexivity | exact H].
    + left. exists (y :: a). split; [discriminate | reflexivity].
  - destruct a as [|y a].
    + right. exists (x :: cut). split; [reflexivity | exact H].
    + cbn [app] in H. injection H as -> H. destruct (IH a H) as [(r & Hr & ->)|(c & -> & Hc)].
      * left. exists r. split; [assumption | reflexivity].
      * right. exists c. split; [reflexivity | assumption].
Qed.

Lemma readBuffer_truncated (archive cut : list byte) (pos n : Z) :
  0 <= pos -> skipn (Z.to_nat pos) archive = cut -> byteLength cut < n ->
  readBuffer n (at_offset archive [] pos) = Throw UnexpectedEndOfFile.
Proof.
  intros Hp Hs Hn. unfold readBuffer. apply bind_Throw.
  pose proof (byteLength_nonneg cut) as Hc.
  apply readBytes_past_end; [assumption | | lia].
  assert (Hl : length cut = (length archive - Z.to_nat pos)%nat)
    by (rewrite <- Hs; apply length_skipn).
  unfold byteLength in *. lia.
Qed.

(** The fields of an entry that lie before the cut are read, and the
    read of the field the cut falls into, or of the first field behind
    it, finds the source at its end. *)
Ltac end_here Hs :=
  match type of Hs with
  | skipn (Z.to_nat ?p) ?a = ?c =>
      apply (readBuffer_truncated a c p); [lia | exact Hs | ]
  end.

Lemma readEntry_truncated (archive cut rest : list byte) (pos : Z) (e : Entry) (v : bool) :
  0 <= pos -> skipn (Z.to_nat pos) archive = cut ->
  entry_bytes e = cut ++ rest -> rest <> [] ->
  well_formed e -> e_name e <> [] -> e_payload e <> [] ->
  readEntry v (at_offset archive [] pos) = Throw UnexpectedEndOfFile.
Proof.
  intros Hp Hs Hcut Hrest (Hn & Ht & Hpl & Hd) Hname Hpay.
  pose proof (byteLength_nonneg (e_name e)) as Hn0.
  pose proof (byteLength_nonneg (e_type e)) as Ht0.
  pose proof (byteLength_nonneg (e_payload e)) as Hp0.
  unfold entry_bytes in Hcut. symmetry in Hcut. unfold readEntry.
  (* name length *)
  destruct (prefix_split _ _ _ _ Hcut) as [(r & Hr & E)|(cut1 & -> & Hcut1)].
  { apply bind_Throw. end_here Hs.
    apply (f_equal byteLength) in E. rewrite byteLength_app in E.
    rewrite Uint16Array_bytes_length in E. pose proof (byteLength_pos r Hr). lia. }
  clear Hcut. read_field Hs ltac:(left; discriminate).
  rewrite Uint16Array_bytes_length in *.
  erewrite bind_Return; [| apply Uint16Array_first_bytes].
  rewrite Z.mod_small by lia.
  (* name *)
  destruct (prefix_split _ _ _ _ Hcut1) as [(r & Hr & E)|(cut2 & -> & Hcut2)].
  { apply bind_Throw. end_here Hs.
    apply (f_equal byteLength) in E. rewrite byteLength_app in E.
    pose proof (byteLength_pos r Hr). lia. }
  clear Hcut1. read_field Hs ltac:(left; assumption).
  (* type length *)
  destruct (prefix_split _ _ _ _ Hcut2) as [(r & Hr & E)|(cut3 & -> & Hcut3)].
  { apply bind_Throw. end_here Hs.
    apply (f_equal byteLength) in E. rewrite byteLength_app in E.
    rewrite Uint16Array_bytes_length in E. pose proof (byteLength_pos r Hr). lia. }
  clear Hcut2. read_field Hs ltac:(left; discriminate).
  rewrite Uint16Array_bytes_length in *.
  erewrite bind_Return; [| apply Uint16Array_first_bytes].
  rewrite Z.mod_small by lia.
  (* type *)
  set (p4 := pos + 2 + byteLength (e_name e) + 2) in *.
  assert (Htype :
    (exists cut4,
        (if byteLength (e_type e) =? 0 then ret (js "application/octet-stream")
         else bind (readBuffer (byteLength (e_type e)))
                   (fun b => ret (TextDecoder_decode b)))
          (at_offset archive [] p4)
        = Return (resolved_type e) (at_offset archive [] (p4 + byteLength (e_type e)))
        /\ skipn (Z.to_nat (p4 + byteLength (e_type e))) archive = cut4
        /\ cut4 ++ rest
           = Uint32Array_bytes (byteLength (e_payload e)) ++ e_payload e ++ e_digest e)
    \/ (if byteLength (e_type e) =? 0 then ret (js "application/octet-stream")
        else bind (readBuffer (byteLength (e_type e)))
                  (fun b => ret (TextDecoder_decode b)))
         (at_offset archive [] p4)
       = Throw UnexpectedEndOfFile).
  { unfold resolved_type. destruct (byteLength (e_type e) =? 0) eqn:E0.
    - left. apply Z.eqb_eq in E0. exists cut3. rewrite E0, Z.add_0_r.
      apply byteLength_nil_iff in E0. rewrite E0 in Hcut3.
      repeat split; [exact Hs | exact Hcut3].
    - apply Z.eqb_neq in E0.
      destruct (prefix_split _ _ _ _ Hcut3) as [(r & Hr & E)|(cut4 & -> & Hcut4)].
      + right. apply bind_Throw.
        end_here Hs.
        apply (f_equal byteLength) in E. rewrite byteLength_app in E.
        pose proof (byteLength_pos r Hr). lia.
      + left. exists cut4.
        erewrite bind_Return;
          [| apply (readBuffer_within archive (e_type e) cut4 [] p4);
             [unfold p4; lia | exact Hs
             | left; intros En; rewrite En in E0; apply E0; reflexivity]].
        apply skipn_advance in Hs; [|unfold p4; lia].
        repeat split; [exact Hs | exact Hcut4]. }
  destruct Htype as [(cut4 & Hty & Hs4 & Hcut4)|Hty];
    [| apply bind_Throw; exact Hty].
  erewrite bind_Return; [| exact Hty]. clear Hty Hs Hcut3. subst p4.
  (* size *)
  destruct (prefix_split _ _ _ _ Hcut4) as [(r & Hr & E)|(cut5 & -> & Hcut5)].
  { apply bind_Throw. end_here Hs4.
    apply (f_equal byteLength) in E. rewrite byteLength_app in E.
    rewrite Uint32Array_bytes_length in E. pose proof (byteLength_pos r Hr). lia. }
  clear Hcut4. read_field Hs4 ltac:(left; discriminate).
  rewrite Uint32Array_bytes_length in *.
  erewrite bind_Return; [| apply Uint32Array_first_bytes].
  rewrite Z.mod_small by lia.
  (* payload *)
  destruct (prefix_split _ _ _ _ Hcut5) as [(r & Hr & E)|(cut6 & -> & Hcut6)].
  { apply bind_Throw. apply readBytes_past_end; [lia | | ].
    - match type of Hs4 with
      | skipn ?k _ = _ =>
          assert (Hl : length cut5 = (length archive - k)%nat)
            by (rewrite <- Hs4; apply length_skipn)
      end.
      apply (f_equal byteLength) in E. rewrite byteLength_app in E.
      pose proof (byteLength_pos r Hr). unfold byteLength in *. lia.
    - apply byteLength_pos. assumption. }
  clear Hcut5.
  match type of Hs4 with
  | skipn (Z.to_nat ?p) _ = _ =>
      erewrite bind_Return;
      [| apply (readBytes_within archive (e_payload e) cut6 [] p);
         [lia | exact Hs4 | left; assumption]]
  end.
  apply skipn_advance in Hs4; [|lia].
  (* digest *)
  apply bind_Throw. end_here Hs4.
  apply (f_equal byteLength) in Hcut6. rewrite byteLength_app in Hcut6.
  pose proof (byteLength_pos rest Hrest). lia.
Qed.

(** The entries before the cut are yielded, those whose digest check
    passes, and then the decoder throws. *)
Lemma entryLoop_truncated (v : bool) (archive cut rest : list byte) (e : Entry)
    (es : list Entry) :
  forall (fuel : nat) (pos : Z),
    0 <= pos -> skipn (Z.to_nat pos) archive = flat_map entry_bytes es ++ cut ->
    Forall well_formed es -> (length es < fuel)%nat ->
    cut <> [] -> entry_bytes e = cut ++ rest -> rest <> [] ->
    well_formed e -> e_name e <> [] -> e_payload e <> [] ->
    entryLoop fuel v (at_offset archive [] pos)
    = (fst (decoded v es),
       match snd (decoded v es) with
       | Done => Thrown UnexpectedEndOfFile
       | c => c
       end).
Proof.
  induction es as [|e0 es IH];
    intros fuel pos Hp Hs Hwf Hfuel Hcne Hcut Hrest Hwe Hname Hpay.
  - destruct fuel as [|fuel]; [cbn [length] in Hfuel; lia|].
    cbn [entryLoop decoded flat_map app fst snd] in *. rewrite running_at_offset.
    rewrite (readEntry_truncated archive cut rest pos e v); try assumption.
    reflexivity.
  - destruct fuel as [|fuel]; [cbn [length] in Hfuel; lia|].
    inversion Hwf as [|? ? Hw0 Hwes]; subst.
    cbn [entryLoop decoded flat_map] in *. rewrite running_at_offset.
    rewrite <- app_assoc in Hs.
    rewrite (readEntry_entry archive _ [] pos e0 v Hp Hs Hw0).
    destruct (entry_check v e0) as [err|]; [reflexivity|].
    pose proof (byteLength_nonneg (entry_bytes e0)) as Hl.
    assert (Hlen : byteLength archive
                   = pos + byteLength (entry_bytes e0)
                     + byteLength (flat_map entry_bytes es ++ cut)).
    { rewrite (skipn_suffix_length archive _ pos Hp Hs), byteLength_app; [lia|].
      intros E. apply app_eq_nil in E. destruct E as [E _].
      exact (entry_bytes_not_nil e0 E). }
    apply skipn_advance in Hs; [|assumption].
    assert (Hpos : 0 < byteLength (flat_map entry_bytes es ++ cut)).
    { rewrite byteLength_app. pose proof (byteLength_pos cut Hcne).
      pose proof (byteLength_nonneg (flat_map entry_bytes es)). lia. }
    rewrite maybeReadMore_inside by lia.
    assert (Hf : (length es < fuel)%nat) by (cbn [length] in Hfuel; lia).
    assert (Hp' : 0 <= pos + byteLength (entry_bytes e0)) by lia.
    rewrite (IH fuel _ Hp' Hs Hwes Hf Hcne Hcut Hrest Hwe Hname Hpay).
    destruct (decoded v es) as [files c]. reflexivity.
Qed.

(** X6. An archive cut inside an entry, behind its first byte and before
    the end of its digest, and handed over as one chunk: when the name and
    the payload of that entry are not empty, the entries before it are
    yielded as in the whole archive, and then the decoder throws
    "Unexpected end of file". *)
Theorem truncated_inside_an_entry (es : list Entry) (e : Entry) (cut rest : list byte)
    (options : DecodeOptions) :
  Forall well_formed es -> well_formed e ->
  entry_bytes e = cut ++ rest -> cut <> [] -> rest <> [] ->
  e_name e <> [] -> e_payload e <> [] ->
  decodeAssetBundleStream [archive_bytes es ++ cut] options
  = (fst (decoded (verify_of options) es),
     match snd (decoded (verify_of options) es) with
     | Done => Thrown UnexpectedEndOfFile
     | c => c
     end).
Proof.
  intros Hwf Hwe Hcut Hcne Hrest Hname Hpay. unfold decodeAssetBundleStream.
  set (archive := archive_bytes es ++ cut).
  assert (Hs : skipn (Z.to_nat 0) archive = HEAD ++ flat_map entry_bytes es ++ cut).
  { unfold archive, archive_bytes. rewrite <- app_assoc. reflexivity. }
  assert (H0 : mkState [archive] 0 0 [] true = at_offset archive [] 0).
  { symmetry. apply at_offset_inside. unfold archive, archive_bytes.
    rewrite !byteLength_app. pose proof (byteLength_nonneg (flat_map entry_bytes es)).
    pose proof (byteLength_nonneg cut). change (byteLength HEAD) with 7. lia. }
  rewrite H0.
  erewrite bind_Return;
    [| apply (readBuffer_within archive HEAD (flat_map entry_bytes es ++ cut) [] 0);
       [lia | exact Hs | left; discriminate]].
  apply skipn_advance in Hs; [|lia].
  change (0 + byteLength HEAD) with 7 in *.
  unfold checkHead. change (byteLength HEAD <? 7) with false. cbv iota.
  rewrite every_matches_HEAD. cbn [negb]. unfold ret.
  fold (verify_of options).
  apply (entryLoop_truncated _ archive cut rest e); try assumption; [lia|].
  cbn [concat]. rewrite app_nil_r. unfold archive, archive_bytes.
  rewrite !length_app. pose proof (entries_bytes_length es). lia.
Qed.

(** ** Texts of ASCII characters *)







(** ** Round trip (C1) *)







(** ** Chunk boundaries, in general (C2) *)

(** Delivered one byte per chunk, nothing decodes: the read of the header
    ends at a chunk boundary. *)
Lemma one_byte_chunks_never_decode (bytes : list byte) (options : DecodeOptions) :
  (7 <= length bytes)%nat ->
  decodeAssetBundleStream (in_chunks_of 1 bytes) options = ([], Thrown TypeError).
Proof.
  intros H.
  destruct bytes as [|b1 [|b2 [|b3 [|b4 [|b5 [|b6 [|b7 rest]]]]]]];
    try (cbn [length] in H; lia).
  reflexivity.
Qed.

Lemma maybeReadMore_skips (archive value : list byte) (rest : ByteSource) (pos : Z) :
  byteLength archive <= pos ->
  maybeReadMore (at_offset archive (value :: rest) pos)
  = Return tt (mkState [archive; value] 2 0 rest true).
Proof. intros H. rewrite at_offset_end by assumption. reflexivity. Qed.

Lemma entryLoop_second_chunk_lost (v : bool) (archive lost : list byte) (es : list Entry) :
  forall (fuel : nat) (pos : Z),
    0 <= pos -> skipn (Z.to_nat pos) archive = flat_map entry_bytes es ->
    Forall well_formed es -> es <> [] -> (length es < fuel)%nat ->
    entryLoop fuel v (at_offset archive [lost] pos)
    = (fst (decoded v es),
       match snd (decoded v es) with
       | Done => Thrown UnexpectedEndOfFile
       | c => c
       end).
Proof.
  induction es as [|e es IH]; intros fuel pos Hp Hs Hwf Hne Hfuel; [contradiction|].
  destruct fuel as [|fuel]; [cbn [length] in Hfuel; lia|].
  inversion Hwf as [|? ? Hwe Hwes]; subst.
  cbn [entryLoop decoded flat_map] in *. rewrite running_at_offset.
  rewrite (readEntry_entry archive (flat_map entry_bytes es) [lost] pos e v Hp Hs Hwe).
  destruct (entry_check v e) as [err|]; [reflexivity|].
  pose proof (byteLength_nonneg (entry_bytes e)) as Hl.
  assert (Hlen : byteLength archive
                 = pos + byteLength (entry_bytes e) + byteLength (flat_map entry_bytes es)).
  { rewrite (skipn_suffix_length archive _ pos Hp Hs), byteLength_app; [lia|].
    intros E. apply app_eq_nil in E. destruct E as [E _].
    exact (entry_bytes_not_nil e E). }
  apply skipn_advance in Hs; [|assumption].
  destruct es as [|e' es].
  - rewrite maybeReadMore_skips
      by (cbn [flat_map] in Hlen; unfold byteLength at 3 in Hlen; cbn [length] in Hlen; lia).
    destruct fuel as [|fuel]; [cbn [length] in Hfuel; lia|]. reflexivity.
  - assert (Hne' : e' :: es <> []) by discriminate.
    pose proof (byteLength_pos _ (entries_bytes_not_nil _ Hne')) as Hpos.
    rewrite maybeReadMore_inside by lia.
    assert (Hf : (length (e' :: es) < fuel)%nat) by (cbn [length] in *; lia).
    assert (Hp' : 0 <= pos + byteLength (entry_bytes e)) by lia.
    rewrite (IH fuel _ Hp' Hs Hwes Hne' Hf).
    destruct (decoded v (e' :: es)) as [files c]. reflexivity.
Qed.

(** X10. When the first chunk ends with an entry, the chunk that follows
    is fetched by [maybeReadMore] and stepped over: whatever it holds is
    lost, and the next read finds the source at its end. *)
Theorem chunk_after_an_entry_is_lost (es : list Entry) (lost : list byte)
    (options : DecodeOptions) :
  es <> [] -> Forall well_formed es ->
  decodeAssetBundleStream [archive_bytes es; lost] options
  = (fst (decoded (verify_of options) es),
     match snd (decoded (verify_of options) es) with
     | Done => Thrown UnexpectedEndOfFile
     | c => c
     end).
Proof.
  intros Hne Hwf. unfold decodeAssetBundleStream.
  set (archive := archive_bytes es).
  assert (Hs : skipn (Z.to_nat 0) archive = HEAD ++ flat_map entry_bytes es) by reflexivity.
  assert (H0 : mkState [archive] 0 0 [lost] true = at_offset archive [lost] 0).
  { symmetry. apply at_offset_inside. unfold archive, archive_bytes.
    rewrite byteLength_app. pose proof (byteLength_nonneg (flat_map entry_bytes es)).
    change (byteLength HEAD) with 7. lia. }
  rewrite H0.
  erewrite bind_Return;
    [| apply (readBuffer_within archive HEAD (flat_map entry_bytes es) [lost] 0);
       [lia | exact Hs | left; discriminate]].
  apply skipn_advance in Hs; [|lia].
  change (0 + byteLength HEAD) with 7 in *.
  unfold checkHead. change (byteLength HEAD <? 7) with false. cbv iota.
  rewrite every_matches_HEAD. cbn [negb]. unfold ret.
  fold (verify_of options).
  apply entryLoop_second_chunk_lost; try assumption; [lia|].
  cbn [concat]. rewrite !length_app. unfold archive, archive_bytes.
  rewrite length_app. pose proof (entries_bytes_length es). lia.
Qed.

(** A payload with one byte changed is the archive with one byte changed,
    at the place of that byte in the payload region. *)
Lemma changed_byte_in_archive (es1 es2 : list Entry) (e : Entry)
    (p1 p2 : list byte) (b b' : byte) :
  e_payload e = p1 ++ b :: p2 ->
  exists before after,
    archive_bytes (es1 ++ e :: es2) = before ++ b :: after
    /\ archive_bytes (es1 ++ mkEntry (e_name e) (e_type e) (p1 ++ b' :: p2) (e_digest e) :: es2)
       = before ++ b' :: after.
Proof.
  intros Hp. destruct e as [nm ty pl dg]. cbn [e_name e_type e_payload e_digest] in *.
  subst pl.
  exists (archive_bytes es1
          ++ Uint16Array_bytes (byteLength nm) ++ nm
          ++ Uint16Array_bytes (byteLength ty) ++ ty
          ++ Uint32Array_bytes (byteLength (p1 ++ b :: p2)) ++ p1),
         (p2 ++ dg ++ flat_map entry_bytes es2).
  rewrite !archive_bytes_app. cbn [flat_map]. unfold entry_bytes.
  cbn [e_name e_type e_payload e_digest].
  replace (byteLength (p1 ++ b' :: p2)) with (byteLength (p1 ++ b :: p2))
    by (unfold byteLength; rewrite !length_app; reflexivity).
  split; rewrite <- !app_assoc; cbn [app]; reflexivity.
Qed.

(** ** Reads over chunk boundaries (C2, C5) *)

Lemma firstn_S_nth_error {A : Type} (l : list A) (k : nat) (x : A) :
  nth_error l k = Some x -> firstn (S k) l = firstn k l ++ [x].
Proof.
  revert k. induction l as [|a l IH]; intros [|k] H; try discriminate.
  - injection H as ->. reflexivity.
  - simpl in H. simpl. f_equal. apply IH. assumption.
Qed.

Lemma readLoop_exact (fuel : nat) :
  forall (n bytes : Z) (st st' : DecoderState),
    cursor_ok st ->
    readLoop fuel n bytes st = Return tt st' ->
    stream st' = stream st
    /\ position st' = position st + Z.max 0 (n - bytes)
    /\ (exists added, chunks st' = chunks st ++ added)
    /\ chunk st <= chunk st'
    /\ (n <= bytes -> st' = st).
Proof.
  induction fuel as [|fuel IH]; intros n bytes st st' Hok Hrun.
  - cbn [readLoop] in Hrun. destruct (bytes <? n) eqn:Eb; [discriminate|].
    apply Z.ltb_ge in Eb. injection Hrun as <-.
    repeat split; try lia. exists []. rewrite app_nil_r. reflexivity.
  - cbn [readLoop] in Hrun. destruct (bytes <? n) eqn:Eb.
    2:{ apply Z.ltb_ge in Eb. injection Hrun as <-.
        repeat split; try lia. exists []. rewrite app_nil_r. reflexivity. }
    apply Z.ltb_lt in Eb.
    assert (Hfetch : exists st1,
               (if byteLength (chunks st) <=? chunk st
                then match reader st with
                     | [] => None
                     | value :: rest =>
                         Some (mkState (chunks st ++ [value]) (chunk st) (cursor st) rest
                                       (running st))
                     end
                else Some st) = Some st1
               /\ cursor_ok st1 /\ stream st1 = stream st /\ position st1 = position st
               /\ (exists added, chunks st1 = chunks st ++ added)
               /\ chunk st1 = chunk st).
    { destruct (byteLength (chunks st) <=? chunk st) eqn:Ec.
      - destruct (reader st) as [|value rest] eqn:Er; [discriminate|].
        eexists. split; [reflexivity|].
        apply Z.leb_le in Ec. destruct Hok as (Hc & Hcur & Hin & Hend).
        assert (Hce : chunk st = byteLength (chunks st)) by lia.
        specialize (Hend Hce).
        assert (Hn : Z.to_nat (chunk st) = length (chunks st))
          by (unfold byteLength in Hce; lia).
        split; [|split; [|split; [|split]]].
        + unfold cursor_ok. cbn [chunks chunk cursor reader running].
          rewrite byteLength_app. unfold byteLength at 2 4. cbn [length].
          repeat split; try lia. intros c Hi. rewrite Hend. apply byteLength_nonneg.
        + unfold stream. cbn [chunks chunk cursor reader running].
          rewrite Er, concat_app. cbn [concat]. rewrite app_nil_r, <- app_assoc. reflexivity.
        + unfold position. cbn [chunks chunk cursor reader running].
          rewrite Hn, firstn_app, Nat.sub_diag, firstn_all. cbn [firstn].
          rewrite app_nil_r. reflexivity.
        + exists [value]. reflexivity.
        + reflexivity.
      - exists st. repeat split; try apply Hok. exists []. rewrite app_nil_r. reflexivity. }
    destruct Hfetch as (st1 & Hf & Hok1 & Hst1 & Hpos1 & (add1 & Hadd1) & Hch1).
    rewrite Hf in Hrun. clear Hf.
    destruct (index (chunks st1) (chunk st1)) as [c|] eqn:Ei; [|discriminate].
    destruct (index_Some _ _ _ Ei) as [Hrange Hnth].
    destruct Hok1 as (Hc & Hcur & Hin & Hend). specialize (Hin c Ei).
    destruct (n <? byteLength c - cursor st1 + bytes) eqn:En.
    + apply Z.ltb_lt in En. rewrite readLoop_done in Hrun by lia.
      injection Hrun as <-. cbn [chunks chunk cursor reader running].
      split; [|split; [|split; [|split]]].
      * unfold stream in *. cbn [chunks chunk cursor reader running]. assumption.
      * unfold position in *. cbn [chunks chunk cursor reader running]. lia.
      * exists add1. assumption.
      * lia.
      * lia.
    + apply Z.ltb_ge in En.
      apply IH in Hrun.
      * destruct Hrun as (Hst' & Hpos' & (add2 & Hadd2) & Hch' & _).
        cbn [chunks chunk cursor reader running] in *.
        split; [|split; [|split; [|split]]].
        -- rewrite Hst', <- Hst1. reflexivity.
        -- rewrite Hpos', <- Hpos1. unfold position.
           cbn [chunks chunk cursor reader running].
           replace (Z.to_nat (chunk st1 + 1)) with (S (Z.to_nat (chunk st1))) by lia.
           rewrite (firstn_S_nth_error _ _ _ Hnth), concat_app. cbn [concat].
           rewrite app_nil_r, byteLength_app. lia.
        -- exists (add1 ++ add2). rewrite Hadd2, Hadd1, app_assoc. reflexivity.
        -- lia.
        -- lia.
      * repeat split; cbn [chunks chunk cursor reader running]; try lia.
        intros c' _. apply byteLength_nonneg.
Qed.

Lemma concat_split_at {A : Type} (cs : list (list A)) (k : nat) (c : list A) :
  nth_error cs k = Some c ->
  concat cs = concat (firstn k cs) ++ c ++ concat (skipn (S k) cs).
Proof.
  intros H. rewrite <- (firstn_skipn k cs) at 1.
  rewrite concat_app, (skipn_nth_error _ _ _ H). reflexivity.
Qed.

(** The bytes of the chunks from offset [a] of chunk [k] on. *)
Lemma skipn_concat_at {A : Type} (cs : list (list A)) (k a : nat) (c : list A) :
  nth_error cs k = Some c -> (a <= length c)%nat ->
  skipn (length (concat (firstn k cs)) + a) (concat cs)
  = skipn a c ++ concat (skipn (S k) cs).
Proof.
  intros H Ha. rewrite (concat_split_at cs k c H) at 1.
  rewrite Nat.add_comm, <- skipn_skipn, skipn_app, skipn_all, Nat.sub_diag.
  cbn [app skipn]. rewrite skipn_app.
  replace (a - length c)%nat with 0%nat by lia. reflexivity.
Qed.

Lemma skipn_between {A : Type} (cs : list A) (k k' : nat) (c1 : A) :
  (S k <= k')%nat -> nth_error cs k' = Some c1 ->
  skipn (S k) cs = firstn (k' - S k) (skipn (S k) cs) ++ c1 :: skipn (S k') cs.
Proof.
  intros Hk H. rewrite <- (firstn_skipn (k' - S k) (skipn (S k) cs)) at 1.
  f_equal. rewrite skipn_skipn. replace (k' - S k + S k)%nat with k' by lia.
  apply skipn_nth_error. assumption.
Qed.

Lemma firstn_plus {A : Type} (a b : nat) :
  forall l : list A, firstn (a + b) l = firstn a l ++ firstn b (skipn a l).
Proof.
  induction a as [|a IH]; intros l; [reflexivity|].
  destruct l as [|x l]; [rewrite !firstn_nil; reflexivity|].
  simpl. rewrite IH. reflexivity.
Qed.

Lemma firstn_between {A : Type} (cs : list A) (k k' : nat) :
  (S k <= k')%nat ->
  firstn k' cs = firstn (S k) cs ++ firstn (k' - S k) (skipn (S k) cs).
Proof.
  intros Hk. replace k' with (S k + (k' - S k))%nat at 1 by lia.
  apply firstn_plus.
Qed.

Lemma firstn_app_exact {A : Type} (x y : list A) (n : nat) :
  n = length x -> firstn n (x ++ y) = x.
Proof. intros ->. rewrite firstn_app, firstn_all, Nat.sub_diag. cbn. apply app_nil_r. Qed.

Lemma firstn_app_short {A : Type} (x y : list A) (n : nat) :
  (n <= length x)%nat -> firstn n (x ++ y) = firstn n x.
Proof.
  intros H. rewrite firstn_app. replace (n - length x)%nat with 0%nat by lia.
  cbn. apply app_nil_r.
Qed.

Lemma slice_inside {A : Type} (c : list A) (a b : Z) :
  0 <= a <= b -> b <= byteLength c ->
  slice c a (Some b) = firstn (Z.to_nat (b - a)) (skipn (Z.to_nat a) c).
Proof.
  intros Ha Hb. unfold slice, relativeIndex.
  destruct (a <? 0) eqn:E1; [apply Z.ltb_lt in E1; lia|].
  destruct (b <? 0) eqn:E2; [apply Z.ltb_lt in E2; lia|].
  rewrite !Z.min_l by lia. reflexivity.
Qed.

Lemma slice_from {A : Type} (c : list A) (a : Z) :
  0 <= a <= byteLength c -> slice c a None = skipn (Z.to_nat a) c.
Proof.
  intros Ha. unfold slice, relativeIndex.
  destruct (a <? 0) eqn:E1; [apply Z.ltb_lt in E1; lia|].
  rewrite Z.min_l by lia. apply firstn_all2. rewrite length_skipn.
  unfold byteLength in *. lia.
Qed.

Lemma index_app_l {A : Type} (l added : list A) (i : Z) (x : A) :
  index l i = Some x -> index (l ++ added) i = Some x.
Proof.
  unfold index. destruct (i <? 0); [discriminate|]. intros H.
  rewrite nth_error_app1; [assumption|]. apply nth_error_Some. rewrite H. discriminate.
Qed.

Lemma cursor_within (st : DecoderState) (added : list (list byte)) (c : list byte) :
  cursor_ok st -> index (chunks st ++ added) (chunk st) = Some c ->
  cursor st <= byteLength c.
Proof.
  intros (Hc & Hcur & Hin & Hend) Hi.
  destruct (index (chunks st) (chunk st)) as [c0|] eqn:E.
  - rewrite (index_app_l _ added _ _ E) in Hi. injection Hi as <-. apply Hin. reflexivity.
  - assert (chunk st = byteLength (chunks st)).
    { unfold index in E. destruct (chunk st <? 0) eqn:E0; [apply Z.ltb_lt in E0; lia|].
      apply nth_error_None in E. unfold byteLength in *. lia. }
    rewrite (Hend H). apply byteLength_nonneg.
Qed.

(** When [readBytes] returns, it returns the [n] bytes of the source that
    lie at the cursor, wherever the chunk boundaries fall, and the cursor
    has moved past them. *)
Theorem readBytes_exact (n : Z) (blobType : option jsstring)
    (st st' : DecoderState) (d : Data) :
  cursor_ok st ->
  readBytes n blobType st = Return d st' ->
  d = deliver blobType
        (firstn (Z.to_nat n) (skipn (Z.to_nat (position st)) (stream st)))
  /\ stream st' = stream st
  /\ position st' = position st + Z.max 0 n.
Proof.
  intros Hok H. unfold readBytes in H.
  destruct (readLoop (readLoop_fuel st) n 0 st) as [[] st1| e |] eqn:El;
    try discriminate.
  destruct (readLoop_progress _ _ _ _ _ Hok El) as (Hok1 & _ & _).
  destruct (readLoop_exact _ _ _ _ _ Hok El) as (Hst & Hpos & (added & Hadd) & Hch & Hsame).
  rewrite Z.sub_0_r in Hpos.
  pose proof Hok as (Hc & Hcur & _ & _).
  pose proof Hok1 as (Hc1 & Hcur1 & Hin1 & _).
  set (cs := chunks st1) in *.
  set (k := Z.to_nat (chunk st)) in *.
  assert (Hpre : firstn k (chunks st) = firstn k cs).
  { rewrite Hadd, firstn_app.
    replace (k - length (chunks st))%nat with 0%nat
      by (unfold k, byteLength in *; lia).
    cbn [firstn]. rewrite app_nil_r. reflexivity. }
  assert (Hp : Z.to_nat (position st)
               = (length (concat (firstn k cs)) + Z.to_nat (cursor st))%nat).
  { unfold position. fold k. rewrite Hpre. unfold byteLength. lia. }
  assert (Hstream : stream st = concat cs ++ concat (reader st1))
    by (rewrite <- Hst; reflexivity).
  (* the bytes from the cursor on, once the chunk under it is known *)
  assert (Hfrom : forall c, index cs (chunk st) = Some c ->
            cursor st <= byteLength c
            /\ skipn (Z.to_nat (position st)) (stream st)
               = skipn (Z.to_nat (cursor st)) c
                 ++ concat (skipn (S k) cs) ++ concat (reader st1)).
  { intros c Hi.
    assert (Hle : cursor st <= byteLength c)
      by (apply (cursor_within st added c Hok); rewrite <- Hadd; exact Hi).
    split; [assumption|].
    destruct (index_Some _ _ _ Hi) as [_ Hnth]. fold k in Hnth.
    rewrite Hp, Hstream, skipn_app.
    rewrite (skipn_concat_at cs k _ c Hnth) by (unfold byteLength in Hle; lia).
    replace (length (concat (firstn k cs)) + Z.to_nat (cursor st) - length (concat cs))%nat
      with 0%nat.
    - cbn [skipn]. rewrite <- app_assoc. reflexivity.
    - rewrite (concat_split_at cs k c Hnth), !length_app.
      unfold byteLength in Hle. lia. }
  assert (Hgoal : forall bytes,
            bytes = firstn (Z.to_nat n) (skipn (Z.to_nat (position st)) (stream st)) ->
            Return (deliver blobType bytes) st1 = Return d st' ->
            d = deliver blobType
                  (firstn (Z.to_nat n) (skipn (Z.to_nat (position st)) (stream st)))
            /\ stream st' = stream st
            /\ position st' = position st + Z.max 0 n).
  { intros bytes -> Hr. injection Hr as <- <-. repeat split; assumption. }
  destruct (chunk st =? chunk st1) eqn:Ek.
  - (* the read ends in the chunk it started in *)
    apply Z.eqb_eq in Ek.
    destruct (index cs (chunk st)) as [c|] eqn:Ei; [|discriminate].
    destruct (Hfrom c eq_refl) as [Hle Hsk].
    apply (fun E => Hgoal _ E H). clear Hgoal. symmetry.
    assert (Hb : cursor st1 <= byteLength c)
      by (apply Hin1; fold cs; rewrite <- Ek; exact Ei).
    assert (Hn : cursor st1 = cursor st + Z.max 0 n).
    { unfold position in Hpos. rewrite <- Ek in Hpos. fold k cs in Hpos.
      rewrite Hpre in Hpos. lia. }
    rewrite Hsk, slice_inside by lia.
    rewrite firstn_app_short
      by (rewrite length_skipn; unfold byteLength in *; lia).
    f_equal. lia.
  - apply Z.eqb_neq in Ek.
    assert (Hn0 : 0 < n) by (destruct (Z.lt_ge_cases 0 n) as [|Hle]; [assumption|];
                             exfalso; apply Ek; rewrite (Hsame Hle); reflexivity).
    set (k' := Z.to_nat (chunk st1)) in *.
    assert (Hkk : (S k <= k')%nat) by (unfold k, k'; lia).
    destruct ((chunk st =? chunk st1 - 1) && (cursor st1 =? 0)) eqn:Eb.
    + (* the read ends with the chunk it started in *)
      apply andb_prop in Eb. destruct Eb as [Eb1 Eb2].
      apply Z.eqb_eq in Eb1. apply Z.eqb_eq in Eb2.
      destruct (index cs (chunk st)) as [c|] eqn:Ei; [|discriminate].
      destruct (Hfrom c eq_refl) as [Hle Hsk].
      apply (fun E => Hgoal _ E H). clear Hgoal. symmetry.
      destruct (index_Some _ _ _ Ei) as [_ Hnth]. fold k in Hnth.
      assert (Hn : n = byteLength c - cursor st).
      { unfold position in Hpos. fold k k' cs in Hpos. rewrite Hpre in Hpos.
        replace k' with (S k) in Hpos by (unfold k, k'; lia).
        rewrite (firstn_S_nth_error _ _ _ Hnth), concat_app in Hpos. cbn [concat] in Hpos.
        rewrite app_nil_r, byteLength_app in Hpos. lia. }
      rewrite Hsk, slice_from by lia.
      apply firstn_app_exact. rewrite length_skipn. unfold byteLength in *. lia.
    + (* the read runs over a chunk boundary *)
      destruct (index cs (chunk st)) as [c0|] eqn:Ei0; [|discriminate].
      destruct (index cs (chunk st1)) as [c1|] eqn:Ei1; [|discriminate].
      destruct (Hfrom c0 eq_refl) as [Hle Hsk].
      apply (fun E => Hgoal _ E H). clear Hgoal. symmetry.
      destruct (index_Some _ _ _ Ei0) as [_ Hnth0]. fold k in Hnth0.
      destruct (index_Some _ _ _ Ei1) as [Hr1 Hnth1]. fold k' in Hnth1.
      assert (Hb : cursor st1 <= byteLength c1) by (apply Hin1; reflexivity).
      set (middle := firstn (k' - S k) (skipn (S k) cs)).
      assert (Hmid : slice cs (chunk st + 1) (Some (chunk st1)) = middle).
      { rewrite slice_inside by (fold cs in Hr1; lia). unfold middle. f_equal.
        - unfold k, k'. lia.
        - f_equal. unfold k. lia. }
      assert (Hn : n = byteLength c0 - cursor st + byteLength (concat middle) + cursor st1).
      { unfold position in Hpos. fold k k' cs in Hpos. rewrite Hpre in Hpos.
        rewrite (firstn_between cs k k' Hkk), (firstn_S_nth_error _ _ _ Hnth0) in Hpos.
        fold middle in Hpos. rewrite !concat_app in Hpos. cbn [concat] in Hpos.
        rewrite app_nil_r, !byteLength_app in Hpos. lia. }
      rewrite Hsk, Hmid, slice_from, slice_inside by lia.
      rewrite (skipn_between cs k k' c1 Hkk Hnth1). fold middle.
      rewrite concat_app. change (Z.to_nat 0) with 0%nat. cbn [concat skipn].
      rewrite Z.sub_0_r.
      pose proof (byteLength_nonneg (concat middle)) as Hm.
      replace (Z.to_nat n)
        with (length (skipn (Z.to_nat (cursor st)) c0)
              + (length (concat middle) + Z.to_nat (cursor st1)))%nat
        by (rewrite length_skipn; unfold byteLength in *; lia).
      rewrite firstn_app_2, <- !app_assoc, firstn_app_2. f_equal. f_equal.
      apply firstn_app_short. unfold byteLength in Hb. lia.
Qed.

(** The loop of [readBytes] throws only when the source is at its end
    before the bytes asked for are there. *)
Lemma readLoop_throws (fuel : nat) :
  forall (n bytes : Z) (st : DecoderState) (e : DecodeError),
    cursor_ok st ->
    readLoop fuel n bytes st = Throw e ->
    e = UnexpectedEndOfFile
    /\ byteLength (stream st) < position st + (n - bytes).
Proof.
  induction fuel as [|fuel IH]; intros n bytes st e Hok Hrun.
  - cbn [readLoop] in Hrun. destruct (bytes <? n); discriminate.
  - cbn [readLoop] in Hrun. destruct (bytes <? n) eqn:Eb; [|discriminate].
    apply Z.ltb_lt in Eb.
    pose proof Hok as (Hc & Hcur & Hin & Hend).
    destruct (byteLength (chunks st) <=? chunk st) eqn:Ec.
    + apply Z.leb_le in Ec.
      assert (Hce : chunk st = byteLength (chunks st)) by lia.
      specialize (Hend Hce).
      assert (Hn : Z.to_nat (chunk st) = length (chunks st))
        by (unfold byteLength in Hce; lia).
      destruct (reader st) as [|value rest] eqn:Er.
      * injection Hrun as <-. split; [reflexivity|].
        unfold stream, position. rewrite Er, Hn, firstn_all. cbn [concat].
        rewrite app_nil_r. lia.
      * cbn [chunks chunk cursor reader running] in Hrun.
        assert (Hi : index (chunks st ++ [value]) (chunk st) = Some value).
        { unfold index. destruct (chunk st <? 0) eqn:E0; [apply Z.ltb_lt in E0; lia|].
          rewrite Hn, nth_error_app2, Nat.sub_diag by lia. reflexivity. }
        rewrite Hi in Hrun.
        destruct (n <? byteLength value - cursor st + bytes) eqn:En.
        -- rewrite readLoop_done in Hrun by lia. discriminate.
        -- apply Z.ltb_ge in En. apply IH in Hrun.
           ++ destruct Hrun as [He Hlt]. split; [assumption|].
              unfold stream, position in *. cbn [chunks chunk cursor reader running] in Hlt.
              replace (Z.to_nat (chunk st + 1)) with (S (length (chunks st))) in Hlt by lia.
              rewrite firstn_all2 in Hlt by (rewrite length_app; cbn [length]; lia).
              rewrite Er, Hn, firstn_all. rewrite concat_app in Hlt. cbn [concat] in *.
              rewrite app_nil_r, <- app_assoc in Hlt.
              rewrite !byteLength_app in *. lia.
           ++ unfold cursor_ok, index. cbn [chunks chunk cursor reader running].
              rewrite byteLength_app. unfold byteLength at 2 4. cbn [length].
              repeat split; try lia. intros c' _. apply byteLength_nonneg.
    + apply Z.leb_gt in Ec.
      destruct (index (chunks st) (chunk st)) as [c|] eqn:Ei.
      * specialize (Hin c eq_refl). destruct (index_Some _ _ _ Ei) as [_ Hnth].
        destruct (n <? byteLength c - cursor st + bytes) eqn:En.
        -- rewrite readLoop_done in Hrun by lia. discriminate.
        -- apply Z.ltb_ge in En. apply IH in Hrun.
           ++ destruct Hrun as [He Hlt]. split; [assumption|].
              unfold stream, position in *. cbn [chunks chunk cursor reader running] in Hlt.
              replace (Z.to_nat (chunk st + 1)) with (S (Z.to_nat (chunk st))) in Hlt by lia.
              rewrite (firstn_S_nth_error _ _ _ Hnth), concat_app in Hlt.
              cbn [concat] in Hlt. rewrite app_nil_r in Hlt.
              rewrite !byteLength_app in *. lia.
           ++ unfold cursor_ok. cbn [chunks chunk cursor reader running].
              repeat split; try lia. intros c' _. apply byteLength_nonneg.
      * exfalso. unfold index in Ei.
        destruct (chunk st <? 0) eqn:E0; [apply Z.ltb_lt in E0; lia|].
        apply nth_error_None in Ei. unfold byteLength in *. lia.
Qed.

(** [readBytes] throws at the end of the source, or, the bytes being
    there, on a chunk that is not. *)
Lemma readBytes_throws (n : Z) (blobType : option jsstring)
    (st : DecoderState) (e : DecodeError) :
  cursor_ok st ->
  readBytes n blobType st = Throw e ->
  (e = UnexpectedEndOfFile /\ byteLength (stream st) < position st + n)
  \/ e = TypeError.
Proof.
  intros Hok H. unfold readBytes in H.
  destruct (readLoop (readLoop_fuel st) n 0 st) as [[] st1| e' |] eqn:El.
  - right.
    destruct (chunk st =? chunk st1).
    + destruct (index (chunks st1) (chunk st)); [discriminate | congruence].
    + destruct ((chunk st =? chunk st1 - 1) && (cursor st1 =? 0)).
      * destruct (index (chunks st1) (chunk st)); [discriminate | congruence].
      * destruct (index (chunks st1) (chunk st)); [|congruence].
        destruct (index (chunks st1) (chunk st1)); [discriminate | congruence].
  - left. injection H as <-.
    destruct (readLoop_throws _ _ _ _ _ Hok El) as [He Hlt]. split; [assumption | lia].
  - discriminate.
Qed.

(** The read and the check of the header, on a source whose first seven
    bytes are not the magic. *)
Lemma wrong_header_throws (value : list byte) (rest : ByteSource) :
  7 <= byteLength (concat (value :: rest)) ->
  firstn 7 (concat (value :: rest)) <> HEAD ->
  (head <- readBuffer 7 ;; checkHead head) (mkState [value] 0 0 rest true)
  = Throw InvalidHeader
  \/ (head <- readBuffer 7 ;; checkHead head) (mkState [value] 0 0 rest true)
     = Throw TypeError.
Proof.
  intros Hlen Hbad.
  set (st0 := mkState [value] 0 0 rest true).
  assert (Hok0 : cursor_ok st0).
  { unfold cursor_ok, st0, index. cbn [chunks chunk cursor reader running].
    unfold byteLength at 1 3. cbn [length Z.ltb Z.compare Z.to_nat nth_error].
    repeat split; try lia. intros c _. apply byteLength_nonneg. }
  assert (Hs0 : stream st0 = concat (value :: rest)).
  { unfold stream, st0. cbn [chunks reader concat]. rewrite app_nil_r. reflexivity. }
  assert (Hp0 : position st0 = 0) by reflexivity.
  unfold readBuffer, bind.
  destruct (readBytes 7 None st0) as [d st1| e |] eqn:Er.
  - destruct (readBytes_exact _ _ _ _ _ Hok0 Er) as (Hd & _ & _).
    rewrite Hs0, Hp0 in Hd. change (Z.to_nat 0) with 0%nat in Hd.
    cbn [skipn deliver] in Hd. subst d. cbn [ret data_bytes].
    left. unfold checkHead.
    assert (Hl : byteLength (firstn 7 (concat (value :: rest))) = 7).
    { unfold byteLength in *. rewrite length_firstn. lia. }
    change (Z.to_nat 7) with 7%nat. rewrite Hl. change (7 <? 7) with false. cbv iota.
    rewrite firstn_firstn. change (Nat.min 7 7) with 7%nat.
    destruct (every_matches HEAD (firstn 7 (concat (value :: rest)))) eqn:E;
      [|reflexivity].
    apply every_matches_eq in E; [symmetry in E; contradiction|].
    unfold byteLength in Hl. change (length HEAD) with 7%nat. lia.
  - destruct (readBytes_throws _ _ _ _ Hok0 Er) as [[-> Hlt] | ->].
    + exfalso. rewrite Hs0, Hp0 in Hlt. lia.
    + right. reflexivity.
  - exfalso. exact (readBytes_terminates _ _ _ Er).
Qed.

(** X9. On every source of seven bytes or more whose first seven bytes
    are not the magic, cut into chunks in any way, the decoder yields no
    entry and throws: "Invalid AssetBundle header", or the TypeError of a
    read that ends at a chunk boundary. *)
Theorem invalid_header_on_every_source (input : ByteSource) (options : DecodeOptions) :
  7 <= byteLength (concat input) ->
  firstn 7 (concat input) <> HEAD ->
  decodeAssetBundleStream input options = ([], Thrown InvalidHeader)
  \/ decodeAssetBundleStream input options = ([], Thrown TypeError).
Proof.
  intros Hlen Hbad. unfold decodeAssetBundleStream.
  destruct input as [|value rest].
  - exfalso. unfold byteLength in Hlen. cbn in Hlen. lia.
  - destruct (wrong_header_throws value rest Hlen Hbad) as [-> | ->];
      [left | right]; reflexivity.
Qed.

(** * Further properties of the codec *)

(** ** Archives handed over as one chunk *)

Lemma verifies_check (e : Entry) :
  well_formed e -> verifies e -> entry_check true e = None.
Proof.
  intros Hwf [Hty Hd]. rewrite entry_check_verify by assumption.
  destruct (list_eq_dec _ _ _); [reflexivity | contradiction].
Qed.

Lemma verifies_output (e : Entry) :
  resolved_type e <> [] -> entry_output e = entry_blob e.
Proof.
  intros Hty. unfold entry_output, entry_blob, deliver.
  destruct (resolved_type e); [contradiction | reflexivity].
Qed.

Lemma Forall_verifies_check (es : list Entry) :
  Forall well_formed es -> Forall verifies es ->
  Forall (fun e => entry_check true e = None) es.
Proof.
  intros Hwf Hv. induction es as [|e es IH]; constructor.
  - inversion Hwf; inversion Hv; subst. apply verifies_check; assumption.
  - inversion Hwf; inversion Hv; subst. apply IH; assumption.
Qed.

Lemma map_verifies_output (es : list Entry) :
  Forall verifies es -> map entry_output es = map entry_blob es.
Proof.
  intros Hv. induction Hv as [|e es [Hty _] _ IH]; [reflexivity|].
  cbn [map]. rewrite IH, verifies_output by assumption. reflexivity.
Qed.

Lemma decoded_verified (es : list Entry) :
  Forall well_formed es -> Forall verifies es ->
  decoded true es = (map entry_blob es, Done).
Proof.
  intros Hwf Hv.
  pose proof (decoded_checked_prefix true es [] (Forall_verifies_check es Hwf Hv)) as H.
  rewrite app_nil_r in H. rewrite H. cbn [decoded fst snd]. rewrite app_nil_r.
  rewrite map_verifies_output by assumption. reflexivity.
Qed.



(** X2. With [verify: false] the 20 digest bytes are read and not looked
    at: an archive of one or more entries whose lengths fit their
    prefixes, handed over as one chunk, yields every entry, whatever its
    digest bytes are. *)
Theorem digests_are_ignored_without_verify (es : list Entry) :
  es <> [] -> Forall well_formed es ->
  decodeAssetBundleStream [archive_bytes es] (mkOptions (Some false))
  = (map entry_output es, Done).
Proof.
  intros Hne Hwf. rewrite decode_archive by assumption. apply decoded_unverified.
Qed.

Lemma digests_are_ignored_without_verify_witness :
  decodeAssetBundleStream [archive_bytes [bad_digest_entry]] (mkOptions (Some false))
  = (map entry_output [bad_digest_entry], Done).
Proof.
  apply digests_are_ignored_without_verify.
  - discriminate.
  - repeat constructor; vm_compute; try reflexivity; discriminate.
Defined.



(** X4. An entry whose type field is not empty and decodes to the empty
    string (a lone byte order mark does) is not yielded as a [Blob]:
    [readBytes] takes the empty string for [false] and returns the
    [ArrayBuffer]. Without verification the entry is yielded with that
    [ArrayBuffer] as its data; with the default options the digest check
    calls [data.arrayBuffer()] on it and the decoder throws a TypeError
    after the entries before it. *)
Theorem empty_media_type_is_no_blob (es1 es2 : list Entry) (e : Entry) :
  Forall well_formed (es1 ++ e :: es2) -> Forall verifies es1 ->
  resolved_type e = [] ->
  decodeAssetBundleStream [archive_bytes (es1 ++ e :: es2)] no_options
  = (map entry_blob es1, Thrown TypeError)
  /\ decodeAssetBundleStream [archive_bytes (es1 ++ e :: es2)] (mkOptions (Some false))
     = (map entry_output (es1 ++ e :: es2), Done)
  /\ entry_output e
     = mkOutput (TextDecoder_decode (e_name e)) (IsArrayBuffer (e_payload e)).
Proof.
  intros Hwf Hv Hty.
  assert (Hne : es1 ++ e :: es2 <> []) by (destruct es1; discriminate).
  split; [|split].
  - rewrite decode_archive by assumption. cbn [verify_of verify no_options].
    apply Forall_app in Hwf. destruct Hwf as [Hwf1 Hwf2].
    rewrite decoded_checked_prefix by (apply Forall_verifies_check; assumption).
    cbn [decoded]. unfold entry_check. rewrite Hty. cbn [deliver fst snd].
    rewrite app_nil_r, map_verifies_output by assumption. reflexivity.
  - rewrite decode_archive by assumption. apply decoded_unverified.
  - unfold entry_output. rewrite Hty. reflexivity.
Qed.

Lemma empty_media_type_is_no_blob_witness :
  decodeAssetBundleStream [archive_bytes ([hello_entry] ++ bom_entry :: [])] no_options
  = (map entry_blob [hello_entry], Thrown TypeError)
  /\ decodeAssetBundleStream [archive_bytes ([hello_entry] ++ bom_entry :: [])]
       (mkOptions (Some false))
     = (map entry_output ([hello_entry] ++ bom_entry :: []), Done)
  /\ entry_output bom_entry
     = mkOutput (TextDecoder_decode (e_name bom_entry)) (IsArrayBuffer (e_payload bom_entry)).
Proof.
  apply empty_media_type_is_no_blob.
  - repeat constructor; vm_compute; try reflexivity; discriminate.
  - repeat constructor; try reflexivity; vm_compute; discriminate.
  - vm_compute. reflexivity.
Defined.

(** ** Cut archives *)

Lemma truncated_after_an_entry_witness :
  decodeAssetBundleStream
    [firstn (length (archive_bytes [hello_entry]))
            (archive_bytes ([hello_entry] ++ [morning_entry]))] no_options
  = decoded (verify_of no_options) [hello_entry].
Proof.
  apply truncated_after_an_entry.
  - discriminate.
  - repeat constructor; vm_compute; try reflexivity; discriminate.
Defined.

Lemma truncated_inside_an_entry_witness :
  decodeAssetBundleStream
    [archive_bytes [hello_entry] ++ firstn 10 (entry_bytes morning_entry)] no_options
  = (fst (decoded (verify_of no_options) [hello_entry]),
     match snd (decoded (verify_of no_options) [hello_entry]) with
     | Done => Thrown UnexpectedEndOfFile
     | c => c
     end).
Proof.
  apply (truncated_inside_an_entry [hello_entry] morning_entry
           (firstn 10 (entry_bytes morning_entry))
           (skipn 10 (entry_bytes morning_entry))).
  - repeat constructor; vm_compute; try reflexivity; discriminate.
  - repeat split; vm_compute; try reflexivity; discriminate.
  - symmetry. apply firstn_skipn.
  - vm_compute. discriminate.
  - vm_compute. discriminate.
  - vm_compute. discriminate.
  - vm_compute. discriminate.
Defined.

(** ** Every source, whatever its chunks *)

Lemma unread_position (st : DecoderState) :
  unread st = byteLength (stream st) - position st.
Proof.
  unfold unread, stream, position.
  rewrite <- (firstn_skipn (Z.to_nat (chunk st)) (chunks st)) at 2.
  rewrite concat_app, !byteLength_app. lia.
Qed.

Lemma cursor_ok_start (value : list byte) (rest : ByteSource) :
  cursor_ok (mkState [value] 0 0 rest true).
Proof.
  unfold cursor_ok, index. cbn [chunks chunk cursor reader running].
  unfold byteLength at 1 3. cbn [length Z.ltb Z.compare Z.to_nat nth_error].
  repeat split; try lia. intros c _. apply byteLength_nonneg.
Qed.

Lemma unread_start (value : list byte) (rest : ByteSource) :
  unread (mkState [value] 0 0 rest true) = byteLength (concat (value :: rest)).
Proof.
  unfold unread. cbn [chunks chunk cursor reader running Z.to_nat skipn concat].
  rewrite app_nil_r, byteLength_app. lia.
Qed.

(** What one call of [readBytes] comes to. *)
Lemma readBytes_cases (n : Z) (blobType : option jsstring) (st : DecoderState) :
  cursor_ok st ->
  match readBytes n blobType st with
  | Return d st' =>
      d = deliver blobType
            (firstn (Z.to_nat n) (skipn (Z.to_nat (position st)) (stream st)))
      /\ stream st' = stream st
      /\ position st' = position st + Z.max 0 n
      /\ position st' <= byteLength (stream st)
      /\ cursor_ok st'
      /\ running st' = running st
  | Throw e =>
      (e = UnexpectedEndOfFile /\ byteLength (stream st) < position st + n)
      \/ e = TypeError
  | OutOfFuel => False
  end.
Proof.
  intros Hok. destruct (readBytes n blobType st) as [d st'| e |] eqn:E.
  - destruct (readBytes_exact _ _ _ _ _ Hok E) as (Hd & Hs & Hp).
    destruct (readBytes_progress _ _ _ _ _ Hok E) as (Hok' & Hun & Hrun).
    pose proof (unread_nonneg st' Hok') as Hnn.
    rewrite (unread_position st') in Hnn. rewrite Hs in Hnn.
    split; [exact Hd|]. split; [exact Hs|]. split; [exact Hp|].
    split; [lia|]. split; assumption.
  - apply (readBytes_throws _ _ _ _ Hok E).
  - exact (readBytes_terminates _ _ _ E).
Qed.

Lemma readBuffer_cases (n : Z) (st : DecoderState) :
  cursor_ok st -> 0 <= n ->
  match readBuffer n st with
  | Return b st' => byteLength b = n /\ cursor_ok st' /\ running st' = running st
  | Throw e => e = UnexpectedEndOfFile \/ e = TypeError
  | OutOfFuel => False
  end.
Proof.
  intros Hok Hn. unfold readBuffer, bind.
  pose proof (readBytes_cases n None st Hok) as H.
  destruct (readBytes n None st) as [d st'| e |].
  - destruct H as (Hd & Hs & Hp & Hle & Hok' & Hrun). cbn [ret].
    split; [|split; assumption].
    subst d. cbn [deliver data_bytes].
    assert (0 <= position st).
    { destruct Hok as (_ & Hcur & _ & _). unfold position.
      pose proof (byteLength_nonneg (concat (firstn (Z.to_nat (chunk st)) (chunks st)))).
      lia. }
    unfold byteLength in *. rewrite length_firstn, length_skipn. lia.
  - destruct H as [[-> _] | ->]; [left | right]; reflexivity.
  - exact H.
Qed.

(** A read that asks for more than the source still holds throws
    "Unexpected end of file", wherever the chunk boundaries fall. *)
Lemma readBytes_short (n : Z) (blobType : option jsstring) (st : DecoderState) :
  cursor_ok st -> unread st < n ->
  readBytes n blobType st = Throw UnexpectedEndOfFile.
Proof.
  intros Hok Hlt. unfold readBytes.
  destruct (readLoop (readLoop_fuel st) n 0 st) as [[] st1| e |] eqn:El.
  - exfalso. destruct (readLoop_progress _ _ _ _ _ Hok El) as (Hok1 & Hun & _).
    pose proof (unread_nonneg st1 Hok1). lia.
  - destruct (readLoop_throws _ _ _ _ _ Hok El) as [-> _]. reflexivity.
  - exfalso. apply (readLoop_terminates (readLoop_fuel st) n 0 st);
      [unfold readLoop_fuel; lia | exact El].
Qed.

(** X7. [readBytes(n, blobType)], called with the cursor in the chunks
    read so far, on a source cut into chunks in any way: when the source
    holds fewer than [n] bytes from the cursor on, it throws "Unexpected
    end of file"; otherwise it returns the [n] bytes of the source that
    lie at the cursor (as a [Blob] of type [blobType], or as an
    [ArrayBuffer] when [blobType] is [false] or empty) and leaves the
    cursor [n] bytes further on, or it throws a TypeError. *)
Theorem readBytes_specification (n : Z) (blobType : option jsstring) (st : DecoderState) :
  cursor_ok st ->
  if unread st <? n then readBytes n blobType st = Throw UnexpectedEndOfFile
  else
    readBytes n blobType st = Throw TypeError
    \/ exists st',
         readBytes n blobType st
         = Return (deliver blobType
                     (firstn (Z.to_nat n) (skipn (Z.to_nat (position st)) (stream st))))
                  st'
         /\ stream st' = stream st
         /\ position st' = position st + Z.max 0 n
         /\ cursor_ok st'.
Proof.
  intros Hok. destruct (unread st <? n) eqn:E.
  - apply Z.ltb_lt in E. apply readBytes_short; assumption.
  - apply Z.ltb_ge in E. pose proof (readBytes_cases n blobType st Hok) as C.
    destruct (readBytes n blobType st) as [d st'| e |].
    + right. exists st'. destruct C as (-> & Hs & Hp & _ & Hok' & _).
      split; [reflexivity|]. split; [assumption|]. split; assumption.
    + left. destruct C as [[_ Hlt] | ->]; [|reflexivity].
      exfalso. rewrite unread_position in E. lia.
    + contradiction.
Qed.

Lemma readBytes_specification_witness :
  readBytes 2 None (mkState [[Byte.x01; Byte.x02; Byte.x03]] 0 0 [] true)
  = Throw TypeError
  \/ exists st',
       readBytes 2 None (mkState [[Byte.x01; Byte.x02; Byte.x03]] 0 0 [] true)
       = Return (IsArrayBuffer [Byte.x01; Byte.x02]) st'
       /\ stream st' = [Byte.x01; Byte.x02; Byte.x03]
       /\ position st' = 2
       /\ cursor_ok st'.
Proof.
  apply (readBytes_specification 2 None
           (mkState [[Byte.x01; Byte.x02; Byte.x03]] 0 0 [] true)).
  apply cursor_ok_start.
Defined.

(** X8. A source that holds fewer than seven bytes in all, in whatever
    chunks (none included), yields nothing and ends in "Unexpected end of
    file". *)
Theorem source_shorter_than_the_header (input : ByteSource) (options : DecodeOptions) :
  byteLength (concat input) < 7 ->
  decodeAssetBundleStream input options = ([], Thrown UnexpectedEndOfFile).
Proof.
  intros Hlt. unfold decodeAssetBundleStream.
  destruct input as [|value rest]; [reflexivity|].
  unfold bind, readBuffer, bind.
  rewrite readBytes_short; [reflexivity | apply cursor_ok_start |].
  rewrite unread_start. exact Hlt.
Qed.

Lemma source_shorter_than_the_header_witness :
  decodeAssetBundleStream [[Byte.x42; Byte.x55]; [Byte.x4e]] no_options
  = ([], Thrown UnexpectedEndOfFile).
Proof.
  apply source_shorter_than_the_header. vm_compute. reflexivity.
Defined.

Lemma invalid_header_on_every_source_witness :
  decodeAssetBundleStream split_bad_header no_options = ([], Thrown InvalidHeader)
  \/ decodeAssetBundleStream split_bad_header no_options = ([], Thrown TypeError).
Proof.
  apply invalid_header_on_every_source.
  - vm_compute. discriminate.
  - vm_compute. discriminate.
Defined.

Lemma chunk_after_an_entry_is_lost_witness :
  decodeAssetBundleStream [archive_bytes [hello_entry]; entry_bytes morning_entry]
    no_options
  = (fst (decoded (verify_of no_options) [hello_entry]),
     match snd (decoded (verify_of no_options) [hello_entry]) with
     | Done => Thrown UnexpectedEndOfFile
     | c => c
     end).
Proof.
  apply chunk_after_an_entry_is_lost.
  - discriminate.
  - repeat constructor; vm_compute; try reflexivity; discriminate.
Defined.

(** *** The errors of the decoder *)

Ltac read_step H b st1 Hlen Hok1 Hrun1 :=
  match goal with
  | |- context [bind (readBuffer ?n) _ ?st] =>
      let C := fresh "C" in
      pose proof (readBuffer_cases n st H ltac:(lia)) as C;
      unfold bind at 1;
      destruct (readBuffer n st) as [b st1| ?e |];
      [ destruct C as (Hlen & Hok1 & Hrun1)
      | destruct C as [-> | ->]; exact I
      | contradiction ]
  end.

Lemma two_bytes (b : list byte) (st : DecoderState) :
  byteLength b = 2 ->
  exists v, 0 <= v /\ Uint16Array_first b st = Return v st.
Proof.
  intros H. destruct b as [|x [|y [|z r]]]; try (cbn in H; lia).
  exists (byte_val x + 256 * byte_val y). split; [|reflexivity].
  pose proof (byte_val_range x). pose proof (byte_val_range y). lia.
Qed.

Lemma four_bytes (b : list byte) (st : DecoderState) :
  byteLength b = 4 ->
  exists v, 0 <= v /\ Uint32Array_first b st = Return v st.
Proof.
  intros H. destruct b as [|x [|y [|z [|w [|q r]]]]]; try (cbn in H; lia).
  exists (byte_val x + 256 * byte_val y + 65536 * byte_val z + 16777216 * byte_val w).
  split; [|reflexivity].
  pose proof (byte_val_range x). pose proof (byte_val_range y).
  pose proof (byte_val_range z). pose proof (byte_val_range w). lia.
Qed.

(** One turn of the entry loop: every typed array is built over a buffer
    of its size, so the turn returns or throws at the end of the source,
    on a missing chunk, or on a digest. *)
Lemma readEntry_cases (v : bool) (st : DecoderState) :
  cursor_ok st ->
  match readEntry v st with
  | Return _ st' => cursor_ok st' /\ running st' = running st
  | Throw e => entry_error v e
  | OutOfFuel => False
  end.
Proof.
  intros Hok. unfold readEntry.
  read_step Hok b1 st1 Hl1 Hok1 Hr1.
  destruct (two_bytes b1 st1 Hl1) as (nameLength & Hn & E1).
  unfold bind at 1. rewrite E1.
  read_step Hok1 b2 st2 Hl2 Hok2 Hr2.
  read_step Hok2 b3 st3 Hl3 Hok3 Hr3.
  destruct (two_bytes b3 st3 Hl3) as (typeLength & Ht & E3).
  unfold bind at 1. rewrite E3.
  assert (Hty : exists type st4,
             (if typeLength =? 0 then ret (js "application/octet-stream")
              else b <- readBuffer typeLength ;; ret (TextDecoder_decode b)) st3
             = Return type st4 /\ cursor_ok st4 /\ running st4 = running st3
          \/ exists e,
             (if typeLength =? 0 then ret (js "application/octet-stream")
              else b <- readBuffer typeLength ;; ret (TextDecoder_decode b)) st3
             = Throw e /\ (e = UnexpectedEndOfFile \/ e = TypeError)).
  { destruct (typeLength =? 0).
    - exists (js "application/octet-stream"), st3. left.
      split; [reflexivity | split; [assumption | reflexivity]].
    - pose proof (readBuffer_cases typeLength st3 Hok3 Ht) as C. unfold bind.
      destruct (readBuffer typeLength st3) as [b st4| e |].
      + exists (TextDecoder_decode b), st4. left. destruct C as (_ & ? & ?).
        split; [reflexivity | split; assumption].
      + exists [], st3. right. exists e. split; [reflexivity | assumption].
      + contradiction. }
  destruct Hty as (type & st4 & [(Ety & Hok4 & Hr4) | (e & Ety & He)]);
    unfold bind at 1; rewrite Ety; [| destruct He as [-> | ->]; exact I].
  read_step Hok4 b5 st5 Hl5 Hok5 Hr5.
  destruct (four_bytes b5 st5 Hl5) as (size & Hs & E5).
  unfold bind at 1. rewrite E5.
  pose proof (readBytes_cases size (Some type) st5 Hok5) as C.
  unfold bind at 1.
  destruct (readBytes size (Some type) st5) as [data st6| e |];
    [| destruct C as [[-> _] | ->]; exact I | contradiction].
  destruct C as (_ & _ & _ & _ & Hok6 & Hr6).
  read_step Hok6 b7 st7 Hl7 Hok7 Hr7.
  unfold bind, ret, throw.
  destruct v.
  - destruct data as [blob|buf]; [|exact I].
    destruct (every_matches b7 (sha1 (blob_bytes blob))); [|reflexivity].
    split; [assumption | congruence].
  - split; [assumption | congruence].
Qed.

Lemma entryLoop_cases (fuel : nat) :
  forall (v : bool) (st : DecoderState),
    cursor_ok st -> (Z.to_nat (unread st) < fuel)%nat ->
    match snd (entryLoop fuel v st) with
    | Done => True
    | Thrown e => entry_error v e
    | Diverged => False
    end.
Proof.
  induction fuel as [|fuel IH]; intros v st Hok Hfuel; [lia|].
  cbn [entryLoop]. destruct (running st); [|exact I].
  destruct (consumes_readEntry v st Hok) as [_ Hr].
  pose proof (readEntry_cases v st Hok) as C.
  destruct (readEntry v st) as [file st1| e |]; [| exact C | contradiction].
  destruct (Hr file st1 eq_refl) as (Hok1 & Hun1 & _).
  destruct (maybeReadMore_progress st1 Hok1) as (st2 & Hm & Hok2 & Hun2).
  rewrite Hm.
  pose proof (unread_nonneg st2 Hok2) as Hnn.
  specialize (IH v st2 Hok2 ltac:(lia)).
  destruct (entryLoop fuel v st2) as [files c]. exact IH.
Qed.

(** X11. On every source, cut into chunks in any way, and with every
    option, the streaming decoder comes to an end, and it ends in one of
    these ways only: the generator returns, or it throws "Unexpected end
    of file", "Invalid AssetBundle header", "Hash mismatch" (only when it
    verifies) or a TypeError. The typed arrays it builds over the buffers
    it has read always fit them. *)
Theorem decoder_ends_as_the_source_says (input : ByteSource) (options : DecodeOptions) :
  expected_end (verify_of options) (snd (decodeAssetBundleStream input options)).
Proof.
  unfold decodeAssetBundleStream. fold (verify_of options).
  destruct input as [|value rest]; [exact I|].
  set (st0 := mkState [value] 0 0 rest true).
  pose proof (cursor_ok_start value rest) as Hok0. fold st0 in Hok0.
  pose proof (unread_start value rest) as Hun0. fold st0 in Hun0.
  pose proof (readBuffer_cases 7 st0 Hok0 ltac:(lia)) as C.
  pose proof (consumes_readBuffer 7 st0 Hok0) as [_ Hr].
  unfold bind.
  destruct (readBuffer 7 st0) as [head st1| e |];
    [| destruct C as [-> | ->]; exact I | contradiction].
  destruct C as (Hl & Hok1 & _).
  destruct (Hr head st1 eq_refl) as (_ & Hun1 & _).
  unfold checkHead. rewrite Hl. change (7 <? 7) with false. cbv iota.
  destruct (negb (every_matches HEAD (firstn 7 head))); [exact I|].
  unfold ret.
  pose proof (entryLoop_cases (S (length (concat (value :: rest)))) (verify_of options)
                st1 Hok1) as E.
  pose proof (unread_nonneg st1 Hok1).
  unfold byteLength in Hun0.
  specialize (E ltac:(lia)).
  destruct (snd (entryLoop _ _ st1)) as [|e|]; [exact I | | contradiction].
  destruct e; cbn in *; try exact I; try assumption; contradiction.
Qed.

(** ** The encoder: success, errors and size *)

Lemma convertible_stored (file : AssetBundleInput) :
  convertible file <-> stored file <> None.
Proof.
  unfold convertible, stored, resolve. destruct file as [nm ty dt].
  cbn [data type name]. destruct dt as [s|b o l|b o l|b|b|b]; try destruct ty as [t|];
    cbn [type_value]; split; intros H; try discriminate; try reflexivity;
    try exact I; try contradiction; exfalso; apply H; reflexivity.
Qed.

Lemma unconvertible_stored (file : AssetBundleInput) :
  unconvertible file <-> stored file = None.
Proof.
  unfold unconvertible, stored, resolve. destruct file as [nm ty dt].
  cbn [data type name]. destruct dt as [s|b o l|b o l|b|b|b]; try destruct ty as [t|];
    cbn [type_value]; split; intros H; try discriminate; try reflexivity;
    try exact I; try contradiction; exfalso; apply H; reflexivity.
Qed.

Lemma written_Ok (files : list AssetBundleInput) :
  forall (seen : list jsstring) (es : list Entry),
    written files seen = Ok es ->
    NoDup (map name files)
    /\ (forall n, In n (map name files) -> ~ In n seen)
    /\ Forall2 (fun f e => stored f = Some e) files es.
Proof.
  induction files as [|file files IH]; intros seen es H.
  - injection H as <-. repeat split; [constructor | intros n [] | constructor].
  - cbn [written] in H.
    destruct (existsb (jsstring_eqb (name file)) seen) eqn:Es; [discriminate|].
    destruct (stored file) as [e|] eqn:Est; [|discriminate].
    destruct (written files (name file :: seen)) as [es'|err] eqn:Ew; [|discriminate].
    injection H as <-. destruct (IH _ _ Ew) as (Hnd & Hseen & Hf2).
    assert (Hnot : ~ In (name file) seen).
    { intros Hin. apply seen_has in Hin. congruence. }
    repeat split.
    + cbn [map]. constructor; [|assumption].
      intros Hin. apply (Hseen _ Hin). left. reflexivity.
    + cbn [map]. intros n [<-|Hin]; [assumption|].
      intros Hs. apply (Hseen n Hin). right. assumption.
    + constructor; assumption.
Qed.

Lemma written_unconvertible (file : AssetBundleInput) (after : list AssetBundleInput)
    (before : list AssetBundleInput) :
  forall seen : list jsstring,
    NoDup (map name (before ++ [file])) ->
    (forall n, In n (map name (before ++ [file])) -> ~ In n seen) ->
    Forall (fun f => stored f <> None) before ->
    stored file = None ->
    written (before ++ file :: after) seen = Err (CouldNotConvert (name file)).
Proof.
  induction before as [|b before IH]; intros seen Hnd Hseen Hst Hun.
  - cbn [app written]. rewrite seen_has_not by (apply Hseen; left; reflexivity).
    rewrite Hun. reflexivity.
  - cbn [app map] in *. inversion Hnd as [|? ? Hnotin Hnd']; subst.
    inversion Hst as [|? ? Hb Hst']; subst.
    cbn [written]. rewrite seen_has_not by (apply Hseen; left; reflexivity).
    destruct (stored b) as [e|]; [|contradiction].
    rewrite (IH (name b :: seen) Hnd'); try assumption; [reflexivity|].
    intros n Hn [Heq|Hn']; [subst n; contradiction|].
    apply (Hseen n); [right; assumption | assumption].
Qed.

Lemma Forall_convertible_stored (files : list AssetBundleInput) :
  Forall convertible files <-> Forall (fun f => stored f <> None) files.
Proof.
  split; intros H; induction H; constructor; try assumption;
    apply convertible_stored; assumption.
Qed.

Lemma Forall2_stored_convertible (files : list AssetBundleInput) (es : list Entry) :
  Forall2 (fun f e => stored f = Some e) files es -> Forall convertible files.
Proof.
  intros H. induction H as [|f e files es Hs _ IH]; constructor; [|assumption].
  apply convertible_stored. rewrite Hs. discriminate.
Qed.

(** X12. [encodeAssetBundle] returns an archive exactly when no name
    occurs twice in the list and every payload is one it can turn into an
    [ArrayBuffer]: a string, a [Uint8Array] over an [ArrayBuffer], an
    [ArrayBuffer], or a [Blob] given without a media type. A
    [SharedArrayBuffer], a [Uint8Array] over one, and a [Blob] given
    together with a media type, make it throw; no length makes it
    throw. *)
Theorem encoding_succeeds_iff (files : list AssetBundleInput) :
  (exists archive, encodeAssetBundle files = Ok archive)
  <-> NoDup (map name files) /\ Forall convertible files.
Proof.
  split.
  - intros [archive H]. rewrite encodeAssetBundle_written in H.
    destruct (written files []) as [es|err] eqn:Ew; [|discriminate].
    destruct (written_Ok _ _ _ Ew) as (Hnd & _ & Hf2).
    split; [assumption|]. apply (Forall2_stored_convertible files es Hf2).
  - intros [Hnd Hc]. apply Forall_convertible_stored in Hc.
    destruct (encode_unique_resolved files Hnd Hc) as (es & He & _).
    eexists. exact He.
Qed.

Lemma stored_size (file : AssetBundleInput) (e : Entry) :
  stored file = Some e -> byteLength (entry_bytes e) = entry_size e.
Proof.
  intros H. destruct (stored_Some file e H) as (b & ty & _ & ->).
  rewrite entry_bytes_length. unfold entry_size.
  cbn [e_name e_type e_payload e_digest]. rewrite sha1_length. lia.
Qed.

(** X13. The size of an archive: 7 bytes of header and, for every file,
    28 bytes (two 16-bit lengths, one 32-bit length, the digest) and the
    bytes of its encoded name, of its encoded media type and of its
    resolved payload, also when a length does not fit its prefix. *)
Theorem archive_size (files : list AssetBundleInput) (archive : Blob) :
  encodeAssetBundle files = Ok archive ->
  exists es,
    Forall2 (fun f e => stored f = Some e) files es
    /\ byteLength (blob_bytes archive) = 7 + total (map entry_size es).
Proof.
  intros H. rewrite encodeAssetBundle_written in H.
  destruct (written files []) as [es|err] eqn:Ew; [|discriminate].
  injection H as <-. destruct (written_Ok _ _ _ Ew) as (_ & _ & Hf2).
  exists es. split; [assumption|]. cbn [blob_bytes]. unfold archive_bytes.
  rewrite byteLength_app. change (byteLength HEAD) with 7. f_equal.
  clear Ew. induction Hf2 as [|f e files es Hs _ IH]; [reflexivity|].
  cbn [flat_map map total fold_right]. rewrite byteLength_app, (stored_size f e Hs).
  fold (total (map entry_size es)). rewrite IH. reflexivity.
Qed.

Lemma archive_size_witness :
  exists es,
    Forall2 (fun f e => stored f = Some e) test_files es
    /\ byteLength (blob_bytes (mkBlob test_archive (js "application/asset-bundle")))
       = 7 + total (map entry_size es).
Proof.
  apply archive_size. vm_compute. reflexivity.
Defined.

Lemma Forall2_stored_eq (files : list AssetBundleInput) (es es' : list Entry) :
  Forall2 (fun f e => stored f = Some e) files es ->
  Forall2 (fun f e => stored f = Some e) files es' ->
  es = es'.
Proof.
  intros H. revert es'. induction H as [|f e files es Hs _ IH]; intros es' H';
    inversion H' as [|? e' ? es'' Hs' H'']; subst; [reflexivity|].
  f_equal; [congruence | apply IH; assumption].
Qed.

Lemma stored_digest (file : AssetBundleInput) (e : Entry) :
  stored file = Some e -> e_digest e = sha1 (e_payload e).
Proof.
  intros H. destruct (stored_Some file e H) as (b & ty & _ & ->). reflexivity.
Qed.

(** X14. What the encoder writes, the decoder accepts: for a list that is
    not empty, with unique names, whose stored entries have lengths that
    fit their prefixes and media types that do not decode to the empty
    string, the archive, handed over as one chunk and decoded with
    verification, yields every stored entry and no "Hash mismatch"; this
    holds for views into a larger buffer and for [Blob] payloads as well:
    the digest is taken of the bytes that are written. *)
Theorem encoded_archive_passes_verification (files : list AssetBundleInput)
    (es : list Entry) :
  files <> [] -> NoDup (map name files) ->
  Forall2 (fun f e => stored f = Some e) files es ->
  Forall well_formed es -> Forall (fun e => resolved_type e <> []) es ->
  exists archive,
    encodeAssetBundle files = Ok archive
    /\ decodeAssetBundleStream [blob_bytes archive] no_options
       = (map entry_blob es, Done).
Proof.
  intros Hne Hnd Hf2 Hwf Hty.
  destruct (encode_unique_resolved files Hnd) as (es' & He & Hf2').
  { apply Forall_convertible_stored. apply (Forall2_stored_convertible files es Hf2). }
  rewrite (Forall2_stored_eq _ _ _ Hf2' Hf2) in He.
  eexists. split; [exact He|]. cbn [blob_bytes].
  assert (Hes : es <> []).
  { intros ->. inversion Hf2. subst. contradiction. }
  rewrite decode_archive by assumption. apply decoded_verified; [assumption|].
  clear He Hf2' Hes Hne Hnd Hwf.
  induction Hf2 as [|f e files es Hs _ IH]; [constructor|].
  inversion Hty; subst. constructor; [|apply IH; assumption].
  split; [assumption | apply (stored_digest f e Hs)].
Qed.

Lemma encoded_archive_passes_verification_witness :
  exists archive,
    encodeAssetBundle mixed_files = Ok archive
    /\ decodeAssetBundleStream [blob_bytes archive] no_options
       = (map entry_blob
            [ mkEntry (TextEncoder_encode (js "blob"))
                      (TextEncoder_encode (js "[object ArrayBuffer]"))
                      [Byte.x78] (sha1 [Byte.x78]);
              mkEntry (TextEncoder_encode (js "view"))
                      (TextEncoder_encode (js "text/plain"))
                      [Byte.x01; Byte.x02; Byte.x03; Byte.x04]
                      (sha1 [Byte.x01; Byte.x02; Byte.x03; Byte.x04]) ], Done).
Proof.
  apply encoded_archive_passes_verification.
  - discriminate.
  - repeat constructor; cbn; intuition discriminate.
  - repeat constructor.
  - repeat constructor; vm_compute; try reflexivity; discriminate.
  - repeat constructor; vm_compute; discriminate.
Defined.

(** X15. A payload that is a [SharedArrayBuffer], a [Uint8Array] over
    one, or a [Blob] given together with a media type, is rejected with
    "Could not convert" and
    the name of its file, when the files before it have names of their
    own and payloads that convert, and its name is not one of theirs;
    the files behind it are not looked at. *)
Theorem unconvertible_payload_is_rejected (before after : list AssetBundleInput)
    (file : AssetBundleInput) :
  NoDup (map name (before ++ [file])) -> Forall convertible before ->
  unconvertible file ->
  encodeAssetBundle (before ++ file :: after) = Err (CouldNotConvert (name file)).
Proof.
  intros Hnd Hc Hun. rewrite encodeAssetBundle_written.
  rewrite (written_unconvertible file after before []); try assumption;
    [reflexivity | intros n _ [] | apply Forall_convertible_stored; assumption
    | apply unconvertible_stored; assumption].
Qed.

Lemma unconvertible_payload_is_rejected_witness :
  encodeAssetBundle
    ([mkInput (js "a") None (DataString (js "x"))]
     ++ blob_with_type :: [mkInput (js "a") None (DataString (js "y"))])
  = Err (CouldNotConvert (name blob_with_type)).
Proof.
  apply (unconvertible_payload_is_rejected
           [mkInput (js "a") None (DataString (js "x"))]
           [mkInput (js "a") None (DataString (js "y"))]
           blob_with_type).
  - repeat constructor; cbn; intuition discriminate.
  - repeat constructor.
  - cbn. discriminate.
Defined.

(** ** The map of [decodeAssetBundle] *)

Lemma jsstring_eqb_refl (a : jsstring) : jsstring_eqb a a = true.
Proof. apply jsstring_eqb_eq. reflexivity. Qed.

Lemma Map_get_set (m : list (jsstring * Data)) (k k' : jsstring) (v : Data) :
  Map_get (Map_set m k v) k' = if jsstring_eqb k' k then Some v else Map_get m k'.
Proof.
  induction m as [|[k0 v0] m IH]; cbn [Map_set Map_get]; [reflexivity|].
  destruct (jsstring_eqb k k0) eqn:E.
  - apply jsstring_eqb_eq in E. subst k0. cbn [Map_get].
    destruct (jsstring_eqb k' k); reflexivity.
  - cbn [Map_get]. rewrite IH.
    destruct (jsstring_eqb k' k0) eqn:E0; [|reflexivity].
    apply jsstring_eqb_eq in E0. subst k0.
    destruct (jsstring_eqb k' k) eqn:E1; [|reflexivity].
    apply jsstring_eqb_eq in E1. subst k'. rewrite jsstring_eqb_refl in E. discriminate.
Qed.

Lemma Map_set_keys (m : list (jsstring * Data)) (k : jsstring) (v : Data) :
  map fst (Map_set m k v)
  = if existsb (jsstring_eqb k) (map fst m) then map fst m else map fst m ++ [k].
Proof.
  induction m as [|[k0 v0] m IH]; cbn [Map_set map fst existsb]; [reflexivity|].
  destruct (jsstring_eqb k k0) eqn:E.
  - apply jsstring_eqb_eq in E. subst k0. reflexivity.
  - cbn [map fst orb]. rewrite IH.
    destruct (existsb (jsstring_eqb k) (map fst m)); reflexivity.
Qed.

Lemma Map_set_NoDup (m : list (jsstring * Data)) (k : jsstring) (v : Data) :
  NoDup (map fst m) -> NoDup (map fst (Map_set m k v)).
Proof.
  intros H. rewrite Map_set_keys.
  destruct (existsb (jsstring_eqb k) (map fst m)) eqn:E; [assumption|].
  apply NoDup_app; [assumption | repeat constructor; intros [] |].
  intros n Hn [<-|[]]. apply seen_has in Hn. congruence.
Qed.

Lemma find_append {A : Type} (f : A -> bool) (l1 l2 : list A) :
  find f (l1 ++ l2) = match find f l1 with
                      | Some x => Some x
                      | None => find f l2
                      end.
Proof.
  induction l1 as [|a l1 IH]; cbn [app find]; [reflexivity|].
  destruct (f a); [reflexivity | exact IH].
Qed.

Lemma collected (files : list AssetBundleOutput) :
  forall m : list (jsstring * Data),
    NoDup (map fst m) ->
    let m' := fold_left (fun map file => Map_set map (out_name file) (out_data file))
                        files m in
    NoDup (map fst m')
    /\ forall k, Map_get m' k
                 = match last_named k files with
                   | Some d => Some d
                   | None => Map_get m k
                   end.
Proof.
  induction files as [|file files IH]; intros m Hnd; cbn [fold_left].
  - split; [assumption | reflexivity].
  - destruct (IH (Map_set m (out_name file) (out_data file))
                 (Map_set_NoDup _ _ _ Hnd)) as [Hnd' Hget].
    split; [exact Hnd'|]. intros k. rewrite Hget.
    unfold last_named. cbn [rev]. rewrite find_append.
    destruct (find (fun f => jsstring_eqb k (out_name f)) (rev files)) as [f|];
      [reflexivity|].
    cbn [find option_map]. rewrite Map_get_set.
    destruct (jsstring_eqb k (out_name file)); reflexivity.
Qed.

(** X16. [decodeAssetBundle] does not reject an archive in which a name
    occurs more than once: for an archive of one or more entries that
    verify, handed over as one chunk, it resolves to a map with one key
    per name, and under every name the map holds the [Blob] of the last
    entry that has it. *)
Theorem map_keeps_the_last_entry_of_a_name (es : list Entry) :
  es <> [] -> Forall well_formed es -> Forall verifies es ->
  exists m,
    decodeAssetBundle [archive_bytes es] = Resolved m
    /\ NoDup (map fst m)
    /\ forall k, Map_get m k = last_named k (map entry_blob es).
Proof.
  intros Hne Hwf Hv. unfold decodeAssetBundle.
  rewrite decode_archive by assumption. cbn [verify_of verify no_options].
  rewrite decoded_verified by assumption.
  destruct (collected (map entry_blob es) [] (NoDup_nil _)) as [Hnd Hget].
  eexists. split; [reflexivity|]. split; [exact Hnd|].
  intros k. rewrite Hget. destruct (last_named k (map entry_blob es)); reflexivity.
Qed.

Lemma map_keeps_the_last_entry_of_a_name_witness :
  exists m,
    decodeAssetBundle [archive_bytes [hello_entry; twice_entry]] = Resolved m
    /\ NoDup (map fst m)
    /\ forall k, Map_get m k = last_named k (map entry_blob [hello_entry; twice_entry]).
Proof.
  apply map_keeps_the_last_entry_of_a_name.
  - discriminate.
  - repeat constructor; vm_compute; try reflexivity; discriminate.
  - repeat constructor; try reflexivity; vm_compute; discriminate.
Defined.

(** ** Chunks that end inside fields *)


Lemma In_boundaries (cs : ByteSource) (b : Z) :
  In b (boundaries cs)
  <-> exists j, (1 <= j <= length cs)%nat /\ b = byteLength (concat (firstn j cs)).
Proof.
  unfold boundaries. rewrite in_map_iff. split.
  - intros (j & <- & Hin). apply in_seq in Hin. exists j. split; [lia | reflexivity].
  - intros (j & Hj & ->). exists j. split; [reflexivity|]. apply in_seq. lia.
Qed.

Lemma reading_cursor_ok (cs : ByteSource) (st : DecoderState) :
  reading cs st -> cursor_ok st.
Proof.
  intros (Hcs & Hlen & (c & Hi & Hc) & Hrun). unfold cursor_ok.
  pose proof (byteLength_nonneg (chunks st)).
  destruct (index_Some _ _ _ Hi) as [Hr _].
  repeat split; try lia.
  intros c' Hi'. rewrite Hi in Hi'. injection Hi' as <-. lia.
Qed.

Lemma reading_fetched (cs : ByteSource) (st : DecoderState) :
  reading cs st -> fetched cs st.
Proof.
  intros (Hcs & Hlen & (c & Hi & Hc) & Hrun). repeat split; try assumption; try lia.
  intros c' Hi'. rewrite Hi in Hi'. injection Hi' as <-. lia.
Qed.

(** The loop of [readBytes] fetches a chunk only when the cursor has
    reached it. *)
Lemma readLoop_fetched (cs : ByteSource) (fuel : nat) :
  Forall (fun c => c <> []) cs ->
  forall (n bytes : Z) (st st' : DecoderState),
    cursor_ok st -> fetched cs st ->
    readLoop fuel n bytes st = Return tt st' ->
    fetched cs st'.
Proof.
  intros Hne.
  induction fuel as [|fuel IH]; intros n bytes st st' Hok Hf Hrun.
  - cbn [readLoop] in Hrun. destruct (bytes <? n); [discriminate|].
    injection Hrun as <-. assumption.
  - cbn [readLoop] in Hrun. destruct (bytes <? n) eqn:Eb.
    2:{ injection Hrun as <-. assumption. }
    apply Z.ltb_lt in Eb.
    destruct Hf as (Hcs & Hlen & Hstrict).
    pose proof Hok as (Hc & Hcur & Hin & Hend).
    assert (Hfetch : exists st1,
               (if byteLength (chunks st) <=? chunk st
                then match reader st with
                     | [] => None
                     | value :: rest =>
                         Some (mkState (chunks st ++ [value]) (chunk st) (cursor st) rest
                                       (running st))
                     end
                else Some st) = Some st1
               /\ cursor_ok st1 /\ fetched cs st1
               /\ chunk st1 < byteLength (chunks st1)).
    { destruct (byteLength (chunks st) <=? chunk st) eqn:Ec.
      - destruct (reader st) as [|value rest] eqn:Er; [discriminate|].
        eexists. split; [reflexivity|].
        apply Z.leb_le in Ec.
        assert (Hce : chunk st = byteLength (chunks st)) by lia.
        specialize (Hend Hce).
        assert (Hn : Z.to_nat (chunk st) = length (chunks st))
          by (unfold byteLength in Hce; lia).
        assert (Hv : value <> []).
        { rewrite Forall_forall in Hne. apply Hne. rewrite <- Hcs.
          apply in_or_app. right. left. reflexivity. }
        assert (Hix : index (chunks st ++ [value]) (chunk st) = Some value).
        { unfold index. destruct (chunk st <? 0) eqn:E0; [apply Z.ltb_lt in E0; lia|].
          rewrite Hn, nth_error_app2, Nat.sub_diag by lia. reflexivity. }
        split; [|split].
        + unfold cursor_ok. cbn [chunks chunk cursor reader running].
          rewrite byteLength_app. unfold byteLength at 2 4. cbn [length].
          repeat split; try lia.
          intros c Hi. rewrite Hix in Hi. injection Hi as <-. rewrite Hend.
          apply byteLength_nonneg.
        + unfold fetched. cbn [chunks chunk cursor reader running].
          rewrite byteLength_app. unfold byteLength at 2. cbn [length].
          rewrite <- app_assoc. cbn [app]. repeat split; try assumption; try lia.
          intros c Hi. rewrite Hix in Hi. injection Hi as <-. rewrite Hend.
          apply byteLength_pos. assumption.
        + cbn [chunks chunk]. rewrite byteLength_app. unfold byteLength at 2.
          cbn [length]. lia.
      - exists st. apply Z.leb_gt in Ec.
        split; [reflexivity|]. split; [assumption|]. split; [|assumption].
        repeat split; assumption. }
    destruct Hfetch as (st1 & Hfe & Hok1 & Hf1 & Hlt1). rewrite Hfe in Hrun. clear Hfe.
    destruct (index (chunks st1) (chunk st1)) as [c|] eqn:Ei; [|discriminate].
    destruct Hf1 as (Hcs1 & Hlen1 & Hstrict1).
    pose proof Hok1 as (Hc1 & Hcur1 & Hin1 & Hend1).
    specialize (Hin1 c Ei).
    destruct (n <? byteLength c - cursor st1 + bytes) eqn:En.
    + apply Z.ltb_lt in En. rewrite readLoop_done in Hrun by lia.
      injection Hrun as <-. unfold fetched. cbn [chunks chunk cursor reader running].
      repeat split; try assumption.
      intros c' Hi. rewrite Ei in Hi. injection Hi as <-. lia.
    + apply Z.ltb_ge in En.
      apply IH in Hrun; [assumption | |].
      * unfold cursor_ok. cbn [chunks chunk cursor reader running].
        repeat split; try lia. intros c' _. apply byteLength_nonneg.
      * unfold fetched. cbn [chunks chunk cursor reader running].
        repeat split; try assumption; try lia.
        intros c' Hi. exfalso.
        destruct (index_Some _ _ _ Hi) as [Hr _]. lia.
Qed.

Lemma stream_fetched (cs : ByteSource) (st : DecoderState) :
  chunks st ++ reader st = cs -> stream st = concat cs.
Proof. intros <-. unfold stream. rewrite concat_app. reflexivity. Qed.

Lemma position_behind_chunks (cs : ByteSource) (st : DecoderState) :
  chunks st ++ reader st = cs -> chunks st <> [] ->
  chunk st = byteLength (chunks st) -> cursor st = 0 ->
  In (position st) (boundaries cs).
Proof.
  intros Hcs Hne Hc H0. apply In_boundaries. exists (length (chunks st)).
  split.
  - rewrite <- Hcs, length_app. destruct (chunks st); [contradiction | cbn [length]; lia].
  - unfold position. rewrite H0, Hc, Z.add_0_r.
    replace (Z.to_nat (byteLength (chunks st))) with (length (chunks st))
      by (unfold byteLength; lia).
    rewrite firstn_all. subst cs.
    rewrite firstn_app, firstn_all, Nat.sub_diag. cbn [firstn].
    rewrite app_nil_r. reflexivity.
Qed.

Lemma index_in_range {A : Type} (l : list A) (i : Z) :
  0 <= i < byteLength l -> exists x, index l i = Some x.
Proof.
  intros H. unfold index. destruct (i <? 0) eqn:E; [apply Z.ltb_lt in E; lia|].
  destruct (nth_error l (Z.to_nat i)) as [x|] eqn:En; [exists x; reflexivity|].
  apply nth_error_None in En. unfold byteLength in H. lia.
Qed.

(** What the loop of [readBytes] leaves, when it returns from a state
    of [reading]. *)
Lemma readLoop_reading (cs : ByteSource) (n : Z) (st st1 : DecoderState) :
  Forall (fun c => c <> []) cs -> reading cs st ->
  readLoop (readLoop_fuel st) n 0 st = Return tt st1 ->
  cursor_ok st1 /\ fetched cs st1 /\ running st1 = true
  /\ position st1 = position st + Z.max 0 n
  /\ chunk st <= chunk st1
  /\ chunks st1 <> []
  /\ exists c0, index (chunks st1) (chunk st) = Some c0.
Proof.
  intros Hne Hr El.
  pose proof (reading_cursor_ok cs st Hr) as Hok.
  pose proof (reading_fetched cs st Hr) as Hf.
  destruct (readLoop_progress _ _ _ _ _ Hok El) as (Hok1 & _ & Hrun1).
  destruct (readLoop_exact _ _ _ _ _ Hok El) as (_ & Hpos & (added & Hadd) & Hch & _).
  pose proof (readLoop_fetched cs _ Hne _ _ _ _ Hok Hf El) as Hf1.
  destruct Hr as (Hcs & Hlen & (c & Hi & Hc) & Hrun).
  rewrite Z.sub_0_r in Hpos.
  repeat split; try assumption; try congruence.
  - apply Hok1.
  - apply Hok1.
  - apply Hok1.
  - apply Hok1.
  - apply Hok1.
  - apply Hf1.
  - apply Hf1.
  - apply Hf1.
  - rewrite Hadd. intros E. apply app_eq_nil in E. destruct E as [E _].
    rewrite E in Hi. unfold index in Hi. destruct (chunk st <? 0); [discriminate|].
    destruct (Z.to_nat (chunk st)); discriminate.
  - exists c. rewrite Hadd. apply index_app_l. assumption.
Qed.

Lemma position_inside (st : DecoderState) (c : list byte) :
  index (chunks st) (chunk st) = Some c -> cursor st < byteLength c ->
  position st < byteLength (concat (chunks st)).
Proof.
  intros Hi Hc. destruct (index_Some _ _ _ Hi) as [_ Hnth].
  unfold position. rewrite (concat_split_at _ _ _ Hnth) at 1.
  rewrite !byteLength_app.
  pose proof (byteLength_nonneg (concat (skipn (S (Z.to_nat (chunk st))) (chunks st)))).
  lia.
Qed.

(** A read that ends inside a chunk returns, whatever chunks it
    crosses. *)
Lemma readBytes_inside (cs : ByteSource) (n : Z) (blobType : option jsstring)
    (st : DecoderState) :
  Forall (fun c => c <> []) cs -> reading cs st ->
  position st + Z.max 0 n <= byteLength (concat cs) ->
  ~ In (position st + Z.max 0 n) (boundaries cs) ->
  exists st',
    readBytes n blobType st
    = Return (deliver blobType
                (firstn (Z.to_nat n) (skipn (Z.to_nat (position st)) (concat cs)))) st'
    /\ reading cs st'
    /\ position st' = position st + Z.max 0 n.
Proof.
  intros Hne Hr Hle Hnb.
  pose proof (reading_cursor_ok cs st Hr) as Hok.
  assert (Hst : stream st = concat cs) by (apply stream_fetched; apply Hr).
  destruct (readLoop (readLoop_fuel st) n 0 st) as [[] st1| e |] eqn:El.
  - destruct (readLoop_reading cs n st st1 Hne Hr El)
      as (Hok1 & Hf1 & Hrun1 & Hpos1 & Hch & Hne1 & (c0 & Hi0)).
    destruct Hf1 as (Hcs1 & Hlen1 & Hstrict1).
    pose proof Hok1 as (Hc1 & Hcur1 & Hin1 & Hend1).
    assert (Hlt : chunk st1 < byteLength (chunks st1)).
    { destruct (Z.eq_dec (chunk st1) (byteLength (chunks st1))) as [E|E]; [|lia].
      exfalso. apply Hnb. rewrite <- Hpos1.
      apply (position_behind_chunks cs st1); try assumption. apply Hend1. exact E. }
    destruct (index_in_range (chunks st1) (chunk st1) ltac:(lia)) as (c1 & Hi1).
    assert (Hret : exists d, readBytes n blobType st = Return d st1).
    { unfold readBytes. rewrite El.
      destruct (chunk st =? chunk st1).
      - rewrite Hi0. eexists. reflexivity.
      - destruct ((chunk st =? chunk st1 - 1) && (cursor st1 =? 0)).
        + rewrite Hi0. eexists. reflexivity.
        + rewrite Hi0, Hi1. eexists. reflexivity. }
    destruct Hret as (d & Hret). exists st1.
    destruct (readBytes_exact _ _ _ _ _ Hok Hret) as (Hd & _ & _).
    rewrite Hst in Hd. subst d. split; [exact Hret|]. split; [|exact Hpos1].
    unfold reading. split; [assumption|]. split; [lia|]. split; [|assumption].
    exists c1. split; [assumption|]. specialize (Hstrict1 c1 Hi1). lia.
  - exfalso. destruct (readLoop_throws _ _ _ _ _ Hok El) as [_ Hlt].
    rewrite Hst in Hlt. lia.
  - exfalso. apply (readLoop_terminates (readLoop_fuel st) n 0 st);
      [unfold readLoop_fuel; lia | exact El].
Qed.

(** The last read of an archive, when it lies in the last chunk. *)
Lemma readBytes_last (cs : ByteSource) (n : Z) (blobType : option jsstring)
    (st : DecoderState) :
  Forall (fun c => c <> []) cs -> reading cs st -> 0 < n ->
  position st + n = byteLength (concat cs) ->
  (forall b, In b (boundaries cs) -> b <= position st \/ b = byteLength (concat cs)) ->
  readBytes n blobType st
  = Return (deliver blobType
              (firstn (Z.to_nat n) (skipn (Z.to_nat (position st)) (concat cs))))
           (finished cs).
Proof.
  intros Hne Hr Hn Hend Hb.
  pose proof (reading_cursor_ok cs st Hr) as Hok.
  assert (Hst : stream st = concat cs) by (apply stream_fetched; apply Hr).
  destruct (readLoop (readLoop_fuel st) n 0 st) as [[] st1| e |] eqn:El.
  - destruct (readLoop_reading cs n st st1 Hne Hr El)
      as (Hok1 & Hf1 & Hrun1 & Hpos1 & Hch & Hne1 & (c0 & Hi0)).
    destruct Hf1 as (Hcs1 & Hlen1 & Hstrict1).
    pose proof Hok1 as (Hc1 & Hcur1 & Hin1 & Hend1).
    destruct Hr as (Hcs & Hlen & (c & Hi & Hc) & Hrun).
    rewrite Z.max_r in Hpos1 by lia.
    (* the chunk under the cursor is the last one *)
    assert (Hlast : reader st = []).
    { destruct (reader st) as [|value rest] eqn:Er; [reflexivity|]. exfalso.
      assert (Hv : value <> []).
      { rewrite Forall_forall in Hne. apply Hne. rewrite <- Hcs.
        apply in_or_app. right. left. reflexivity. }
      assert (Hin : In (byteLength (concat (chunks st))) (boundaries cs)).
      { apply In_boundaries. exists (length (chunks st)). split.
        - rewrite <- Hcs, length_app. cbn [length].
          destruct (index_Some _ _ _ Hi) as [Hrange _]. unfold byteLength in *. lia.
        - rewrite <- Hcs, firstn_app, firstn_all, Nat.sub_diag. cbn [firstn].
          rewrite app_nil_r. reflexivity. }
      assert (Hp : position st < byteLength (concat (chunks st))).
      { apply (position_inside st c Hi). lia. }
      assert (Htot : byteLength (concat (chunks st)) < byteLength (concat cs)).
      { rewrite <- Hcs, concat_app, byteLength_app. cbn [concat].
        rewrite byteLength_app. pose proof (byteLength_pos value Hv).
        pose proof (byteLength_nonneg (concat rest)). lia. }
      destruct (Hb _ Hin); lia. }
    assert (Hall : chunks st = cs) by (rewrite <- Hcs, Hlast, app_nil_r; reflexivity).
    destruct (readLoop_exact _ _ _ _ _ Hok El) as (_ & _ & (added & Hadd) & _ & _).
    assert (Hadded : added = [] /\ reader st1 = []).
    { rewrite Hadd, Hall in Hcs1. rewrite <- app_assoc in Hcs1.
      rewrite <- (app_nil_r cs) in Hcs1 at 2. apply app_inv_head in Hcs1.
      apply app_eq_nil in Hcs1. exact Hcs1. }
    destruct Hadded as [-> Hr1]. rewrite app_nil_r, Hall in Hadd.
    assert (Hce : chunk st1 = byteLength (chunks st1)).
    { destruct (Z.eq_dec (chunk st1) (byteLength (chunks st1))) as [E|E]; [exact E|].
      exfalso.
      destruct (index_in_range (chunks st1) (chunk st1) ltac:(lia)) as (c1 & Hi1).
      specialize (Hstrict1 c1 Hi1).
      assert (position st1 < byteLength (concat (chunks st1))).
      { apply (position_inside st1 c1 Hi1). lia. }
      rewrite Hadd in *. lia. }
    specialize (Hend1 Hce).
    assert (Hst1 : st1 = finished cs).
    { destruct st1 as [cs1 k1 c1 r1 run1]. unfold finished.
      cbn [chunks chunk cursor reader running] in *. subst. reflexivity. }
    assert (Hret : exists d, readBytes n blobType st = Return d st1).
    { unfold readBytes. rewrite El.
      assert (Hk : chunk st = chunk st1 - 1) by (rewrite Hce, Hadd, <- Hall; lia).
      destruct (chunk st =? chunk st1) eqn:E1; [apply Z.eqb_eq in E1; lia|].
      apply Z.eqb_eq in Hk. rewrite Hk. apply Z.eqb_eq in Hend1. rewrite Hend1.
      cbn [andb]. rewrite Hi0. eexists. reflexivity. }
    destruct Hret as (d & Hret).
    assert (Hok' : cursor_ok st).
    { exact Hok. }
    destruct (readBytes_exact _ _ _ _ _ Hok' Hret) as (Hd & _ & _).
    rewrite Hst in Hd. subst d. rewrite Hret, Hst1. reflexivity.
  - exfalso. destruct (readLoop_throws _ _ _ _ _ Hok El) as [_ Hlt].
    rewrite Hst in Hlt. lia.
  - exfalso. apply (readLoop_terminates (readLoop_fuel st) n 0 st);
      [unfold readLoop_fuel; lia | exact El].
Qed.

Lemma position_nonneg (st : DecoderState) : cursor_ok st -> 0 <= position st.
Proof.
  intros (_ & Hcur & _ & _). unfold position.
  pose proof (byteLength_nonneg (concat (firstn (Z.to_nat (chunk st)) (chunks st)))).
  lia.
Qed.

(** A field that ends inside a chunk is read whole, and the cursor moves
    past it. *)
Lemma readBytes_chunked (cs : ByteSource) (mid rest : list byte)
    (blobType : option jsstring) (st : DecoderState) :
  Forall (fun c => c <> []) cs -> reading cs st ->
  skipn (Z.to_nat (position st)) (concat cs) = mid ++ rest ->
  ~ In (position st + byteLength mid) (boundaries cs) ->
  exists st',
    readBytes (byteLength mid) blobType st = Return (deliver blobType mid) st'
    /\ reading cs st'
    /\ position st' = position st + byteLength mid
    /\ skipn (Z.to_nat (position st')) (concat cs) = rest.
Proof.
  intros Hne Hr Hs Hnb.
  pose proof (position_nonneg st (reading_cursor_ok cs st Hr)) as Hp.
  pose proof (byteLength_nonneg mid) as Hm.
  assert (Hle : position st + byteLength mid <= byteLength (concat cs)).
  { assert (Hl : length (skipn (Z.to_nat (position st)) (concat cs))
                 = length (mid ++ rest)) by (rewrite Hs; reflexivity).
    rewrite length_skipn, length_app in Hl.
    pose proof (unread_nonneg st (reading_cursor_ok cs st Hr)) as Hu.
    rewrite unread_position, (stream_fetched cs st) in Hu by apply Hr.
    unfold byteLength in *. lia. }
  destruct (readBytes_inside cs (byteLength mid) blobType st Hne Hr) as (st' & E & R & P).
  - rewrite Z.max_r by lia. exact Hle.
  - rewrite Z.max_r by lia. exact Hnb.
  - rewrite Z.max_r in P by lia. exists st'. rewrite Hs in E.
    replace (Z.to_nat (byteLength mid)) with (length mid) in E
      by (unfold byteLength; lia).
    rewrite firstn_app, firstn_all, Nat.sub_diag in E. cbn [firstn] in E.
    rewrite app_nil_r in E.
    split; [exact E|]. split; [exact R|]. split; [exact P|].
    rewrite P. apply skipn_advance; assumption.
Qed.

Lemma readBuffer_chunked (cs : ByteSource) (mid rest : list byte) (st : DecoderState) :
  Forall (fun c => c <> []) cs -> reading cs st ->
  skipn (Z.to_nat (position st)) (concat cs) = mid ++ rest ->
  ~ In (position st + byteLength mid) (boundaries cs) ->
  exists st',
    readBuffer (byteLength mid) st = Return mid st'
    /\ reading cs st'
    /\ position st' = position st + byteLength mid
    /\ skipn (Z.to_nat (position st')) (concat cs) = rest.
Proof.
  intros Hne Hr Hs Hnb.
  destruct (readBytes_chunked cs mid rest None st Hne Hr Hs Hnb) as (st' & E & R & P & S).
  exists st'. unfold readBuffer, bind. rewrite E.
  split; [reflexivity|]. split; [exact R|]. split; assumption.
Qed.

(** One stored entry is parsed field by field from a source in chunks,
    when no read but the last ends where a chunk ends; [Hfin] is the read
    of the digest. *)
Lemma readEntry_chunked (cs : ByteSource) (e : Entry) (rest : list byte) (v : bool)
    (st : DecoderState) (Q : DecoderState -> Prop) :
  Forall (fun c => c <> []) cs -> reading cs st ->
  skipn (Z.to_nat (position st)) (concat cs) = entry_bytes e ++ rest ->
  well_formed e ->
  (forall T,
      In T [position st + 2;
            position st + 2 + byteLength (e_name e);
            position st + 4 + byteLength (e_name e);
            position st + 4 + byteLength (e_name e) + byteLength (e_type e);
            position st + 8 + byteLength (e_name e) + byteLength (e_type e);
            position st + 8 + byteLength (e_name e) + byteLength (e_type e)
            + byteLength (e_payload e)] ->
      ~ In T (boundaries cs)) ->
  (forall st6,
      reading cs st6 ->
      position st6 = position st + 8 + byteLength (e_name e) + byteLength (e_type e)
                     + byteLength (e_payload e) ->
      skipn (Z.to_nat (position st6)) (concat cs) = e_digest e ++ rest ->
      exists st', readBuffer 20 st6 = Return (e_digest e) st' /\ Q st') ->
  exists st',
    Q st'
    /\ readEntry v st
       = match entry_check v e with
         | Some err => Throw err
         | None => Return (entry_output e) st'
         end.
Proof.
  intros Hne Hr Hs (Hn & Ht & Hpl & Hd) Hends Hfin.
  pose proof (byteLength_nonneg (e_name e)) as Hn0.
  pose proof (byteLength_nonneg (e_type e)) as Ht0.
  pose proof (byteLength_nonneg (e_payload e)) as Hp0.
  set (p := position st) in *.
  unfold entry_bytes in Hs. rewrite <- !app_assoc in Hs.
  (* name length *)
  destruct (readBuffer_chunked cs _ _ st Hne Hr Hs) as (st1 & E1 & R1 & P1 & S1).
  { rewrite Uint16Array_bytes_length. apply Hends. fold p. cbn [In]. auto. }
  rewrite Uint16Array_bytes_length in E1, P1. fold p in P1.
  (* name *)
  destruct (readBuffer_chunked cs _ _ st1 Hne R1 S1) as (st2 & E2 & R2 & P2 & S2).
  { rewrite P1. apply Hends. cbn [In]. auto. }
  rewrite P1 in P2.
  (* type length *)
  destruct (readBuffer_chunked cs _ _ st2 Hne R2 S2) as (st3 & E3 & R3 & P3 & S3).
  { rewrite P2, Uint16Array_bytes_length. apply Hends. cbn [In].
    right. right. left. lia. }
  rewrite Uint16Array_bytes_length in E3, P3. rewrite P2 in P3.
  (* type *)
  assert (Htype : exists st4,
    (if byteLength (e_type e) =? 0 then ret (js "application/octet-stream")
     else bind (readBuffer (byteLength (e_type e))) (fun b => ret (TextDecoder_decode b)))
      st3
    = Return (resolved_type e) st4
    /\ reading cs st4
    /\ position st4 = p + 4 + byteLength (e_name e) + byteLength (e_type e)
    /\ skipn (Z.to_nat (position st4)) (concat cs)
       = Uint32Array_bytes (byteLength (e_payload e)) ++ e_payload e ++ e_digest e ++ rest).
  { unfold resolved_type. destruct (byteLength (e_type e) =? 0) eqn:E.
    - apply Z.eqb_eq in E. exists st3. split; [reflexivity|]. split; [exact R3|].
      split; [lia|]. apply byteLength_nil_iff in E. rewrite E in S3. exact S3.
    - destruct (readBuffer_chunked cs _ _ st3 Hne R3 S3) as (st4 & E4 & R4 & P4 & S4).
      { rewrite P3. apply Hends. cbn [In]. right. right. right. left. lia. }
      exists st4. rewrite (bind_Return _ _ _ _ _ E4).
      split; [reflexivity|]. split; [exact R4|]. split; [lia | exact S4]. }
  destruct Htype as (st4 & E4 & R4 & P4 & S4).
  (* size *)
  destruct (readBuffer_chunked cs _ _ st4 Hne R4 S4) as (st5 & E5 & R5 & P5 & S5).
  { rewrite P4, Uint32Array_bytes_length. apply Hends. cbn [In].
    right. right. right. right. left. lia. }
  rewrite Uint32Array_bytes_length in E5, P5. rewrite P4 in P5.
  (* payload *)
  destruct (readBytes_chunked cs _ _ (Some (resolved_type e)) st5 Hne R5 S5)
    as (st6 & E6 & R6 & P6 & S6).
  { rewrite P5. apply Hends. cbn [In]. right. right. right. right. right. left. lia. }
  rewrite P5 in P6.
  (* digest *)
  destruct (Hfin st6 R6 ltac:(lia) S6) as (st7 & E7 & HQ).
  exists st7. split; [exact HQ|].
  unfold readEntry.
  rewrite (bind_Return _ _ _ _ _ E1).
  rewrite (bind_Return _ _ _ _ _ (Uint16Array_first_bytes _ _)).
  rewrite Z.mod_small by lia.
  rewrite (bind_Return _ _ _ _ _ E2).
  rewrite (bind_Return _ _ _ _ _ E3).
  rewrite (bind_Return _ _ _ _ _ (Uint16Array_first_bytes _ _)).
  rewrite Z.mod_small by lia.
  rewrite (bind_Return _ _ _ _ _ E4).
  rewrite (bind_Return _ _ _ _ _ E5).
  rewrite (bind_Return _ _ _ _ _ (Uint32Array_first_bytes _ _)).
  rewrite Z.mod_small by lia.
  rewrite (bind_Return _ _ _ _ _ E6).
  rewrite (bind_Return _ _ _ _ _ E7).
  unfold entry_check, entry_output.
  destruct v; [|reflexivity].
  destruct (deliver (Some (resolved_type e)) (e_payload e)) as [blob|buf] eqn:Edel.
  - assert (Hb : blob_bytes blob = e_payload e).
    { unfold deliver in Edel. destruct (resolved_type e); inversion Edel; reflexivity. }
    rewrite Hb. destruct (every_matches (e_digest e) (sha1 (e_payload e))); reflexivity.
  - reflexivity.
Qed.

Lemma maybeReadMore_reading (cs : ByteSource) (st : DecoderState) :
  reading cs st -> maybeReadMore st = Return tt st.
Proof.
  intros (_ & Hlen & _ & _). unfold maybeReadMore.
  destruct (byteLength (chunks st) <=? chunk st) eqn:E; [apply Z.leb_le in E; lia|].
  rewrite andb_false_r. reflexivity.
Qed.

Lemma maybeReadMore_finished (cs : ByteSource) :
  maybeReadMore (finished cs) = Return tt (mkState cs (byteLength cs) 0 [] false).
Proof.
  unfold maybeReadMore, finished. cbn [chunks chunk cursor reader running].
  rewrite Z.eqb_refl, Z.leb_refl. reflexivity.
Qed.

Lemma suffix_total (cs : ByteSource) (st : DecoderState) (s : list byte) :
  reading cs st ->
  skipn (Z.to_nat (position st)) (concat cs) = s ->
  byteLength (concat cs) = position st + byteLength s.
Proof.
  intros Hr Hs.
  pose proof (reading_cursor_ok cs st Hr) as Hok.
  pose proof (position_nonneg st Hok) as Hp.
  pose proof (unread_nonneg st Hok) as Hu.
  rewrite unread_position, (stream_fetched cs st) in Hu by apply Hr.
  assert (Hl : length (skipn (Z.to_nat (position st)) (concat cs)) = length s)
    by (rewrite Hs; reflexivity).
  rewrite length_skipn in Hl. unfold byteLength in *. lia.
Qed.

(** The entries of a source in chunks that end inside fields. *)
Lemma entryLoop_chunked (cs : ByteSource) (v : bool) :
  Forall (fun c => c <> []) cs ->
  (forall b, In b (boundaries cs) ->
             b = byteLength (concat cs) \/ b < byteLength (concat cs) - 20) ->
  forall (es : list Entry) (fuel : nat) (st : DecoderState),
    (length es <= fuel)%nat -> es <> [] -> Forall well_formed es ->
    reading cs st ->
    skipn (Z.to_nat (position st)) (concat cs) = flat_map entry_bytes es ->
    (forall b, In b (boundaries cs) -> b <> byteLength (concat cs) ->
               ~ In b (field_ends (position st) es)) ->
    entryLoop fuel v st = decoded v es.
Proof.
  intros Hne Hlast.
  induction es as [|e es IH]; intros fuel st Hfuel Hnn Hwf Hr Hs Hends; [contradiction|].
  destruct fuel as [|fuel]; [cbn [length] in Hfuel; lia|].
  inversion Hwf as [|? ? Hwe Hwf']; subst.
  pose proof Hwe as (Hn & Ht & Hpl & Hd).
  pose proof (byteLength_nonneg (e_name e)) as Hn0.
  pose proof (byteLength_nonneg (e_type e)) as Ht0.
  pose proof (byteLength_nonneg (e_payload e)) as Hp0.
  cbn [flat_map] in Hs.
  pose proof (suffix_total cs st _ Hr Hs) as Htot.
  rewrite byteLength_app, entry_bytes_length in Htot.
  pose proof (byteLength_nonneg (flat_map entry_bytes es)) as Hrest0.
  assert (Hrun : running st = true) by apply Hr.
  cbn [entryLoop decoded]. rewrite Hrun.
  cbn [field_ends] in Hends.
  assert (Hmid : forall T,
      In T [position st + 2;
            position st + 2 + byteLength (e_name e);
            position st + 4 + byteLength (e_name e);
            position st + 4 + byteLength (e_name e) + byteLength (e_type e);
            position st + 8 + byteLength (e_name e) + byteLength (e_type e);
            position st + 8 + byteLength (e_name e) + byteLength (e_type e)
            + byteLength (e_payload e)] ->
      ~ In T (boundaries cs)).
  { intros T HT Hb. apply (Hends T Hb).
    - cbn [In] in HT. lia.
    - apply in_or_app. left. cbn [In] in *. tauto. }
  destruct es as [|e' es'].
  - (* the last entry: its digest ends the source *)
    cbn [flat_map] in Hs. change (byteLength (flat_map entry_bytes [])) with 0 in Htot.
    destruct (readEntry_chunked cs e [] v st (fun st' => st' = finished cs)
                Hne Hr Hs Hwe Hmid) as (st' & -> & E).
    { intros st6 R6 P6 S6. exists (finished cs). split; [|reflexivity].
      unfold readBuffer, bind. rewrite <- Hd at 1.
      rewrite (readBytes_last cs (byteLength (e_digest e)) None st6 Hne R6); try lia.
      - rewrite S6, app_nil_r.
        replace (Z.to_nat (byteLength (e_digest e))) with (length (e_digest e))
          by (unfold byteLength; lia).
        rewrite firstn_all. reflexivity.
      - intros b Hb. destruct (Hlast b Hb); [right; assumption | left; lia]. }
    rewrite E. destruct (entry_check v e) as [err|]; [reflexivity|].
    rewrite maybeReadMore_finished. destruct fuel; reflexivity.
  - (* more entries follow *)
    set (rest := flat_map entry_bytes (e' :: es')) in *.
    assert (Hrne : 0 < byteLength rest).
    { apply byteLength_pos. apply entries_bytes_not_nil. discriminate. }
    set (q := position st + 8 + byteLength (e_name e) + byteLength (e_type e)
              + byteLength (e_payload e) + byteLength (e_digest e)).
    destruct (readEntry_chunked cs e rest v st
                (fun st' => reading cs st' /\ position st' = q
                            /\ skipn (Z.to_nat (position st')) (concat cs) = rest)
                Hne Hr Hs Hwe Hmid) as (st' & (R' & P' & S') & E).
    { intros st6 R6 P6 S6.
      destruct (readBuffer_chunked cs _ _ st6 Hne R6 S6) as (st7 & E7 & R7 & P7 & S7).
      - rewrite P6. intros Hb. apply (Hends _ Hb); [lia|].
        apply in_or_app. left. cbn [In]. do 6 right. left. reflexivity.
      - rewrite Hd in E7. exists st7. split; [exact E7|].
        split; [exact R7|]. split; [unfold q; lia | exact S7]. }
    rewrite E. destruct (entry_check v e) as [err|]; [reflexivity|].
    rewrite (maybeReadMore_reading cs st' R').
    assert (HIH : entryLoop fuel v st' = decoded v (e' :: es')).
    { apply IH; try assumption.
      - cbn [length] in *. lia.
      - discriminate.
      - intros b Hb Hbt Hin. apply (Hends b Hb Hbt).
        apply in_or_app. right. rewrite entry_bytes_length.
        replace (position st + (2 + byteLength (e_name e) + 2 + byteLength (e_type e) + 4
                                + byteLength (e_payload e) + byteLength (e_digest e)))
          with q by (unfold q; lia).
        rewrite <- P'. exact Hin. }
    rewrite HIH. reflexivity.
Qed.

(** An archive delivered in chunks that end inside fields decodes to its
    entries, up to the first whose digest check fails. *)
Lemma decode_chunked (es : list Entry) (cs : ByteSource) (options : DecodeOptions) :
  es <> [] -> Forall well_formed es -> cut_inside_fields es cs ->
  decodeAssetBundleStream cs options = decoded (verify_of options) es.
Proof.
  intros Hnn Hwf (Hcs & Hne & Hcut).
  assert (Htot : 7 < byteLength (concat cs)).
  { rewrite Hcs. unfold archive_bytes. rewrite byteLength_app.
    change (byteLength HEAD) with 7.
    pose proof (byteLength_pos _ (entries_bytes_not_nil es Hnn)). lia. }
  unfold decodeAssetBundleStream. fold (verify_of options).
  destruct cs as [|value rest]; [cbn in Htot; lia|].
  set (cs := value :: rest) in *.
  set (st0 := mkState [value] 0 0 rest true).
  assert (R0 : reading cs st0).
  { unfold reading, st0, index. cbn [chunks chunk cursor reader running].
    repeat split; try reflexivity.
    exists value. split; [reflexivity|]. split; [lia|].
    apply byteLength_pos. inversion Hne. assumption. }
  assert (S0 : skipn (Z.to_nat (position st0)) (concat cs)
               = HEAD ++ flat_map entry_bytes es) by (rewrite Hcs; reflexivity).
  destruct (readBuffer_chunked cs _ _ st0 Hne R0 S0) as (st1 & E1 & R1 & P1 & S1).
  { change (position st0 + byteLength HEAD) with 7. intros Hb.
    destruct (Hcut 7 Hb) as (H7 & _); [rewrite <- Hcs; lia | contradiction]. }
  change (byteLength HEAD) with 7 in E1, P1. change (position st0) with 0 in P1.
  rewrite (bind_Return _ _ _ _ _ E1).
  unfold checkHead. change (byteLength HEAD <? 7) with false. cbv iota.
  rewrite every_matches_HEAD. cbn [negb]. unfold ret.
  apply (entryLoop_chunked cs (verify_of options) Hne); try assumption.
  - intros b Hb. destruct (Z.eq_dec b (byteLength (concat cs))) as [E|E];
      [left; assumption | right].
    rewrite Hcs in *. apply (Hcut b Hb E).
  - pose proof (entries_bytes_length es) as Hl.
    assert (length (concat cs) = length (archive_bytes es)) by (rewrite Hcs; reflexivity).
    unfold archive_bytes in *. rewrite length_app in *. lia.
  - intros b Hb Hbt. rewrite P1. rewrite Hcs in Hbt. apply (Hcut b Hb Hbt).
Qed.

Lemma one_chunk_cut_inside_fields (es : list Entry) :
  cut_inside_fields es [archive_bytes es].
Proof.
  unfold cut_inside_fields. cbn [concat]. rewrite app_nil_r.
  split; [reflexivity|]. split.
  - constructor; [|constructor]. unfold archive_bytes. discriminate.
  - intros b Hb Hne. exfalso. apply Hne.
    unfold boundaries in Hb. cbn [length seq map firstn concat In] in Hb.
    rewrite app_nil_r in Hb. destruct Hb as [<-|[]]. reflexivity.
Qed.

(** The test archive in pieces of 3, 9, 18, 30 and 50 bytes. *)
Lemma test_pieces_cut_inside_fields :
  cut_inside_fields [hello_entry; morning_entry]
    (pieces [3; 9; 18; 30]%nat (archive_bytes [hello_entry; morning_entry])).
Proof.
  split; [vm_compute; reflexivity|]. split.
  - repeat constructor; vm_compute; discriminate.
  - assert (Ht : byteLength (archive_bytes [hello_entry; morning_entry]) = 110)
      by (vm_compute; reflexivity).
    assert (Hf : field_ends 7 [hello_entry; morning_entry]
                 = [9; 17; 19; 19; 23; 34; 54; 56; 72; 74; 74; 78; 90; 110])
      by (vm_compute; reflexivity).
    rewrite Ht, Hf. intros b Hb Hne. vm_compute in Hb.
    repeat (destruct Hb as [<-|Hb]); try contradiction;
      (split; [discriminate|]; split; [cbn [In]; intuition discriminate | lia]).
Qed.

(** X17. Chunk boundaries that fall inside fields do not change the
    result: an archive of one or more entries whose lengths fit their
    prefixes, delivered in chunks none of which is empty, none of which
    but the last ends where a read of the decoder ends (behind the
    header, a length prefix, a name, a media type, a payload or a
    digest), and none of which ends inside the last digest, decodes, with
    every option, exactly as it does handed over as one chunk. *)
Theorem chunks_that_end_inside_fields_decode (es : list Entry) (cs : ByteSource)
    (options : DecodeOptions) :
  es <> [] -> Forall well_formed es -> cut_inside_fields es cs ->
  decodeAssetBundleStream cs options
  = decodeAssetBundleStream [archive_bytes es] options.
Proof.
  intros Hne Hwf Hcut.
  rewrite (decode_chunked es cs options Hne Hwf Hcut).
  symmetry. apply decode_archive; assumption.
Qed.

Lemma chunks_that_end_inside_fields_decode_witness :
  decodeAssetBundleStream
    (pieces [3; 9; 18; 30]%nat (archive_bytes [hello_entry; morning_entry])) no_options
  = decodeAssetBundleStream [archive_bytes [hello_entry; morning_entry]] no_options.
Proof.
  apply chunks_that_end_inside_fields_decode.
  - discriminate.
  - repeat constructor; vm_compute; try reflexivity; discriminate.
  - exact test_pieces_cut_inside_fields.
Defined.

(** * The command line tool *)

(** ** Sizes as text *)









(** ** The common root of the inputs of [pack] *)

Lemma String_split_not_nil (sep : Z) (s : jsstring) : String_split sep s <> [].
Proof.
  destruct s as [|c s]; cbn [String_split]; [discriminate|].
  destruct (c =? sep); [discriminate|].
  destruct (String_split sep s); discriminate.
Qed.

Lemma join_split (sep : Z) (s : jsstring) :
  Array_join sep (String_split sep s) = s.
Proof.
  induction s as [|c s IH]; [reflexivity|]. cbn [String_split].
  destruct (c =? sep) eqn:E.
  - apply Z.eqb_eq in E. subst c.
    pose proof (String_split_not_nil sep s) as Hne.
    cbn [Array_join]. destruct (String_split sep s) as [|p ps]; [contradiction|].
    cbn [app]. rewrite IH. reflexivity.
  - pose proof (String_split_not_nil sep s) as Hne.
    destruct (String_split sep s) as [|p ps]; [contradiction|].
    cbn [Array_join] in *. destruct ps as [|p' ps].
    + rewrite IH. reflexivity.
    + cbn [app]. rewrite IH. reflexivity.
Qed.

Lemma split_free (sep : Z) (s : jsstring) :
  Forall (fun part => ~ In sep part) (String_split sep s).
Proof.
  induction s as [|c s IH]; cbn [String_split].
  - constructor; [intros [] | constructor].
  - destruct (c =? sep) eqn:E.
    + constructor; [intros [] | assumption].
    + apply Z.eqb_neq in E.
      destruct (String_split sep s) as [|p ps].
      * constructor; [|constructor]. intros [H|[]]. congruence.
      * inversion IH; subst. constructor; [|assumption].
        intros [H|H]; [congruence | contradiction].
Qed.

Lemma split_free_part (sep : Z) (part : jsstring) :
  ~ In sep part -> String_split sep part = [part].
Proof.
  induction part as [|c part IH]; intros H; [reflexivity|]. cbn [String_split].
  destruct (c =? sep) eqn:E.
  - apply Z.eqb_eq in E. subst c. exfalso. apply H. left. reflexivity.
  - rewrite IH by (intros Hin; apply H; right; assumption). reflexivity.
Qed.

Lemma split_app_sep (sep : Z) (part s : jsstring) :
  ~ In sep part ->
  String_split sep (part ++ sep :: s) = part :: String_split sep s.
Proof.
  induction part as [|c part IH]; intros H; cbn [app String_split].
  - rewrite Z.eqb_refl. reflexivity.
  - destruct (c =? sep) eqn:E.
    + apply Z.eqb_eq in E. subst c. exfalso. apply H. left. reflexivity.
    + rewrite IH by (intros Hin; apply H; right; assumption). reflexivity.
Qed.

Lemma split_join (sep : Z) (parts : list jsstring) :
  parts <> [] -> Forall (fun part => ~ In sep part) parts ->
  String_split sep (Array_join sep parts) = parts.
Proof.
  induction parts as [|p parts IH]; intros Hne Hfree; [contradiction|].
  inversion Hfree as [|? ? Hp Hps]; subst.
  destruct parts as [|p' parts].
  - cbn [Array_join]. apply split_free_part. assumption.
  - change (Array_join sep (p :: p' :: parts))
      with (p ++ sep :: Array_join sep (p' :: parts)).
    rewrite split_app_sep by assumption.
    rewrite IH; [reflexivity | discriminate | assumption].
Qed.

Lemma common_begins (a d : list jsstring) :
  begins (common a d) a /\ begins (common a d) d.
Proof.
  revert d. induction a as [|x a IH]; intros d; cbn [common].
  - split; eexists; reflexivity.
  - destruct d as [|y d]; [split; eexists; reflexivity|].
    destruct (jsstring_eqb x y) eqn:E; [|split; eexists; reflexivity].
    apply jsstring_eqb_eq in E. subst y.
    destruct (IH d) as [[c1 H1] [c2 H2]].
    split; [exists c1 | exists c2]; cbn [app]; f_equal; assumption.
Qed.

Lemma common_greatest (x a d : list jsstring) :
  begins x a -> begins x d -> begins x (common a d).
Proof.
  revert a d. induction x as [|h x IH]; intros a d [c1 H1] [c2 H2].
  - eexists. reflexivity.
  - subst a d. cbn [app common]. rewrite jsstring_eqb_refl.
    destruct (IH (x ++ c1) (x ++ c2)) as [c H]; [eexists; reflexivity ..|].
    exists c. cbn [app]. f_equal. assumption.
Qed.

Lemma begins_trans {A : Type} (a b c : list A) : begins a b -> begins b c -> begins a c.
Proof.
  intros [x ->] [y ->]. exists (x ++ y). rewrite app_assoc. reflexivity.
Qed.

Lemma begins_free (sep : Z) (a b : list jsstring) :
  begins a b -> Forall (fun part => ~ In sep part) b ->
  Forall (fun part => ~ In sep part) a.
Proof. intros [c ->] H. apply Forall_app in H. apply H. Qed.

(** One turn of the [reduce]: joined and split again, the parts come
    back, and with no part left the root stays empty. *)
Lemma root_turn (sep : Z) (parts dirParts : list jsstring) :
  Forall (fun part => ~ In sep part) parts ->
  Array_join sep (common (String_split sep (Array_join sep parts)) dirParts)
  = Array_join sep (common parts dirParts).
Proof.
  intros Hfree. destruct parts as [|p parts].
  - cbn [Array_join String_split common].
    destruct dirParts as [|d dirParts]; [reflexivity|].
    destruct (jsstring_eqb [] d); reflexivity.
  - rewrite split_join; [reflexivity | discriminate | assumption].
Qed.

Lemma root_fold (rt : Runtime) (files : list jsstring) :
  forall parts : list jsstring,
    Forall (fun part => ~ In (path_sep rt) part) parts ->
    exists parts',
      fold_left
        (fun acc file =>
           let dir := path_dirname rt file in
           match acc with
           | None => Some dir
           | Some acc =>
               Some (Array_join (path_sep rt)
                       (common (String_split (path_sep rt) acc)
                               (String_split (path_sep rt) dir)))
           end)
        files (Some (Array_join (path_sep rt) parts))
      = Some (Array_join (path_sep rt) parts')
      /\ begins parts' parts
      /\ (forall f, In f files ->
            begins parts' (String_split (path_sep rt) (path_dirname rt f)))
      /\ (forall x, begins x parts ->
            (forall f, In f files ->
               begins x (String_split (path_sep rt) (path_dirname rt f))) ->
            begins x parts').
Proof.
  induction files as [|file files IH]; intros parts Hfree; cbn [fold_left].
  - exists parts. split; [reflexivity|]. split; [exists []; symmetry; apply app_nil_r|].
    split; [intros f []|]. intros x Hx _. exact Hx.
  - rewrite root_turn by assumption.
    set (dirParts := String_split (path_sep rt) (path_dirname rt file)).
    destruct (common_begins parts dirParts) as [Hb1 Hb2].
    destruct (IH (common parts dirParts) (begins_free _ _ _ Hb1 Hfree))
      as (parts' & E & Hb & Hall & Hgreat).
    exists parts'. split; [exact E|]. split; [exact (begins_trans _ _ _ Hb Hb1)|].
    split.
    + intros f [<-|Hin]; [exact (begins_trans _ _ _ Hb Hb2) | apply Hall; assumption].
    + intros x Hx Hfs. apply Hgreat.
      * apply common_greatest; [assumption|]. apply Hfs. left. reflexivity.
      * intros f Hin. apply Hfs. right. assumption.
Qed.

(** X19. The root that [pack] takes the names relative to: for a list of
    inputs that is not empty, the [reduce] returns the directory whose
    parts (between separators) are the longest common beginning of the
    parts of the directories of all inputs; joined, no part in common
    gives the empty string. *)
Theorem root_is_the_longest_common_directory (rt : Runtime) (file : jsstring)
    (files : list jsstring) :
  exists parts,
    root rt (file :: files) = Some (Array_join (path_sep rt) parts)
    /\ (forall f, In f (file :: files) ->
          begins parts (String_split (path_sep rt) (path_dirname rt f)))
    /\ (forall x,
          (forall f, In f (file :: files) ->
             begins x (String_split (path_sep rt) (path_dirname rt f))) ->
          begins x parts).
Proof.
  unfold root. cbn [fold_left].
  destruct (root_fold rt files _ (split_free (path_sep rt) (path_dirname rt file)))
    as (parts & E & Hb & Hall & Hgreat).
  rewrite join_split in E.
  exists parts. split; [exact E|]. split.
  - intros f [<-|Hin]; [exact Hb | apply Hall; assumption].
  - intros x Hfs. apply Hgreat.
    + apply Hfs. left. reflexivity.
    + intros f Hin. apply Hfs. right. assumption.
Qed.

(** ** The operations of the command line tool *)

Lemma decodeAssetBundle_settles (src : ByteSource) :
  decodeAssetBundle src <> Unfinished.
Proof.
  unfold decodeAssetBundle.
  pose proof (decodeAssetBundleStream_terminates src no_options) as H.
  destruct (decodeAssetBundleStream src no_options) as [files c].
  cbn [snd] in H. destruct c; try discriminate. contradiction.
Qed.

(** X20. [abundle verify] on a file that exists prints "Valid asset
    bundle" as its last line and ends without an exit code in every case:
    when [decodeAssetBundle] rejects, the line 'File "..." is not a valid
    asset bundle.' goes to the error output first, and the script goes
    on. This is so for every file of seven bytes or more that does not
    begin with the magic, however the runtime cuts its stream into
    chunks. *)
Theorem verify_reports_valid_in_every_case (rt : Runtime) (args : list jsstring)
    (arg : jsstring) (buffer : list byte) :
  nth_error args 1 = Some arg ->
  file_content rt (path_resolve rt arg) = Some buffer ->
  (operation_verify rt args = ([console_log (js "Valid asset bundle")], completed)
   \/ operation_verify rt args
      = ([console_error (not_valid (path_resolve rt arg));
          console_log (js "Valid asset bundle")], completed))
  /\ (concat (Blob_stream rt buffer) = buffer ->
      7 <= byteLength buffer -> firstn 7 buffer <> HEAD ->
      operation_verify rt args
      = ([console_error (not_valid (path_resolve rt arg));
          console_log (js "Valid asset bundle")], completed)).
Proof.
  intros Harg Hfile. unfold operation_verify. rewrite Harg. cbv zeta. rewrite Hfile.
  split.
  - pose proof (decodeAssetBundle_settles (Blob_stream rt buffer)) as H.
    destruct (decodeAssetBundle (Blob_stream rt buffer));
      [left; reflexivity | right; reflexivity | contradiction].
  - intros Hcat Hlen Hbad. unfold decodeAssetBundle, decodeAssetBundleStream.
    rewrite <- Hcat in Hlen, Hbad.
    destruct (Blob_stream rt buffer) as [|value rest].
    + exfalso. unfold byteLength in Hlen. cbn in Hlen. lia.
    + destruct (wrong_header_throws value rest Hlen Hbad) as [-> | ->]; reflexivity.
Qed.

Lemma verify_reports_valid_in_every_case_witness :
  (operation_verify (runtime_with (TextEncoder_encode (js "not a bundle")) [])
     [js "verify"; js "bundle"]
   = ([console_log (js "Valid asset bundle")], completed)
   \/ operation_verify (runtime_with (TextEncoder_encode (js "not a bundle")) [])
        [js "verify"; js "bundle"]
      = ([console_error (not_valid (js "bundle"));
          console_log (js "Valid asset bundle")], completed))
  /\ (concat [TextEncoder_encode (js "not a bundle")]
      = TextEncoder_encode (js "not a bundle") ->
      7 <= byteLength (TextEncoder_encode (js "not a bundle")) ->
      firstn 7 (TextEncoder_encode (js "not a bundle")) <> HEAD ->
      operation_verify (runtime_with (TextEncoder_encode (js "not a bundle")) [])
        [js "verify"; js "bundle"]
      = ([console_error (not_valid (js "bundle"));
          console_log (js "Valid asset bundle")], completed)).
Proof.
  apply (verify_reports_valid_in_every_case
           (runtime_with (TextEncoder_encode (js "not a bundle")) [])
           [js "verify"; js "bundle"]
           (js "bundle") (TextEncoder_encode (js "not a bundle"))).
  - reflexivity.
  - reflexivity.
Defined.





(** X22. [abundle ls] prints the names of the entries of a bundle that
    verifies, one line each, in the order of the archive, and ends
    without an exit code (the file arrives in chunks that end inside
    fields). *)
Theorem ls_prints_the_names (rt : Runtime) (args : list jsstring) (arg : jsstring)
    (es : list Entry) :
  nth_error args 1 = Some arg ->
  file_content rt (path_resolve rt arg) = Some (archive_bytes es) ->
  cut_inside_fields es (BunFile_stream rt (archive_bytes es)) ->
  es <> [] -> Forall well_formed es -> Forall verifies es ->
  operation_ls rt args
  = (map (fun e => console_log (TextDecoder_decode (e_name e))) es, completed).
Proof.
  intros Harg Hfile Hcut Hne Hwf Hv.
  unfold operation_ls. rewrite Harg. cbv zeta. rewrite Hfile.
  rewrite (decode_chunked _ _ no_options Hne Hwf Hcut).
  cbn [verify_of verify no_options]. rewrite decoded_verified by assumption.
  rewrite app_nil_r, map_map. reflexivity.
Qed.


Lemma ls_prints_the_names_witness :
  operation_ls
    (runtime_with (archive_bytes [hello_entry; morning_entry]) [3; 9; 18; 30]%nat)
    [js "ls"; js "bundle"]
  = (map (fun e => console_log (TextDecoder_decode (e_name e)))
         [hello_entry; morning_entry], completed).
Proof.
  apply (ls_prints_the_names _ _ (js "bundle")).
  - reflexivity.
  - reflexivity.
  - exact test_pieces_cut_inside_fields.
  - discriminate.
  - repeat constructor; vm_compute; try reflexivity; discriminate.
  - repeat constructor; try reflexivity; vm_compute; discriminate.
Defined.




(** ** The header alone, and what is yielded *)

Lemma stream_start (value : list byte) (rest : ByteSource) :
  stream (mkState [value] 0 0 rest true) = concat (value :: rest).
Proof. unfold stream. cbn [chunks reader concat]. rewrite app_nil_r. reflexivity. Qed.

(** What [readBuffer] returns, on every source. *)
Lemma readBuffer_exact (n : Z) (st st' : DecoderState) (b : list byte) :
  cursor_ok st -> 0 <= n ->
  readBuffer n st = Return b st' ->
  b = firstn (Z.to_nat n) (skipn (Z.to_nat (position st)) (stream st))
  /\ stream st' = stream st
  /\ position st' = position st + n
  /\ position st' <= byteLength (stream st)
  /\ cursor_ok st'
  /\ running st' = running st.
Proof.
  intros Hok Hn H. unfold readBuffer, bind in H.
  pose proof (readBytes_cases n None st Hok) as C.
  destruct (readBytes n None st) as [d st1| e |]; try discriminate.
  injection H as <- <-. destruct C as (-> & Hs & Hp & Hle & Hok' & Hrun).
  rewrite Z.max_r in Hp by lia.
  repeat split; try assumption; apply Hok'.
Qed.

(** X24. The archive of no entries never decodes: on a source that
    delivers the seven bytes of the header and nothing more, in whatever
    chunks, the decoder yields no entry and throws "Unexpected end of
    file" or a TypeError. *)
Theorem archive_of_no_entries_never_decodes (input : ByteSource) (options : DecodeOptions) :
  concat input = HEAD ->
  decodeAssetBundleStream input options = ([], Thrown UnexpectedEndOfFile)
  \/ decodeAssetBundleStream input options = ([], Thrown TypeError).
Proof.
  intros Hcat. unfold decodeAssetBundleStream.
  destruct input as [|value rest]; [left; reflexivity|].
  set (st0 := mkState [value] 0 0 rest true).
  pose proof (cursor_ok_start value rest) as Hok0. fold st0 in Hok0.
  pose proof (unread_start value rest) as Hun0. fold st0 in Hun0.
  pose proof (stream_start value rest) as Hs0. fold st0 in Hs0.
  rewrite Hcat in Hun0, Hs0. change (byteLength HEAD) with 7 in Hun0.
  pose proof (readBuffer_cases 7 st0 Hok0 ltac:(lia)) as C.
  destruct (readBuffer 7 st0) as [head st1| e |] eqn:E;
    [| rewrite (bind_Throw _ _ _ _ E);
       destruct C as [-> | ->]; [left | right]; reflexivity
     | contradiction].
  rewrite (bind_Return _ _ _ _ _ E).
  destruct (readBuffer_exact 7 st0 st1 head Hok0 ltac:(lia) E)
    as (Hh & Hs1 & Hp1 & _ & Hok1 & Hrun1).
  rewrite Hs0 in Hh. change (position st0) with 0 in Hh, Hp1.
  change (firstn (Z.to_nat 7) (skipn (Z.to_nat 0) HEAD)) with HEAD in Hh. subst head.
  unfold checkHead. change (byteLength HEAD <? 7) with false. cbv iota.
  rewrite every_matches_HEAD. cbn [negb]. unfold ret.
  left. cbn [entryLoop]. cbn [running st0] in Hrun1. rewrite Hrun1.
  unfold readEntry. rewrite (bind_Throw _ _ _ UnexpectedEndOfFile); [reflexivity|].
  unfold readBuffer. rewrite (bind_Throw _ _ _ UnexpectedEndOfFile); [reflexivity|].
  apply readBytes_short; [assumption|].
  rewrite unread_position, Hs1, Hs0, Hp1. change (byteLength HEAD) with 7. lia.
Qed.

(** ** What is yielded stands in the source *)

Lemma data_bytes_deliver (blobType : option jsstring) (b : list byte) :
  data_bytes (deliver blobType b) = b.
Proof. destruct blobType as [[|c t]|]; reflexivity. Qed.

Lemma three_parts {A : Type} (l : list A) (p n m : nat) :
  (p + n + m <= length l)%nat ->
  l = firstn p l ++ firstn n (skipn p l) ++ firstn m (skipn (p + n) l)
      ++ skipn (p + n + m) l.
Proof.
  intros H.
  rewrite <- (firstn_skipn p l) at 1. f_equal.
  rewrite <- (firstn_skipn n (skipn p l)) at 1. f_equal.
  rewrite skipn_skipn, (Nat.add_comm n p).
  rewrite <- (firstn_skipn m (skipn (p + n) l)) at 1. f_equal.
  rewrite skipn_skipn. f_equal. lia.
Qed.

Lemma maybeReadMore_stream (st st' : DecoderState) :
  maybeReadMore st = Return tt st' -> stream st' = stream st.
Proof.
  unfold maybeReadMore.
  destruct ((cursor st =? 0) && (byteLength (chunks st) <=? chunk st)).
  - destruct (reader st) as [|value rest] eqn:Er; intros H; injection H as <-;
      unfold stream; cbn [chunks reader]; rewrite Er.
    + reflexivity.
    + rewrite concat_app. cbn [concat]. rewrite app_nil_r, <- app_assoc. reflexivity.
  - intros H. injection H as <-. reflexivity.
Qed.

Ltac step_in H b st1 E :=
  match type of H with
  | bind (readBuffer ?n) _ ?st = _ =>
      unfold bind at 1 in H;
      destruct (readBuffer n st) as [b st1| |] eqn:E; try discriminate
  end.

(** The entry one turn of the loop yields. *)
Lemma readEntry_carried (v : bool) (st st' : DecoderState) (file : AssetBundleOutput) :
  cursor_ok st ->
  readEntry v st = Return file st' ->
  carried (stream st) v file /\ cursor_ok st' /\ stream st' = stream st.
Proof.
  intros Hok H. unfold readEntry in H.
  step_in H b1 st1 E1.
  destruct (readBuffer_exact 2 _ _ _ Hok ltac:(lia) E1) as (_ & S1 & _ & _ & Hok1 & _).
  pose proof (readBuffer_cases 2 st Hok ltac:(lia)) as C1. rewrite E1 in C1.
  destruct C1 as (Hl1 & _ & _).
  destruct (two_bytes b1 st1 Hl1) as (nameLength & Hn & F1).
  unfold bind at 1 in H. rewrite F1 in H.
  step_in H b2 st2 E2.
  destruct (readBuffer_exact _ _ _ _ Hok1 Hn E2) as (_ & S2 & _ & _ & Hok2 & _).
  step_in H b3 st3 E3.
  destruct (readBuffer_exact 2 _ _ _ Hok2 ltac:(lia) E3) as (_ & S3 & _ & _ & Hok3 & _).
  pose proof (readBuffer_cases 2 st2 Hok2 ltac:(lia)) as C3. rewrite E3 in C3.
  destruct C3 as (Hl3 & _ & _).
  destruct (two_bytes b3 st3 Hl3) as (typeLength & Ht & F3).
  unfold bind at 1 in H. rewrite F3 in H.
  unfold bind at 1 in H.
  assert (Hty : forall type st4,
             (if typeLength =? 0 then ret (js "application/octet-stream")
              else b <- readBuffer typeLength ;; ret (TextDecoder_decode b)) st3
             = Return type st4 -> cursor_ok st4 /\ stream st4 = stream st3).
  { intros type st4. destruct (typeLength =? 0).
    - intros E. injection E as _ <-. split; [assumption | reflexivity].
    - unfold bind. destruct (readBuffer typeLength st3) as [b st4'| |] eqn:E4;
        try discriminate.
      intros E. injection E as _ <-.
      destruct (readBuffer_exact _ _ _ _ Hok3 Ht E4) as (_ & S4 & _ & _ & Hok4 & _).
      split; assumption. }
  destruct ((if typeLength =? 0 then ret (js "application/octet-stream")
             else b <- readBuffer typeLength ;; ret (TextDecoder_decode b)) st3)
    as [type st4| |] eqn:E4; try discriminate.
  destruct (Hty type st4 eq_refl) as (Hok4 & S4). clear Hty.
  step_in H b5 st5 E5.
  destruct (readBuffer_exact 4 _ _ _ Hok4 ltac:(lia) E5) as (_ & S5 & _ & _ & Hok5 & _).
  pose proof (readBuffer_cases 4 st4 Hok4 ltac:(lia)) as C5. rewrite E5 in C5.
  destruct C5 as (Hl5 & _ & _).
  destruct (four_bytes b5 st5 Hl5) as (size & Hsz & F5).
  unfold bind at 1 in H. rewrite F5 in H.
  unfold bind at 1 in H.
  pose proof (readBytes_cases size (Some type) st5 Hok5) as C6.
  destruct (readBytes size (Some type) st5) as [data st6| |] eqn:E6; try discriminate.
  destruct C6 as (Hd & S6 & P6 & L6 & Hok6 & _).
  rewrite Z.max_r in P6 by lia.
  step_in H hash st7 E7.
  destruct (readBuffer_exact 20 _ _ _ Hok6 ltac:(lia) E7)
    as (Hh & S7 & P7 & L7 & Hok7 & _).
  pose proof (readBuffer_cases 20 st6 Hok6 ltac:(lia)) as C7. rewrite E7 in C7.
  destruct C7 as (Hl7 & _ & _).
  assert (Hstream : stream st7 = stream st) by congruence.
  assert (Hs6 : stream st6 = stream st) by congruence.
  assert (Hs5 : stream st5 = stream st) by congruence.
  pose proof (position_nonneg st5 Hok5) as Hp5.
  rewrite Hs5 in Hd. rewrite Hs6, P6 in Hh. rewrite Hs6 in L7. rewrite P6 in P7.
  (* the source around the payload and the digest *)
  assert (Hparts : stream st
                   = firstn (Z.to_nat (position st5)) (stream st)
                     ++ data_bytes data ++ hash
                     ++ skipn (Z.to_nat (position st5) + Z.to_nat size + 20) (stream st)).
  { subst data hash. rewrite data_bytes_deliver.
    replace (Z.to_nat (position st5 + size))
      with (Z.to_nat (position st5) + Z.to_nat size)%nat by lia.
    change (Z.to_nat 20) with 20%nat.
    apply three_parts. unfold byteLength in *. lia. }
  assert (Hcar : forall (ok : v = true ->
                              (exists blob, data = IsBlob blob)
                              /\ hash = sha1 (data_bytes data)),
             carried (stream st) v (mkOutput (TextDecoder_decode b2) data)).
  { intros ok. unfold carried. cbn [out_data].
    eexists _, hash, _. split; [exact Hparts|]. split; assumption. }
  unfold bind, ret, throw in H.
  destruct v.
  - destruct data as [blob|buf]; [|discriminate].
    destruct (every_matches hash (sha1 (blob_bytes blob))) eqn:Ev; [|discriminate].
    injection H as <- <-. split; [|split; assumption].
    apply Hcar. intros _. split; [exists blob; reflexivity|].
    cbn [data_bytes]. apply every_matches_eq; [|assumption].
    pose proof (sha1_length (blob_bytes blob)). unfold byteLength in *. lia.
  - injection H as <- <-. split; [|split; assumption].
    apply Hcar. discriminate.
Qed.

Lemma entryLoop_carried (fuel : nat) :
  forall (v : bool) (st : DecoderState),
    cursor_ok st ->
    Forall (carried (stream st) v) (fst (entryLoop fuel v st)).
Proof.
  induction fuel as [|fuel IH]; intros v st Hok; cbn [entryLoop].
  - destruct (running st); constructor.
  - destruct (running st); [|constructor].
    destruct (readEntry v st) as [file st1| e |] eqn:E; try constructor.
    destruct (readEntry_carried v st st1 file Hok E) as (Hc & Hok1 & S1).
    destruct (maybeReadMore_progress st1 Hok1) as (st2 & Hm & Hok2 & _).
    rewrite Hm. pose proof (maybeReadMore_stream _ _ Hm) as S2.
    specialize (IH v st2 Hok2). rewrite S2, S1 in IH.
    destruct (entryLoop fuel v st2) as [files c]. cbn [fst] in *.
    constructor; assumption.
Qed.

(** X25. What the decoder yields stands in the source: on every source
    and with every option, the data of each yielded entry is a run of
    bytes of the source followed there by 20 more bytes; with
    verification the entry is a Blob and those 20 bytes are the SHA-1 of
    its data. *)
Theorem yielded_entries_stand_in_the_source (input : ByteSource) (options : DecodeOptions) :
  Forall (carried (concat input) (verify_of options))
         (fst (decodeAssetBundleStream input options)).
Proof.
  unfold decodeAssetBundleStream. fold (verify_of options).
  destruct input as [|value rest]; [constructor|].
  set (st0 := mkState [value] 0 0 rest true).
  pose proof (cursor_ok_start value rest) as Hok0. fold st0 in Hok0.
  pose proof (stream_start value rest) as Hs0. fold st0 in Hs0.
  destruct (readBuffer 7 st0) as [head st1| e |] eqn:E;
    [| rewrite (bind_Throw _ _ _ _ E); constructor
     | unfold bind; rewrite E; constructor].
  rewrite (bind_Return _ _ _ _ _ E).
  destruct (readBuffer_exact 7 _ _ _ Hok0 ltac:(lia) E) as (_ & S1 & _ & _ & Hok1 & _).
  unfold checkHead. destruct (byteLength head <? 7); [constructor|].
  destruct (negb (every_matches HEAD (firstn 7 head))); [constructor|].
  unfold ret. rewrite <- Hs0, <- S1. apply entryLoop_carried. assumption.
Qed.

Lemma archive_of_no_entries_never_decodes_witness :
  decodeAssetBundleStream [firstn 3 HEAD; skipn 3 HEAD] no_options
  = ([], Thrown UnexpectedEndOfFile)
  \/ decodeAssetBundleStream [firstn 3 HEAD; skipn 3 HEAD] no_options
     = ([], Thrown TypeError).
Proof.
  apply (archive_of_no_entries_never_decodes [firstn 3 HEAD; skipn 3 HEAD] no_options).
  reflexivity.
Defined.

(** ** Unicode names and media types *)

Ltac to_arith :=
  repeat match goal with
  | H : (_ && _) = true |- _ => apply andb_prop in H; destruct H
  | H : (_ && _) = false |- _ => apply andb_false_iff in H; destruct H
  | H : (_ || _) = true |- _ => apply orb_prop in H; destruct H
  | H : (_ || _) = false |- _ => apply orb_false_iff in H; destruct H
  | H : (_ <=? _) = true |- _ => apply Z.leb_le in H
  | H : (_ <=? _) = false |- _ => apply Z.leb_gt in H
  | H : (_ <? _) = true |- _ => apply Z.ltb_lt in H
  | H : (_ <? _) = false |- _ => apply Z.ltb_ge in H
  | H : (_ =? _) = true |- _ => apply Z.eqb_eq in H
  | H : (_ =? _) = false |- _ => apply Z.eqb_neq in H
  end.

Ltac by_cases :=
  repeat match goal with
  | |- context [if ?b then _ else _] =>
      let E := fresh "E" in
      destruct b eqn:E; to_arith; try (exfalso; lia)
  end.


























